(** * The md (software RAID) and SMART tables of osquery

    A shallow embedding of [osquery/tables/system/linux/md_tables.cpp]:
    the string helpers ([trimStr]), the disk state decoder
    ([getDiskStateStr]), the [/proc/mdstat] reader and parser ([getLines],
    [parseMDDrive], [parseMDStat]), the slot reconciler
    ([getDrivesForArray]), the udev lookups of [MD] and the three tables
    ([genMDDrives], [genMDDevices], [genMDPersonalities]); and of the walk
    over the drives of [osquery/tables/system/linux/smart_drives.cpp]
    ([getStorageCtlerClassDrivers], [getSmartCtlDeviceType], [getBlkDevices],
    [walkSmartDevices]).  The properties of the specification come first,
    further properties of the code after them; the two properties of the
    specification that speak of a whole call of the reconciler stand with
    the lemmas on the scan and the fill loop that they rest on. *)

From Stdlib Require Import ZArith Lia Ascii String.
From Stdlib Require OrderedTypeEx.
From stdpp Require Import base option list gmap strings sorting.

Local Open Scope string_scope.
Local Open Scope list_scope.
Local Open Scope Z_scope.

(** ** Outcomes of C++ code

    A C++ call returns, throws one of the standard exceptions, or runs into
    undefined behaviour (here: [operator[]] of a vector past its end). *)

Inductive exn : Type :=
  | invalid_argument
  | out_of_range.

Inductive outcome (A : Type) : Type :=
  | Ok (a : A)
  | Throw (e : exn)
  | Undefined.

Arguments Ok {A} a.
Arguments Throw {A} e.
Arguments Undefined {A}.

#[global] Instance outcome_ret : MRet outcome := fun A a => Ok a.

#[global] Instance outcome_bind : MBind outcome := fun A B f m =>
  match m with
  | Ok a => f a
  | Throw e => Throw e
  | Undefined => Undefined
  end.

(** glog: severity and message of each [LOG(...)] statement, oldest first. *)
Inductive severity : Type := WARNING | ERROR.

Definition glog : Type := list (severity * string).

Definition LOG (sev : severity) (msg : string) (log : glog) : glog :=
  log ++ [(sev, msg)].

(** ** std::string

    Sizes and positions are [size_t], modelled by [N]; [std::string::npos]
    is [None]. *)

Module Str.

Definition size (s : string) : N := N.of_nat (String.length s).

(** [s.find_first_not_of(c)] *)
Fixpoint find_first_not_of (s : string) (c : ascii) : option N :=
  match s with
  | EmptyString => None
  | String a s' =>
      if Ascii.eqb a c then N.succ <$> find_first_not_of s' c else Some 0%N
  end.

(** [s.find_last_not_of(c)] *)
Fixpoint find_last_not_of (s : string) (c : ascii) : option N :=
  match s with
  | EmptyString => None
  | String a s' =>
      match find_last_not_of s' c with
      | Some i => Some (N.succ i)
      | None => if Ascii.eqb a c then None else Some 0%N
      end
  end.

(** The first [n] characters, and what follows them. *)
Fixpoint take (n : N) (s : string) : string :=
  match s with
  | EmptyString => EmptyString
  | String a s' =>
      if (n =? 0)%N then EmptyString else String a (take (N.pred n) s')
  end.

Fixpoint drop (n : N) (s : string) : string :=
  match s with
  | EmptyString => EmptyString
  | String a s' => if (n =? 0)%N then s else drop (N.pred n) s'
  end.

(** [s.erase(pos, len)] for [pos <= s.size()]: removes [min(len, size - pos)]
    characters from [pos] on; [len = None] is [npos].  (For [pos > size]
    the C++ call throws; [trimStr], its only caller, never does that, see
    [trimStr_erase_in_range].) *)
Definition erase (s : string) (pos : N) (len : option N) : string :=
  match len with
  | None => take pos s
  | Some n => take pos s +:+ drop (pos + n) s
  end.

(** [s.substr(pos, len)]: throws [std::out_of_range] when [pos > size]. *)
Definition substr (s : string) (pos : N) (len : option N) : outcome string :=
  if (pos <=? size s)%N then
    Ok (match len with
        | None => drop pos s
        | Some n => take n (drop pos s)
        end)
  else Throw out_of_range.

(** [s.find(c)] for a character. *)
Fixpoint find_char (s : string) (c : ascii) : option N :=
  match s with
  | EmptyString => None
  | String a s' =>
      if Ascii.eqb a c then Some 0%N else N.succ <$> find_char s' c
  end.

(** [s.find(needle)] for a string. *)
Fixpoint find (s needle : string) : option N :=
  if String.prefix needle s then Some 0%N
  else match s with
       | EmptyString => None
       | String _ s' => N.succ <$> find s' needle
       end.

End Str.

(** ** trimStr (md_tables.cpp, lines 95-121) *)

Definition space : ascii := " "%char.

(** [s.size() - 1] is only evaluated when [first] exists, that is on a
    non-empty string, so the unsigned subtraction does not wrap. *)
Definition trimStr (s : string) (c : ascii) : string :=
  match Str.find_first_not_of s c with
  | None => s
  | Some first =>
      let s1 :=
        match Str.find_last_not_of s c with
        | Some last =>
            if (last <? Str.size s - 1)%N
            then Str.erase s (last + 1) None
            else s
        | None => s
        end in
      Str.erase s1 0 (Some first)
  end.

(** The overload on [std::vector<std::string>]. *)
Definition trimStrs (strs : list string) (c : ascii) : list string :=
  (fun s => trimStr s c) <$> strs.

(** ** int, std::to_string and std::stoi *)

Definition INT_MIN : Z := -2147483648.
Definition INT_MAX : Z := 2147483647.

Definition in_int (z : Z) : bool := (INT_MIN <=? z) && (z <=? INT_MAX).

(** A C++ [int]: a value together with the evidence that it fits 32 bits. *)
Record int : Type := Int { int_val :> Z; int_fits : Is_true (in_int int_val) }.

(** Conversion of an integer to [int], as for [disk.number = i] with a
    [size_t] on the right: two's complement wrap-around. *)
Definition wrap_int (z : Z) : Z := (z + 2147483648) mod 4294967296 - 2147483648.

Definition wrap_int_fits (z : Z) : Is_true (in_int (wrap_int z)).
Proof.
  unfold in_int, wrap_int, INT_MIN, INT_MAX.
  pose proof (Z.mod_pos_bound (z + 2147483648) 4294967296 eq_refl).
  apply Is_true_true, andb_true_iff; split; apply Z.leb_le; lia.
Qed.

Definition to_int (z : Z) : int := Int (wrap_int z) (wrap_int_fits z).

Definition digit_char (d : Z) : ascii := ascii_of_N (48 + Z.to_N d).

Definition is_digit (a : ascii) : bool :=
  let n := N_of_ascii a in ((48 <=? n) && (n <=? 57))%N.

Definition digit_val (a : ascii) : Z := Z.of_N (N_of_ascii a) - 48.

(** The decimal digits of [n >= 0], most significant first, in front of
    [rest]; [fuel] bounds the number of digits. *)
Fixpoint print_digits (fuel : nat) (n : Z) (rest : string) : string :=
  match fuel with
  | O => rest
  | S f =>
      let rest' := String (digit_char (n mod 10)) rest in
      if n <? 10 then rest' else print_digits f (n / 10) rest'
  end.

(** [std::to_string(int)]: the ["%d"] rendering. *)
Definition to_string (v : Z) : string :=
  let m := Z.abs v in
  let ds := print_digits (S (Z.to_nat (Z.log2 m))) m "" in
  if v <? 0 then String "-" ds else ds.

(** [isspace] in the C locale. *)
Definition isspace (a : ascii) : bool :=
  let n := N_of_ascii a in ((n =? 32) || ((9 <=? n) && (n <=? 13)))%N.

Fixpoint skip_spaces (s : string) : string :=
  match s with
  | EmptyString => EmptyString
  | String a s' => if isspace a then skip_spaces s' else s
  end.

Fixpoint digits_value (acc : Z) (s : string) : Z :=
  match s with
  | EmptyString => acc
  | String a s' =>
      if is_digit a then digits_value (acc * 10 + digit_val a) s' else acc
  end.

(** [std::stoi(s)]: [strtol] in base 10 (leading white space, an optional
    sign, then the longest run of digits); [std::invalid_argument] when no
    digit is there, [std::out_of_range] when the value is no [int]. *)
Definition stoi (s : string) : outcome Z :=
  let s1 := skip_spaces s in
  let '(neg, s2) :=
    match s1 with
    | String "-" r => (true, r)
    | String "+" r => (false, r)
    | _ => (false, s1)
    end in
  match s2 with
  | String a _ =>
      if is_digit a then
        let m := digits_value 0 s2 in
        let v := if neg : bool then - m else m in
        if in_int v then Ok v else Throw out_of_range
      else Throw invalid_argument
  | EmptyString => Throw invalid_argument
  end.

(** ** The constants of <linux/raid/md_p.h>

    The kernel header is no part of the sources, so its constants are a
    parameter of the model.  The first five flags exist in every header; the
    last four are tested under [#ifdef] and are [None] where the header does
    not define them. *)

Record md_p_h : Type := {
  MD_DISK_FAULTY : Z;
  MD_DISK_ACTIVE : Z;
  MD_DISK_SYNC : Z;
  MD_DISK_REMOVED : Z;
  MD_DISK_WRITEMOSTLY : Z;
  MD_DISK_FAILFAST : option Z;
  MD_DISK_JOURNAL : option Z;
  MD_DISK_CANDIDATE : option Z;
  MD_DISK_CLUSTER_ADD : option Z;
  MD_SB_DISKS : nat
}.

(** The values of <linux/raid/md_p.h> in Linux 4.10 and later, which defines
    all of them. *)
Definition linux_md_p : md_p_h := {|
  MD_DISK_FAULTY := 0;
  MD_DISK_ACTIVE := 1;
  MD_DISK_SYNC := 2;
  MD_DISK_REMOVED := 3;
  MD_DISK_WRITEMOSTLY := 9;
  MD_DISK_FAILFAST := Some 10;
  MD_DISK_JOURNAL := Some 18;
  MD_DISK_CANDIDATE := Some 5;
  MD_DISK_CLUSTER_ADD := Some 4;
  MD_SB_DISKS := 27
|}.

(** The same header with [MD_DISK_CLUSTER_ADD] left undefined. *)
Definition without_cluster_add (h : md_p_h) : md_p_h := {|
  MD_DISK_FAULTY := MD_DISK_FAULTY h;
  MD_DISK_ACTIVE := MD_DISK_ACTIVE h;
  MD_DISK_SYNC := MD_DISK_SYNC h;
  MD_DISK_REMOVED := MD_DISK_REMOVED h;
  MD_DISK_WRITEMOSTLY := MD_DISK_WRITEMOSTLY h;
  MD_DISK_FAILFAST := MD_DISK_FAILFAST h;
  MD_DISK_JOURNAL := MD_DISK_JOURNAL h;
  MD_DISK_CANDIDATE := MD_DISK_CANDIDATE h;
  MD_DISK_CLUSTER_ADD := None;
  MD_SB_DISKS := MD_SB_DISKS h
|}.

(** ** getDiskStateStr (md_tables.cpp, lines 236-281) *)

(** [(1 << k) & x], as the condition of an [if]. *)
Definition shl_and (k x : Z) : bool := negb (Z.land (Z.shiftl 1 k) x =? 0).

(** [if (cond) s += name;] *)
Definition append_if (cond : bool) (name s : string) : string :=
  if cond then s +:+ name else s.

(** The same under [#ifdef]. *)
Definition append_ifdef (flag : option Z) (cond : Z -> bool) (name s : string) : string :=
  match flag with
  | Some k => append_if (cond k) name s
  | None => s
  end.

Definition getDiskStateStr (h : md_p_h) (state : Z) : string :=
  if state =? 0 then "recovering"
  else
    let s := "" in
    let s := append_if (shl_and (MD_DISK_FAULTY h) state) "faulty " s in
    let s := append_if (shl_and (MD_DISK_ACTIVE h) state) "active " s in
    let s := append_if (shl_and (MD_DISK_SYNC h) state) "sync " s in
    let s := append_if (shl_and (MD_DISK_REMOVED h) state) "removed " s in
    let s := append_if (shl_and (MD_DISK_WRITEMOSTLY h) state) "writemostly " s in
    let s := append_ifdef (MD_DISK_FAILFAST h) (fun k => shl_and k state) "failfast " s in
    let s := append_ifdef (MD_DISK_JOURNAL h) (fun k => shl_and k state) "journal " s in
    let s := append_ifdef (MD_DISK_CANDIDATE h) (fun k => shl_and k state) "spare " s in
    (* line 275 tests the constant 1, not [state] *)
    let s := append_ifdef (MD_DISK_CLUSTER_ADD h) (fun k => shl_and k 1) "clusteradd " s in
    trimStr s space.

(** The decoder as the specification words it: every flag tested on the
    state, in the same order. *)
Definition getDiskStateStr_spec (h : md_p_h) (state : Z) : string :=
  if state =? 0 then "recovering"
  else
    let s := "" in
    let s := append_if (shl_and (MD_DISK_FAULTY h) state) "faulty " s in
    let s := append_if (shl_and (MD_DISK_ACTIVE h) state) "active " s in
    let s := append_if (shl_and (MD_DISK_SYNC h) state) "sync " s in
    let s := append_if (shl_and (MD_DISK_REMOVED h) state) "removed " s in
    let s := append_if (shl_and (MD_DISK_WRITEMOSTLY h) state) "writemostly " s in
    let s := append_ifdef (MD_DISK_FAILFAST h) (fun k => shl_and k state) "failfast " s in
    let s := append_ifdef (MD_DISK_JOURNAL h) (fun k => shl_and k state) "journal " s in
    let s := append_ifdef (MD_DISK_CANDIDATE h) (fun k => shl_and k state) "spare " s in
    let s := append_ifdef (MD_DISK_CLUSTER_ADD h) (fun k => shl_and k state) "clusteradd " s in
    trimStr s space.

(** ** Code that logs and may throw

    [M St A]: a computation over a state [St] (the log, or the log and the
    state of the md driver) whose outcome is a value and a new state, an
    exception, or undefined behaviour. *)

Definition M (St A : Type) : Type := St -> outcome (A * St).

#[global] Instance M_ret {St} : MRet (M St) := fun A a st => Ok (a, st).

#[global] Instance M_bind {St} : MBind (M St) := fun A B f m st =>
  match m st with
  | Ok (a, st') => f a st'
  | Throw e => Throw e
  | Undefined => Undefined
  end.

Definition lift {St A} (o : outcome A) : M St A := fun st =>
  match o with
  | Ok a => Ok (a, st)
  | Throw e => Throw e
  | Undefined => Undefined
  end.

(** [LOG(sev) << msg] in the parser, whose state is the log. *)
Definition log_msg (sev : severity) (msg : string) : M glog unit :=
  fun log => Ok (tt, LOG sev msg log).

Fixpoint mapM_M {St A B} (f : A -> M St B) (l : list A) : M St (list B) :=
  match l with
  | [] => mret []
  | x :: l' => y ← f x; ys ← mapM_M f l'; mret (y :: ys)
  end.

(** [v[i]] on a vector: undefined behaviour past the end. *)
Definition at_ {A} (v : list A) (i : N) : outcome A :=
  match v !! N.to_nat i with
  | Some x => Ok x
  | None => Undefined
  end.

Definition vsize {A} (v : list A) : N := N.of_nat (length v).

(** ** split and join (osquery/core/conversions.h) *)

Definition is_any_of (delim : string) (a : ascii) : bool :=
  existsb (Ascii.eqb a) (list_ascii_of_string delim).

(** [boost::split(elems, s, boost::is_any_of(delim))]: the pieces between
    delimiter characters, empty ones included. *)
Fixpoint boost_split (delim s : string) : list string :=
  match s with
  | EmptyString => [EmptyString]
  | String a s' =>
      if is_any_of delim a then EmptyString :: boost_split delim s'
      else match boost_split delim s' with
           | t :: ts => String a t :: ts
           | [] => [String a EmptyString]
           end
  end.

Fixpoint rtrim_spaces (s : string) : string :=
  match s with
  | EmptyString => EmptyString
  | String a s' =>
      match rtrim_spaces s' with
      | EmptyString => if isspace a then EmptyString else String a EmptyString
      | t => String a t
      end
  end.

(** [boost::algorithm::trim] *)
Definition boost_trim (s : string) : string := rtrim_spaces (skip_spaces s).

Fixpoint join (strs : list string) (delim : string) : string :=
  match strs with
  | [] => ""
  | [t] => t
  | t :: rest => t +:+ delim +:+ join rest delim
  end.

(** The default delimiters of [split]: tab and space. *)
Definition default_delim : string := String (ascii_of_N 9) " ".

(** Modelled from the spec: [split] of osquery/core/conversions.h is used by
    the parser but is not among the sources.  The specification has the md
    line "split on the first colon" into a trimmed name and a
    "whitespace-separated token list", and the config line "whitespace-split":
    the non-empty pieces between delimiter characters, each trimmed of white
    space. *)
Definition split (s delim : string) : list string :=
  boost_trim <$> filter (fun t => Str.size t ≠ 0%N) (boost_split delim s).

(** Modelled from the spec: [split] with a number of occurrences, also of
    osquery/core/conversions.h: the first [occurences] pieces, and the
    remaining ones joined again by the delimiter. *)
Definition split_occ (s delim : string) (occurences : nat) : list string :=
  let content := split s delim in
  let elems := take occurences content in
  let accumulator := drop occurences content in
  if (0 <? length accumulator)%nat then elems ++ [join accumulator delim]
  else elems.

(** ** The parsed status report (md_tables.h)

    The declarations of md_tables.h are not among the sources; the fields are
    those that the code assigns and that the data model of the specification
    lists. *)

Module MDDrive.
(** Modelled from the spec: [MDDrive] of md_tables.h, a DriveToken with its
    name and bracketed position; a token without brackets "yields position
    0". *)
Record t : Type := mk { name : string; pos : Z }.
End MDDrive.

Module MDDevice.
(** Modelled from the spec: [MDDevice] of md_tables.h, the ArrayRecord of the
    data model. *)
Record t : Type := mk {
  name : string;
  status : string;
  raidLevel : string;
  usableSize : string;
  other : string;
  drives : list MDDrive.t;
  healthyDrives : string;
  driveStatuses : string;
  recovery : string;
  resync : string;
  bitmap : string;
  checkArray : string;
  reshape : string
}.

Definition set_recovery (v : string) (d : t) : t :=
  mk (name d) (status d) (raidLevel d) (usableSize d) (other d) (drives d)
     (healthyDrives d) (driveStatuses d) v (resync d) (bitmap d)
     (checkArray d) (reshape d).
Definition set_resync (v : string) (d : t) : t :=
  mk (name d) (status d) (raidLevel d) (usableSize d) (other d) (drives d)
     (healthyDrives d) (driveStatuses d) (recovery d) v (bitmap d)
     (checkArray d) (reshape d).
Definition set_bitmap (v : string) (d : t) : t :=
  mk (name d) (status d) (raidLevel d) (usableSize d) (other d) (drives d)
     (healthyDrives d) (driveStatuses d) (recovery d) (resync d) v
     (checkArray d) (reshape d).
Definition set_checkArray (v : string) (d : t) : t :=
  mk (name d) (status d) (raidLevel d) (usableSize d) (other d) (drives d)
     (healthyDrives d) (driveStatuses d) (recovery d) (resync d) (bitmap d)
     v (reshape d).
Definition set_reshape (v : string) (d : t) : t :=
  mk (name d) (status d) (raidLevel d) (usableSize d) (other d) (drives d)
     (healthyDrives d) (driveStatuses d) (recovery d) (resync d) (bitmap d)
     (checkArray d) v.
End MDDevice.

Module MDStat.
(** Modelled from the spec: [MDStat] of md_tables.h, the StatusReport of the
    data model. *)
Record t : Type := mk {
  personalities : string;
  devices : list MDDevice.t;
  unused : string
}.

(** A default-constructed [MDStat]. *)
Definition empty : t := mk "" [] "".

Definition set_personalities (v : string) (r : t) : t :=
  mk v (devices r) (unused r).
Definition set_unused (v : string) (r : t) : t :=
  mk (personalities r) (devices r) v.
Definition push_device (d : MDDevice.t) (r : t) : t :=
  mk (personalities r) (devices r ++ [d]) (unused r).
End MDStat.

(** ** parseMDDrive (md_tables.cpp, lines 337-351) *)

(** [a - b - 1] on [size_t]: unsigned, modulo 2^64. *)
Definition size_t_span (a b : N) : N :=
  Z.to_N ((Z.of_N a - Z.of_N b - 1) mod 2 ^ 64).

Definition parseMDDrive (name : string) : M glog MDDrive.t :=
  let drive := MDDrive.mk name 0 in
  match Str.find_char name "[", Str.find_char name "]" with
  | Some start, Some end_ =>
      digits ← lift (Str.substr name (start + 1) (Some (size_t_span end_ start)));
      p ← lift (stoi digits);
      mret (MDDrive.mk name p)
  | _, _ =>
      log_msg WARNING ("Unexpected drive name format: " +:+ name);;
      mret drive
  end.

(** ** parseMDStat (md_tables.cpp, lines 353-472) *)

(** [sizeof(marker) - 1] *)
Definition marker_len (marker : string) : N := Str.size marker.

(** The [while (true)] loop of lines 422-457.  [rest] holds the lines from
    [lines[n + 1]] on: each round reads [lines[n + 1]], which is past the end
    of the vector when [rest] is empty, and a round that recognises a marker
    advances [n]. *)
Fixpoint continuation (rest : list string) (n : N) (mdd : MDDevice.t)
    : outcome (N * MDDevice.t) :=
  match rest with
  | [] => Undefined
  | line :: rest' =>
      match Str.find line "recovery =" with
      | Some pos =>
          v ← Str.substr line (pos + marker_len "recovery =") None;
          continuation rest' (n + 1) (MDDevice.set_recovery (trimStr v space) mdd)
      | None =>
      match Str.find line "resync =" with
      | Some pos =>
          v ← Str.substr line (pos + marker_len "resync =") None;
          continuation rest' (n + 1) (MDDevice.set_resync (trimStr v space) mdd)
      | None =>
      match Str.find line "reshape =" with
      | Some pos =>
          v ← Str.substr line (pos + marker_len "reshape =") None;
          continuation rest' (n + 1) (MDDevice.set_reshape (trimStr v space) mdd)
      | None =>
      match Str.find line "check =" with
      | Some pos =>
          v ← Str.substr line (pos + marker_len "check =") None;
          continuation rest' (n + 1) (MDDevice.set_checkArray (trimStr v space) mdd)
      | None =>
      match Str.find line "bitmap:" with
      | Some pos =>
          v ← Str.substr line (pos + marker_len "bitmap:") None;
          continuation rest' (n + 1) (MDDevice.set_bitmap (trimStr v space) mdd)
      | None => Ok (n, mdd)
      end end end end end
  end.

(** Lines 387-397: status, RAID level and drives of the md line. *)
Definition parse_settings (settings : list string)
    : M glog (string * string * list MDDrive.t) :=
  match settings with
  | status :: raidLevel :: tokens =>
      drives ← mapM_M parseMDDrive tokens;
      mret (status, raidLevel, drives)
  | _ => mret ("", "", [])
  end.

(** Lines 401-416: usableSize, healthyDrives, driveStatuses and other of the
    config line. *)
Definition parse_config (line : string)
    : M glog (string * string * string * string) :=
  let configline := split line default_delim in
  if (vsize configline <? 4)%N then
    log_msg WARNING ("Unexpected md device config: " +:+ line);;
    mret ("", "", "", "")
  else
    let configline := trimStrs configline space in
    c0 ← lift (at_ configline 0);
    c1 ← lift (at_ configline 1);
    healthy ← lift (at_ configline (vsize configline - 2));
    statuses ← lift (at_ configline (vsize configline - 1));
    let other :=
      if (4 <? vsize configline)%N then
        foldl (fun acc t => acc +:+ (" " +:+ t)) ""
              (take (length configline - 4) (drop 2 configline))
      else "" in
    mret (c0 +:+ " " +:+ c1, healthy, statuses, other).

(** Lines 377-459: the branch of a line that starts with "md".  The result
    is the cursor at the end of the loop body and the report. *)
Definition md_block (lines : list string) (n : N) (line : string)
    (result : MDStat.t) : M glog (N * MDStat.t) :=
  let mdline := split_occ line ":" 1 in
  if (vsize mdline <? 2)%N then
    log_msg WARNING ("Unexpected md device line structure: " +:+ line);;
    (* continue; the cursor is where it was *)
    mret (n, result)
  else
    m0 ← lift (at_ mdline 0);
    m1 ← lift (at_ mdline 1);
    let name := trimStr m0 space in
    let settings := trimStrs (split m1 " ") space in
    '(status, raidLevel, drives) ← parse_settings settings;
    next ← lift (at_ lines (n + 1));
    '(usableSize, healthy, statuses, other) ← parse_config next;
    let mdd :=
      MDDevice.mk name status raidLevel usableSize other drives healthy
                  statuses "" "" "" "" "" in
    let n := (n + 1)%N in
    '(n, mdd) ← lift (continuation (drop (N.to_nat (n + 1)) lines) n mdd);
    mret ((n + 1)%N, MDStat.push_device mdd result).

(** One round of the loop of lines 373-471, entered with [n < lines.size()]. *)
Definition parse_line (lines : list string) (n : N) (result : MDStat.t)
    : M glog (N * MDStat.t) :=
  line ← lift (at_ lines n);
  firstTwo ← lift (Str.substr line 0 (Some 2%N));
  if String.eqb firstTwo "md" then md_block lines n line result
  else if String.eqb firstTwo "un" then
    u ← lift (Str.substr line (marker_len "unused devices:") None);
    mret ((n + 1)%N, MDStat.set_unused u result)
  else
    log_msg WARNING ("Unexpected mdstat line: " +:+ line);;
    mret ((n + 1)%N, result).

(** The loop itself.  [fuel] bounds the number of rounds; [None] means that
    the loop is still running when the fuel is spent. *)
Fixpoint parse_loop (fuel : nat) (lines : list string) (n : N)
    (result : MDStat.t) (log : glog) : option (outcome (MDStat.t * glog)) :=
  if (n <? vsize lines)%N then
    match fuel with
    | O => None
    | S fuel' =>
        match parse_line lines n result log with
        | Ok ((n', result'), log') => parse_loop fuel' lines n' result' log'
        | Throw e => Some (Throw e)
        | Undefined => Some Undefined
        end
    end
  else Some (Ok (result, log)).

Definition parseMDStat (fuel : nat) (lines : list string) (result : MDStat.t)
    (log : glog) : option (outcome (MDStat.t * glog)) :=
  match lines with
  | [] => Some (Ok (result, log))
  | line0 :: _ =>
      match Str.find line0 "Personalities :" with
      | Some _ =>
          match Str.substr line0 (marker_len "Personalities :") None with
          | Ok p => parse_loop fuel lines 1 (MDStat.set_personalities p result) log
          | Throw e => Some (Throw e)
          | Undefined => Some Undefined
          end
      | None =>
          parse_loop fuel lines 0 result
            (LOG WARNING ("mdstat Personalites not found at line 0: " +:+ line0) log)
      end
  end.

(** ** Rows and the md driver interface *)

(** [Row] is a [std::map<std::string, std::string>], [QueryData] a vector of
    rows (osquery/tables.h). *)
Abbreviation Row := (gmap string string).
Abbreviation QueryData := (list (gmap string string)).

(** [r[key]] as an rvalue: the empty string when the key is absent. *)
Definition row_get (r : Row) (key : string) : string := default "" (r !! key).

(** [std::stoi(r["slot"])] *)
Definition row_slot (r : Row) : outcome Z := stoi (row_get r "slot").

(** The fields of [mdu_disk_info_t] and [mdu_array_info_t]
    (<linux/raid/md_u.h>) that the code reads. *)
Record mdu_disk_info_t : Type := {
  number : int;
  major : int;
  minor : int;
  raid_disk : int;
  state : int
}.

Record mdu_array_info_t : Type := {
  raid_disks : int
}.

(** [MDInterface] (md_tables.h; implemented by [MD], mocked by [MockMD] in
    the tests): the calls of the reconciler into the md driver and udev.
    [W] is the state of whatever answers them (the kernel, or a test double
    that replays a sequence of answers); a call that returns [bool] and fills
    a struct gives the struct on success and [None] on failure.
    [getDiskInfo] receives the [number] field the caller has set.
    What an implementation writes to the log itself (as [MD] does when an
    ioctl fails) is not part of the record: the log of the embedding holds the
    lines of the reconciler only, and no property below fixes the log or the
    state that a run with calls into the driver ends with. *)
Record MDInterface (W : Type) : Type := {
  getDiskInfo : string -> int -> W -> option mdu_disk_info_t * W;
  getArrayInfo : string -> W -> option mdu_array_info_t * W;
  getPathByDevName : string -> W -> string * W;
  getDevName : int -> int -> W -> string * W
}.

Arguments getDiskInfo {W} _ _ _ _.
Arguments getArrayInfo {W} _ _ _.
Arguments getPathByDevName {W} _ _ _.
Arguments getDevName {W} _ _ _ _.

(** ** getDrivesForArray (md_tables.cpp, lines 474-557) *)

Section Reconciler.

Context {W : Type}.
Variable hdr : md_p_h.
Variable md : MDInterface W.

(** Lines 498-512: the row of a disk with a device node. *)
Definition drive_row (arrayName devName : string) (array : mdu_array_info_t)
    (disk : mdu_disk_info_t) : Row :=
  let r : Row := ∅ in
  let r := <["md_device_name" := arrayName]> r in
  let r := <["drive_name" := devName]> r in
  let r := <["state" := getDiskStateStr hdr (state disk)]> r in
  let r := <["slot" := to_string (raid_disk disk)]> r in
  if (raid_disk disk <? 0) && (number disk <? raid_disks array)
  then <["slot" := to_string (number disk)]> r
  else r.

(** Lines 490-515: one round of the scan over the superblock slots. *)
Definition scan_disk (arrayName path : string) (array : mdu_array_info_t)
    (i : nat) (temp : QueryData) (w : W) : QueryData * W :=
  match getDiskInfo md path (to_int (Z.of_nat i)) w with
  | (None, w1) => (temp, w1)
  | (Some disk, w1) =>
      if 0 <? major disk then
        let '(devName, w2) := getDevName md (major disk) (minor disk) w1 in
        (temp ++ [drive_row arrayName devName array disk], w2)
      else (temp, w1)
  end.

(** The [for] loop of line 489, over the slot numbers in [numbers]. *)
Fixpoint scan_disks (arrayName path : string) (array : mdu_array_info_t)
    (numbers : list nat) (temp : QueryData) (w : W) : QueryData * W :=
  match numbers with
  | [] => (temp, w)
  | i :: numbers' =>
      let '(temp', w') := scan_disk arrayName path array i temp w in
      scan_disks arrayName path array numbers' temp' w'
  end.

(** Lines 520-533: the walk over [temp] for one slot; [i] is the index of
    the head of [rows] in [temp]. *)
Fixpoint find_slot (slot : Z) (rows : QueryData) (i : Z)
    (found : bool) (softRemoved : Z) : outcome (bool * Z) :=
  match rows with
  | [] => Ok (found, softRemoved)
  | r :: rows' =>
      v ← row_slot r;
      if v =? slot then find_slot slot rows' (i + 1) true softRemoved
      else
        v' ← row_slot r;
        if v' <? 0 then find_slot slot rows' (i + 1) found i
        else find_slot slot rows' (i + 1) found softRemoved
  end.

(** Lines 544-548: the row of a slot no drive fills. *)
Definition placeholder_row (arrayName : string) (slot : Z) : Row :=
  let r : Row := ∅ in
  let r := <["md_device_name" := arrayName]> r in
  let r := <["drive_name" := "unknown"]> r in
  let r := <["state" := "removed"]> r in
  <["slot" := to_string slot]> r.

(** Lines 520-552: the body of the loop over the slots of the array. *)
Definition resolve_slot (arrayName : string) (temp : QueryData) (slot : Z)
    : outcome QueryData :=
  '(found, softRemoved) ← find_slot slot temp 0 false (-1);
  if negb found then
    if -1 <? softRemoved then
      Ok (alter (fun r : Row => <["slot" := to_string slot]> r)
                (Z.to_nat softRemoved) temp)
    else Ok (temp ++ [placeholder_row arrayName slot])
  else Ok temp.

(** The [for] loop of line 519, over the slots in [slots]. *)
Fixpoint resolve_slots (arrayName : string) (temp : QueryData)
    (slots : list Z) : outcome QueryData :=
  match slots with
  | [] => Ok temp
  | slot :: slots' =>
      temp' ← resolve_slot arrayName temp slot;
      resolve_slots arrayName temp' slots'
  end.

(** The state of a call is the state of the driver and the log. *)
Definition getDrivesForArray (arrayName : string) (data : QueryData)
    : M (W * glog) QueryData := fun '(w, log) =>
  let '(path, w) := getPathByDevName md arrayName w in
  if String.eqb path "" then
    Ok (data, (w, LOG ERROR ("Could not get file path for " +:+ arrayName) log))
  else
    match getArrayInfo md path w with
    | (None, w) => Ok (data, (w, log))
    | (Some array, w) =>
        let '(temp, w) :=
          scan_disks arrayName path array (seq 0 (MD_SB_DISKS hdr)) [] w in
        match resolve_slots arrayName temp (seqZ 0 (raid_disks array)) with
        | Ok temp => Ok (data ++ temp, (w, log))
        | Throw e => Throw e
        | Undefined => Undefined
        end
    end.

(** The loop of genMDDrives (lines 568-570) over the arrays of the parsed
    report. *)
Fixpoint drives_of_arrays (names : list string) (results : QueryData)
    : M (W * glog) QueryData :=
  match names with
  | [] => mret results
  | name :: names' =>
      results' ← getDrivesForArray name results;
      drives_of_arrays names' results'
  end.

End Reconciler.

(** ** Test doubles

    A driver double in the manner of tests/md_tests.cpp: the array has
    [raidDisks] slots, [targets] lists the disks that answer with a device
    node, every other slot answers as an empty one.  Its state is the number
    of the disk asked for last, from which the device name is made. *)

Definition mk_disk (number raid_disk state major minor : Z) : mdu_disk_info_t :=
  {| number := to_int number; major := to_int major; minor := to_int minor;
     raid_disk := to_int raid_disk; state := to_int state |}.

Definition mock_md (raidDisks : Z) (blkDevicePrefix : string)
    (targets : list mdu_disk_info_t) : MDInterface Z := {|
  getDiskInfo := fun _ queried _ =>
    (Some (default (mk_disk queried (-1) 8 0 0)
             (head (filter (fun d => int_val (number d) = int_val queried) targets))),
     int_val queried);
  getArrayInfo := fun _ w => (Some {| raid_disks := to_int raidDisks |}, w);
  getPathByDevName := fun name w => ("/dev/" +:+ name, w);
  getDevName := fun _ _ w => (blkDevicePrefix +:+ to_string w, w)
|}.

(** A driver whose array query fails, and one that resolves no path. *)
Definition mock_md_no_array : MDInterface Z := {|
  getDiskInfo := fun _ _ w => (None, w);
  getArrayInfo := fun _ w => (None, w);
  getPathByDevName := fun name w => ("/dev/" +:+ name, w);
  getDevName := fun _ _ w => ("unknown", w)
|}.

Definition mock_md_no_path : MDInterface Z := {|
  getDiskInfo := fun _ _ w => (None, w);
  getArrayInfo := fun _ w => (None, w);
  getPathByDevName := fun name w => ("", w);
  getDevName := fun _ _ w => ("unknown", w)
|}.

(** Rows that carry the given slots and nothing else. *)
Definition rows_with_slots (zs : list Z) : QueryData :=
  (fun z => <["slot" := to_string z]> (∅ : Row)) <$> zs.

(** tests/md_tests.cpp, all_drives_healthy and all_drives_faulty *)
Definition all_drives (state : Z) : list mdu_disk_info_t :=
  (fun i => mk_disk i i state (i + 5) (i + 10)) <$> seqZ 0 6.

(** tests/md_tests.cpp, every_other_drives_faulty *)
Definition every_other_drives_faulty : list mdu_disk_info_t :=
  [ mk_disk 1 1 6 5 6; mk_disk 3 3 6 7 8; mk_disk 5 5 6 9 10;
    mk_disk 0 (-1) 1 11 12; mk_disk 2 (-1) 1 13 14; mk_disk 4 (-1) 1 15 16 ].

(** tests/md_tests.cpp, some_drives_removed *)
Definition some_drives_removed : list mdu_disk_info_t :=
  [ mk_disk 1 1 6 5 6; mk_disk 3 3 6 7 8; mk_disk 5 5 6 9 10 ].

(** tests/md_tests.cpp, some_faulty_some_removed *)
Definition some_faulty_some_removed : list mdu_disk_info_t :=
  [ mk_disk 0 (-1) 1 5 6; mk_disk 1 1 6 5 6; mk_disk 3 3 6 7 8;
    mk_disk 4 4 6 5 6; mk_disk 5 (-1) 1 9 10; mk_disk 6 0 6 11 12 ].

(** tests/md_tests.cpp, scattered_faulty_and_removed *)
Definition scattered_faulty_and_removed : list mdu_disk_info_t :=
  [ mk_disk 1 1 6 5 6; mk_disk 3 3 6 7 8; mk_disk 5 5 6 9 10;
    mk_disk 9 (-1) 1 13 14; mk_disk 17 (-1) 1 15 16 ].

(** ** Vocabulary of the properties *)

(** A trimmed string starts and ends with a character other than [c]. *)
Definition trimmed (c : ascii) (t : string) : Prop :=
  Str.find_first_not_of t c = Some 0%N /\
  Str.find_last_not_of t c = Some (Str.size t - 1)%N.

(** The string of [n] characters [c]. *)
Fixpoint repeat_char (n : nat) (c : ascii) : string :=
  match n with
  | O => ""
  | S n' => String c (repeat_char n' c)
  end.

(** The value [digits_value] reaches from [acc] over the digits of [n]. *)
Fixpoint shift_digits (fuel : nat) (acc n : Z) : Z :=
  match fuel with
  | O => acc
  | S f =>
      if n <? 10 then acc * 10 + n
      else shift_digits f acc (n / 10) * 10 + n mod 10
  end.

(** A "Personalities" line, an md line with three drive tokens, its config
    line and a recovery line. *)
Definition fixture : list string :=
  [ "Personalities : [raid1] [raid6] [raid5] [raid4]";
    "md0 : active raid5 sdc1[3] sdb1[1] sda1[0]";
    "1953260544 blocks super 1.2 level 5, 512k chunk, algorithm 2 [3/2] [UU_]";
    "[==>..................]  recovery = 12.3% (100/800) finish=1.2min speed=900K/sec" ].

Definition fixture_device : MDDevice.t := {|
  MDDevice.name := "md0";
  MDDevice.status := "active";
  MDDevice.raidLevel := "raid5";
  MDDevice.usableSize := "1953260544 blocks";
  MDDevice.other := " super 1.2 level 5, 512k chunk, algorithm 2";
  MDDevice.drives :=
    [ MDDrive.mk "sdc1[3]" 3; MDDrive.mk "sdb1[1]" 1; MDDrive.mk "sda1[0]" 0 ];
  MDDevice.healthyDrives := "[3/2]";
  MDDevice.driveStatuses := "[UU_]";
  MDDevice.recovery := "12.3% (100/800) finish=1.2min speed=900K/sec";
  MDDevice.resync := "";
  MDDevice.bitmap := "";
  MDDevice.checkArray := "";
  MDDevice.reshape := ""
|}.

(** An md line that [split] does not cut in two at a colon. *)
Definition md_line_without_colon (line : string) : bool :=
  match Str.substr line 0 (Some 2%N) with
  | Ok firstTwo =>
      String.eqb firstTwo "md" && (vsize (split_occ line ":" 1) <? 2)%N
  | _ => false
  end.

(** The slots that the rows of [temp] carry. *)
Definition carries (temp : QueryData) (zs : list Z) : Prop :=
  Forall2 (fun (r : Row) (z : Z) => row_slot r = Ok z) temp zs.

(** The index of the last negative slot. *)
Fixpoint last_negative (zs : list Z) : option nat :=
  match zs with
  | [] => None
  | z :: zs' =>
      match last_negative zs' with
      | Some j => Some (S j)
      | None => if z <? 0 then Some 0%nat else None
      end
  end.

(** The slots after the round of the loop for [slot]. *)
Definition resolved (zs : list Z) (slot : Z) : list Z :=
  if decide (slot ∈ zs) then zs
  else match last_negative zs with
       | Some j => <[j:=slot]> zs
       | None => zs ++ [slot]
       end.

(** At most [N] slots, all below [N], the non-negative ones pairwise
    distinct. *)
Definition tidy (N : Z) (zs : list Z) : Prop :=
  (length zs <= Z.to_nat N)%nat /\
  (forall z, z ∈ zs -> z < N) /\
  (forall i j z, zs !! i = Some z -> zs !! j = Some z -> 0 <= z -> i = j).

(** Every slot below [k] is carried. *)
Definition covered (k : Z) (zs : list Z) : Prop :=
  forall t, 0 <= t < k -> t ∈ zs.

(** The slot a disk gets in the scan (lines 502-512). *)
Definition provisional_slot (array : mdu_array_info_t) (disk : mdu_disk_info_t) : Z :=
  if (raid_disk disk <? 0) && (number disk <? raid_disks array)
  then number disk else raid_disk disk.

(** Drive name, state and slot of the rows that a call on array "md0" hands
    back, as the tests compare them. *)
Definition returned_rows {W : Type} (o : outcome (QueryData * (W * glog)))
    : option (list (string * string * string)) :=
  match o with
  | Ok (rows, _) =>
      Some ((fun r : Row =>
               (row_get r "drive_name", row_get r "state", row_get r "slot"))
              <$> rows)
  | _ => None
  end.

(** The slots of the rows that a call hands back. *)
Definition returned_slots {W : Type} (o : outcome (QueryData * (W * glog)))
    : option (list (outcome Z)) :=
  match o with
  | Ok (rows, _) => Some (row_slot <$> rows)
  | _ => None
  end.

(** None of the disk queries that the scan of [numbers] makes from the driver
    state [w] on yields a disk with a device node: each fails, or answers
    with a major number that is not positive. *)
Fixpoint no_live_disk {W : Type} (md : MDInterface W) (path : string)
    (numbers : list nat) (w : W) : Prop :=
  match numbers with
  | [] => True
  | i :: numbers' =>
      match getDiskInfo md path (to_int (Z.of_nat i)) w with
      | (Some disk, w1) => major disk <= 0 /\ no_live_disk md path numbers' w1
      | (None, w1) => no_live_disk md path numbers' w1
      end
  end.

(** ** Strings without a margin *)

(** The last character of a string. *)
Fixpoint last_char (s : string) : option ascii :=
  match s with
  | EmptyString => None
  | String a EmptyString => Some a
  | String _ s' => last_char s'
  end.

(** [t] is not empty and neither begins nor ends with [c]. *)
Definition no_margin (c : ascii) (t : string) : Prop :=
  (exists a u, t = String a u /\ a <> c) /\
  (exists b, last_char t = Some b /\ b <> c).

(** ** The names of a disk state *)

(** Bit [k] of [x], for a flag that the header may leave undefined. *)
Definition flag_bit (flag : option Z) (x : Z) : bool :=
  match flag with
  | Some k => Z.testbit x k
  | None => false
  end.

(** The names that [getDiskStateStr] reports for a state, in its order: the
    name of each flag whose bit is set in the state, and "clusteradd" when
    bit MD_DISK_CLUSTER_ADD is set in the constant 1. *)
Definition state_names (h : md_p_h) (state : Z) : list string :=
  (filter (fun p => fst p = true)
     [ (Z.testbit state (MD_DISK_FAULTY h), "faulty");
       (Z.testbit state (MD_DISK_ACTIVE h), "active");
       (Z.testbit state (MD_DISK_SYNC h), "sync");
       (Z.testbit state (MD_DISK_REMOVED h), "removed");
       (Z.testbit state (MD_DISK_WRITEMOSTLY h), "writemostly");
       (flag_bit (MD_DISK_FAILFAST h) state, "failfast");
       (flag_bit (MD_DISK_JOURNAL h) state, "journal");
       (flag_bit (MD_DISK_CANDIDATE h) state, "spare");
       (flag_bit (MD_DISK_CLUSTER_ADD h) 1, "clusteradd") ]).*2.

(** [s.find_first_not_of(chars)] for a set of characters. *)
Fixpoint find_first_not_of_any (s chars : string) : option N :=
  match s with
  | EmptyString => None
  | String a s' =>
      if is_any_of chars a then N.succ <$> find_first_not_of_any s' chars
      else Some 0%N
  end.

(** ** getLines (md_tables.cpp, lines 320-335)

    [file] is what the stream on [kMDStatPath] gives: [None] when it cannot
    be opened, else the lines that [getline] reads, one after the other. *)

(** The characters of the literal of line 328: tab, carriage return, vertical
    tab and space. *)
Definition blank_chars : string :=
  String (ascii_of_N 9) (String (ascii_of_N 13) (String (ascii_of_N 11) " ")).

Fixpoint read_lines (raw : list string) (lines : list string) : list string :=
  match raw with
  | [] => lines
  | line :: raw' =>
      let line := trimStr line space in
      match find_first_not_of_any line blank_chars with
      | Some _ => read_lines raw' (lines ++ [line])
      | None => read_lines raw' lines
      end
  end.

Definition getLines (file : option (list string)) (lines : list string)
    : list string :=
  match file with
  | Some raw => read_lines raw lines
  | None => lines
  end.

(** ** The continuation lines of an array *)

(** A line with one of the markers that the loop of lines 422-457 looks
    for. *)
Definition has_marker (line : string) : bool :=
  bool_decide (is_Some (Str.find line "recovery =")) ||
  bool_decide (is_Some (Str.find line "resync =")) ||
  bool_decide (is_Some (Str.find line "reshape =")) ||
  bool_decide (is_Some (Str.find line "check =")) ||
  bool_decide (is_Some (Str.find line "bitmap:")).

(** Two devices that differ at most in the fields of the continuation
    lines. *)
Definition same_block (d d' : MDDevice.t) : Prop :=
  MDDevice.name d' = MDDevice.name d /\
  MDDevice.status d' = MDDevice.status d /\
  MDDevice.raidLevel d' = MDDevice.raidLevel d /\
  MDDevice.drives d' = MDDevice.drives d /\
  MDDevice.usableSize d' = MDDevice.usableSize d /\
  MDDevice.other d' = MDDevice.other d /\
  MDDevice.healthyDrives d' = MDDevice.healthyDrives d /\
  MDDevice.driveStatuses d' = MDDevice.driveStatuses d.

(** ** The rows of md_drives *)

(** The columns of a row of the md_drives table. *)
Definition drive_columns : gset string :=
  {[ "md_device_name"; "drive_name"; "state"; "slot" ]}.

(** A row of md_drives for the array [name]: the four columns, the name of
    the array, and a slot that [std::to_string] wrote from an [int]. *)
Definition md_drive_row (name : string) (r : Row) : Prop :=
  dom r = drive_columns /\
  r !! "md_device_name" = Some name /\
  exists z : Z, in_int z = true /\ r !! "slot" = Some (to_string z).

(** What the fill loop may do to a row [r] of the scan: [r'] differs from it
    in the slot at most, and not at all when the slot of [r] is not
    negative. *)
Definition kept_drive (r r' : Row) : Prop :=
  delete "slot" r' = delete "slot" r /\
  forall z : Z, row_slot r = Ok z -> 0 <= z -> r' = r.

(** ** The fill loop as a relation, and the disks of the scan *)

(** One round of the fill loop for slot [s], as the specification words it
    (4.3, step 3): a slot that a row carries is kept; else the row scanned
    last among those whose slot is still negative takes it; else the
    placeholder row is appended.  [temp] holds the rows in the order of the
    scan. *)
Inductive fill_slot (name : string) (s : Z) (temp : QueryData) : QueryData -> Prop :=
  | slot_kept (zs : list Z) :
      carries temp zs -> s ∈ zs -> fill_slot name s temp temp
  | slot_assigned (zs : list Z) (j : nat) (z : Z) :
      carries temp zs -> s ∉ zs ->
      zs !! j = Some z -> z < 0 ->
      (forall (k : nat) (z' : Z), (j < k)%nat -> zs !! k = Some z' -> 0 <= z') ->
      fill_slot name s temp
        (alter (fun r : Row => <["slot" := to_string s]> r) j temp)
  | slot_synthesized (zs : list Z) :
      carries temp zs -> s ∉ zs ->
      (forall z : Z, z ∈ zs -> 0 <= z) ->
      fill_slot name s temp (temp ++ [placeholder_row name s]).

(** The rounds for the slots of [slots], one after the other. *)
Inductive fill_slots (name : string) : list Z -> QueryData -> QueryData -> Prop :=
  | fill_done (temp : QueryData) : fill_slots name [] temp temp
  | fill_next (s : Z) (slots : list Z) (temp temp1 temp' : QueryData) :
      fill_slot name s temp temp1 ->
      fill_slots name slots temp1 temp' ->
      fill_slots name (s :: slots) temp temp'.

(** The disks with a device node that the queries for [numbers] yield from
    the driver state [w], in the order of the queries: each with the number
    queried, the answer, and the name that [getDevName] gives for it. *)
Fixpoint live_disks {W : Type} (md : MDInterface W) (path : string)
    (numbers : list nat) (w : W) : list (nat * mdu_disk_info_t * string) :=
  match numbers with
  | [] => []
  | i :: numbers' =>
      match getDiskInfo md path (to_int (Z.of_nat i)) w with
      | (Some disk, w1) =>
          if 0 <? major disk then
            let '(devName, w2) := getDevName md (major disk) (minor disk) w1 in
            (i, disk, devName) :: live_disks md path numbers' w2
          else live_disks md path numbers' w1
      | (None, w1) => live_disks md path numbers' w1
      end
  end.

(** The provisional slot of a disk of an array with [N] slots, as the
    specification words it (4.3, step 2). *)
Definition slot_guess (N : Z) (disk : mdu_disk_info_t) : Z :=
  if 0 <=? raid_disk disk then raid_disk disk
  else if number disk <? N then number disk
  else raid_disk disk.

(** ** Reports without arrays *)

(** A line that holds no array: it does not start with "md", and when it
    starts with "un" it is long enough for the marker "unused devices:". *)
Definition plain_line (line : string) : Prop :=
  String.prefix "md" line = false /\
  (String.prefix "un" line = true -> (15 <= Str.size line)%N).

(** ** genMDDevices (md_tables.cpp, lines 575-661) *)

(** Lines 605-610 and 612-617: the piece from its first character outside
    [chars] on, or the whole piece when it has none. *)
Definition strip_label (piece chars : string) : outcome string :=
  match find_first_not_of_any piece chars with
  | Some start => Str.substr piece start None
  | None => Ok piece
  end.

(** The lambda [handleR] of lines 595-618; [r] is the row it captures. *)
Definition handleR (line prefix : string) (r : Row) : M glog Row :=
  let pieces := split line " " in
  if negb (vsize pieces =? 4)%N then
    log_msg WARNING ("Unexpected recovery/resync line format: " +:+ line);;
    mret r
  else
    let pieces := trimStrs pieces space in
    p0 ← lift (at_ pieces 0);
    p1 ← lift (at_ pieces 1);
    let r := <[prefix +:+ "_progress" := p0 +:+ " " +:+ p1]> r in
    p2 ← lift (at_ pieces 2);
    finish ← lift (strip_label p2 "finish=");
    let r := <[prefix +:+ "_finish" := finish]> r in
    p3 ← lift (at_ pieces 3);
    speed ← lift (strip_label p3 "speed=");
    mret (<[prefix +:+ "_speed" := speed]> r).

(** Lines 636-653: the columns of the bitmap line. *)
Definition bitmap_columns (bitmap : string) (r : Row) : M glog Row :=
  let bitmapInfos := split bitmap "," in
  if (vsize bitmapInfos <? 2)%N then
    log_msg WARNING ("Unexpected bitmap line structure: " +:+ bitmap);;
    mret r
  else
    let bitmapInfos := trimStrs bitmapInfos space in
    b0 ← lift (at_ bitmapInfos 0);
    let r := <["bitmap_on_mem" := b0]> r in
    b1 ← lift (at_ bitmapInfos 1);
    let r := <["bitmap_chunk_size" := b1]> r in
    if (2 <? vsize bitmapInfos)%N then
      b2 ← lift (at_ bitmapInfos 2);
      match Str.find b2 "file:" with
      | Some pos =>
          file ← lift (Str.substr b2 (pos + marker_len "file:") None);
          mret (<["bitmap_external_file" := trimStr file space]> r)
      | None => mret r
      end
    else mret r.

(** [if (field != "") f(field)] *)
Definition unless_empty (field : string) (f : string -> Row -> M glog Row)
    (r : Row) : M glog Row :=
  if String.eqb field "" then mret r else f field r.

(** Lines 585-657: the row of one device. *)
Definition device_row (unused : string) (device : MDDevice.t) : M glog Row :=
  let r : Row := ∅ in
  let r := <["device_name" := MDDevice.name device]> r in
  let r := <["status" := MDDevice.status device]> r in
  let r := <["raid_level" := MDDevice.raidLevel device]> r in
  let r := <["healthy_drives" := MDDevice.healthyDrives device]> r in
  let r := <["usable_size" := MDDevice.usableSize device]> r in
  r ← unless_empty (MDDevice.recovery device)
        (fun line => handleR line "discovery") r;
  r ← unless_empty (MDDevice.resync device)
        (fun line => handleR line "resync") r;
  r ← unless_empty (MDDevice.reshape device)
        (fun line => handleR line "reshape") r;
  r ← unless_empty (MDDevice.checkArray device)
        (fun line => handleR line "check_array") r;
  r ← unless_empty (MDDevice.bitmap device) bitmap_columns r;
  mret (<["unused_devices" := unused]> r).

(** The loop of lines 584-658 over the devices of the parsed report. *)
Definition device_rows (mds : MDStat.t) : M glog QueryData :=
  mapM_M (device_row (MDStat.unused mds)) (MDStat.devices mds).

(** The table itself: the lines of the file, parsed, then one row per
    device.  [None] when the parser is still running after [fuel] rounds. *)
Definition genMDDevices (fuel : nat) (file : option (list string)) (log : glog)
    : option (outcome (QueryData * glog)) :=
  match parseMDStat fuel (getLines file []) MDStat.empty log with
  | Some (Ok (mds, log)) => Some (device_rows mds log)
  | Some (Throw e) => Some (Throw e)
  | Some Undefined => Some Undefined
  | None => None
  end.

(** The columns that every row of md_devices has, with their values for
    [device]. *)
Definition base_columns (unused : string) (device : MDDevice.t)
    : list (string * string) :=
  [ ("device_name", MDDevice.name device);
    ("status", MDDevice.status device);
    ("raid_level", MDDevice.raidLevel device);
    ("healthy_drives", MDDevice.healthyDrives device);
    ("usable_size", MDDevice.usableSize device);
    ("unused_devices", unused) ].

(** [s] without its leading characters of [chars]. *)
Fixpoint lstrip (chars s : string) : string :=
  match s with
  | EmptyString => EmptyString
  | String a s' => if is_any_of chars a then lstrip chars s' else s
  end.

(** What lines 605-610 store for a piece: the piece without its leading
    characters of [chars], unless that leaves nothing; then the piece. *)
Definition stripped (chars piece : string) : string :=
  match lstrip chars piece with
  | EmptyString => piece
  | t => t
  end.

(** A column of [base_columns] is none of the columns of [handleR] and of
    the bitmap. *)
Definition fixed_column (key : string) : Prop :=
  key ∈ [ "device_name"; "status"; "raid_level"; "healthy_drives"; "usable_size" ].

(** ** genMDDrives (md_tables.cpp, lines 559-573) *)

(** The lines of the file, parsed, then the pass over the arrays of the
    report.  [None] when the parser is still running after [fuel] rounds.
    [md] stands for the [MD] object of line 562 as far as its calls return:
    its lookups, which can fail, are embedded on their own as
    [MD_getPathByDevName] and [MD_getDevName], and what is proved of this
    definition is proved of the runs that make no call. *)
Definition genMDDrives {W : Type} (hdr : md_p_h) (md : MDInterface W)
    (fuel : nat) (file : option (list string))
    : W * glog -> option (outcome (QueryData * (W * glog))) := fun '(w, log) =>
  match parseMDStat fuel (getLines file []) MDStat.empty log with
  | Some (Ok (mds, log)) =>
      Some (drives_of_arrays hdr md (MDDevice.name <$> MDStat.devices mds) []
              (w, log))
  | Some (Throw e) => Some (Throw e)
  | Some Undefined => Some Undefined
  | None => None
  end.

(** ** genMDPersonalities (md_tables.cpp, lines 663-683) *)

(** [a - b] on [size_t]: unsigned, modulo 2^64. *)
Definition size_t_sub (a b : N) : N :=
  Z.to_N ((Z.of_N a - Z.of_N b) mod 2 ^ 64).

(** Lines 675-679: the row of one piece of the personalities. *)
Definition personality_row (setting : string) : outcome Row :=
  let setting := trimStr setting space in
  name ← Str.substr setting 1 (Some (size_t_sub (Str.size setting) 2));
  mret ({[ "name" := name ]} : Row).

(** The loop of lines 674-680. *)
Fixpoint personality_rows (settings : list string) : outcome QueryData :=
  match settings with
  | [] => mret []
  | setting :: settings' =>
      r ← personality_row setting;
      rows ← personality_rows settings';
      mret (r :: rows)
  end.

Definition genMDPersonalities (fuel : nat) (file : option (list string))
    (log : glog) : option (outcome (QueryData * glog)) :=
  match parseMDStat fuel (getLines file []) MDStat.empty log with
  | Some (Ok (mds, log)) =>
      Some (lift (personality_rows (split (MDStat.personalities mds) " ")) log)
  | Some (Throw e) => Some (Throw e)
  | Some Undefined => Some Undefined
  | None => None
  end.

(** [s] without its last character. *)
Fixpoint chop (s : string) : string :=
  match s with
  | EmptyString => EmptyString
  | String a EmptyString => EmptyString
  | String a s' => String a (chop s')
  end.

(** [s] without its first and its last character. *)
Definition inner (s : string) : string :=
  match s with
  | EmptyString => EmptyString
  | String _ s' => chop s'
  end.

(** ** The udev lookups of MD (md_tables.cpp, lines 130-227) *)

(** What the lookups read of a device of the "block" subsystem: the values
    of [udev_device_get_property_value], [None] for a null pointer. *)
Record block_device : Type := {
  DEVNAME : option string;
  MAJOR : option string;
  MINOR : option string
}.

(** What libudev gives: no handle, no enumeration, or the entries of the
    subsystem, [None] for an entry of which udev makes no device. *)
Inductive udev_listing : Type :=
  | no_udev
  | no_enumerate
  | udev_entries (entries : list (option block_device)).

(** [useUdevListEntries] (lines 130-154) *)
Definition useUdevListEntries {R : Type} (udev : udev_listing)
    (f : list (option block_device) -> M glog R) (unset : R) : M glog R :=
  match udev with
  | no_udev => log_msg ERROR "Could not get udev handle";; mret unset
  | no_enumerate => log_msg ERROR "Could not get enumerate handle";; mret unset
  | udev_entries entries => f entries
  end.

(** [s.c_str()] as a C string: the characters before the first NUL. *)
Fixpoint c_str (s : string) : string :=
  match s with
  | EmptyString => EmptyString
  | String a s' => if Ascii.eqb a zero then EmptyString else String a (c_str s')
  end.

(** [strcmp(name.c_str(), &devName[strlen(devName) - name.length()]) == 0]
    (line 175).  The subtraction is on [size_t]: when [devName] is shorter
    than [name] the address is far outside the array. *)
Definition ends_with (name devName : string) : outcome bool :=
  if (Str.size name <=? Str.size devName)%N
  then Ok (String.eqb (c_str name)
             (Str.drop (Str.size devName - Str.size name) devName))
  else Undefined.

(** Lines 177-183: the path of a device name. *)
Definition dev_path (devName : string) : string :=
  if bool_decide (Str.find devName "/" = Some 0%N) then devName
  else "/dev/" +:+ devName.

(** The loop of lines 162-189. *)
Fixpoint path_by_name (name : string) (entries : list (option block_device))
    : M glog string :=
  match entries with
  | [] => mret ""
  | None :: entries' =>
      log_msg ERROR "Could not get udev device handle";;
      path_by_name name entries'
  | Some device :: entries' =>
      match DEVNAME device with
      | None => lift Undefined
      | Some devName =>
          hit ← lift (ends_with name devName);
          if hit : bool then mret (dev_path devName)
          else path_by_name name entries'
      end
  end.

(** [MD::getPathByDevName] (lines 156-193) *)
Definition MD_getPathByDevName (udev : udev_listing) (name : string)
    : M glog string :=
  useUdevListEntries udev (path_by_name name) "".

(** [std::string(p)] for a [const char*]: undefined for a null pointer. *)
Definition of_c_str (p : option string) : outcome string :=
  match p with
  | Some s => Ok s
  | None => Undefined
  end.

(** The loop of lines 203-223. *)
Fixpoint name_by_number (major minor : Z) (entries : list (option block_device))
    : M glog string :=
  match entries with
  | [] => mret "unknown"
  | None :: entries' =>
      log_msg ERROR "Could not get udev device handle";;
      name_by_number major minor entries'
  | Some device :: entries' =>
      devMajor ← lift (of_c_str (MAJOR device));
      ma ← lift (stoi devMajor);
      if ma =? major then
        devMinor ← lift (of_c_str (MINOR device));
        mi ← lift (stoi devMinor);
        if mi =? minor then lift (of_c_str (DEVNAME device))
        else name_by_number major minor entries'
      else name_by_number major minor entries'
  end.

(** [MD::getDevName] (lines 195-227) *)
Definition MD_getDevName (udev : udev_listing) (major minor : Z) : M glog string :=
  useUdevListEntries udev (name_by_number major minor) "unknown".

(** The entry of a block device with its node and its numbers, as udev
    lists it. *)
Definition block_entry (node : string * Z * Z) : option block_device :=
  Some {| DEVNAME := Some node.1.1;
          MAJOR := Some (to_string node.1.2);
          MINOR := Some (to_string node.2) |}.

(** [devName] ends with [name]. *)
Definition has_suffix (name devName : string) : Prop :=
  name = Str.drop (Str.size devName - Str.size name) devName.

#[global] Instance has_suffix_dec name devName : Decision (has_suffix name devName).
Proof. unfold has_suffix. apply _. Defined.

(** * The SMART tables (smart_drives.cpp) *)

Record explicitDevice : Type := { driver : string; maxID : Z }.

(** Lines 41-44. *)
Definition kExplicitDriverToDevice : gmap string explicitDevice :=
  <["megaraid_sas" := {| driver := "megaraid,"; maxID := 127 |}]>
    (<["hpsa" := {| driver := "cciss,"; maxID := 14 |}]> ∅).

(** ** getStorageCtlerClassDrivers (smart_drives.cpp, lines 96-126) *)

(** What the callback reads of a device of the "pci" subsystem: the values
    that [UdevEventPublisher::getValue] gives for the two properties. *)
Record pci_device : Type := {
  ID_PCI_CLASS_FROM_DATABASE : string;
  DRIVER : string
}.

(** [a < b] on [std::string]: lexicographic, by character code. *)
Definition str_lt (a b : string) : Prop := String.ltb a b = true.

(** [std::lower_bound(v.begin(), v.end(), value)], as an index: the first
    position whose element is not less than [value].  The standard defines
    the call on a range that is partitioned by [< value]; a sorted one is. *)
Fixpoint lower_bound (v : list string) (value : string) : nat :=
  match v with
  | [] => O
  | x :: v' => if String.ltb x value then S (lower_bound v' value) else O
  end.

(** [v.insert(v.begin() + i, x)] *)
Definition insert_at (v : list string) (i : nat) (x : string) : list string :=
  take i v ++ x :: drop i v.

(** The callback of lines 100-121 on one entry of the enumeration; [None] is
    an entry without a path, or one of which udev makes no device. *)
Definition addStorageDriver (results : list string) (entry : option pci_device)
    : list string :=
  match entry with
  | None => results
  | Some device =>
      if String.eqb (ID_PCI_CLASS_FROM_DATABASE device) "Mass storage controller"
      then
        let driverName := DRIVER device in
        let i := lower_bound results driverName in
        match results !! i with
        | None => insert_at results i driverName
        | Some x =>
            if String.ltb driverName x then insert_at results i driverName
            else results
        end
      else results
  end.

(** [walkUdevSubSystem] (lines 46-68).  [udev] is what libudev gives:
    [None] when there is no handle, else the entries of the subsystem. *)
Fixpoint walk_entries {E R : Type} (handleDevF : R -> E -> outcome R)
    (results : R) (entries : list E) : outcome R :=
  match entries with
  | [] => Ok results
  | entry :: entries' =>
      results' ← handleDevF results entry;
      walk_entries handleDevF results' entries'
  end.

Definition walkUdevSubSystem {E R : Type} (udev : option (list E))
    (handleDevF : R -> E -> outcome R) (results : R) : M glog R :=
  match udev with
  | None => log_msg ERROR "Could not get libudev handle";; mret results
  | Some entries => lift (walk_entries handleDevF results entries)
  end.

Definition getStorageCtlerClassDrivers (udev : option (list (option pci_device)))
    : M glog (list string) :=
  walkUdevSubSystem udev (fun results entry => Ok (addStorageDriver results entry)) [].

(** ** getSmartCtlDeviceType (smart_drives.cpp, lines 128-138) *)

(** [m.at(key)]: throws [std::out_of_range] when the key is absent. *)
Definition map_at (m : gmap string explicitDevice) (key : string)
    : outcome explicitDevice :=
  match m !! key with
  | Some v => Ok v
  | None => Throw out_of_range
  end.

(** The handler of line 136 catches [std::out_of_range] and nothing else. *)
Fixpoint getSmartCtlDeviceType (storageDrivers : list string)
    (types : list explicitDevice) : outcome (list explicitDevice) :=
  match storageDrivers with
  | [] => Ok types
  | name :: storageDrivers' =>
      match map_at kExplicitDriverToDevice name with
      | Ok dev => getSmartCtlDeviceType storageDrivers' (types ++ [dev])
      | Throw out_of_range => getSmartCtlDeviceType storageDrivers' types
      | Throw e => Throw e
      | Undefined => Undefined
      end
  end.

(** The drivers of the mass storage controllers among the entries. *)
Definition storage_driver (entries : list (option pci_device)) (d : string)
    : Prop :=
  exists device : pci_device,
    Some device ∈ entries /\
    ID_PCI_CLASS_FROM_DATABASE device = "Mass storage controller" /\
    DRIVER device = d.


(** The two entries of the table. *)
Definition cciss : explicitDevice := {| driver := "cciss,"; maxID := 14 |}.
Definition megaraid : explicitDevice := {| driver := "megaraid,"; maxID := 127 |}.

(** ** getBlkDevices (smart_drives.cpp, lines 70-94) *)

(** What the callback reads of an entry of the "block" subsystem: its path
    ([None] for a null pointer), whether udev makes a device of it, and the
    device node of that ([None] for a null pointer). *)
Record blk_entry : Type := {
  blk_path : option string;
  blk_device : bool;
  blk_devnode : option string
}.

(** The callback of lines 74-90 on one entry.  A [std::string] made from a
    null pointer is undefined behaviour. *)
Definition addBlkDevice (results : list string) (entry : blk_entry)
    : outcome (list string) :=
  match blk_path entry with
  | None => Ok results
  | Some path =>
      if bool_decide (is_Some (Str.find path "virtual")) then Ok results
      else if negb (blk_device entry) then Ok results
      else match blk_devnode entry with
           | Some node => Ok (results ++ [node])
           | None => Undefined
           end
  end.

Definition getBlkDevices (udev : option (list blk_entry)) : M glog (list string) :=
  walkUdevSubSystem udev addBlkDevice [].

(** ** walkSmartDevices (smart_drives.cpp, lines 140-191) *)

(** [ctlerr_t] of smartmontools/smartctl_errs.h, as far as the code tells
    its values apart. *)
Inductive ctlerr_t : Type :=
  | NOERR
  | ctl_failure (code : Z).

(** [libsmartctl::CantIdDevResp] *)
Record CantIdDevResp : Type := { cant_err : ctlerr_t; cant_content : bool }.

(** The call of the walk into [libsmartctl::Client]; [W] is the state of
    everything the client and the handler of the walk act on. *)
Record SmartClient (W : Type) : Type := {
  cantIdDev : string -> string -> W -> CantIdDevResp * W
}.

Arguments cantIdDev {W} _ _ _ _.

Section Walk.

Context {W : Type}.
Variable c : SmartClient W.
Variable handleDevF : string -> string -> Z -> W * glog -> W * glog.

(** The loop of line 165 over the ids of one type.  [type.maxID] is 14 or
    127, so the comparison with the [size_t] counter converts nothing, and
    the counter fits the [int] that the handler gets. *)
Fixpoint try_ids (dev prefix : string) (ids : list Z) (found : bool)
    (st : W * glog) : bool * (W * glog) :=
  match ids with
  | [] => (found, st)
  | i :: ids' =>
      let fullType := prefix +:+ to_string i in
      let '(cantId, w) := cantIdDev c dev fullType st.1 in
      match cant_err cantId with
      | NOERR =>
          if negb (cant_content cantId)
          then try_ids dev prefix ids' true (handleDevF dev fullType i (w, st.2))
          else try_ids dev prefix ids' found (w, st.2)
      | ctl_failure _ =>
          try_ids dev prefix ids' found
            (w, LOG WARNING "Error while trying to identify device" st.2)
      end
  end.

(** The loop of line 157 over the types. *)
Fixpoint try_types (dev : string) (types : list explicitDevice) (found : bool)
    (st : W * glog) : bool * (W * glog) :=
  match types with
  | [] => (found, st)
  | type :: types' =>
      let '(found, st) :=
        try_ids dev (driver type) (seqZ 0 (maxID type + 1)) found st in
      if found then (found, st) else try_types dev types' found st
  end.

(** Lines 155-189: the body of the loop over the devices. *)
Definition walk_device (types : list explicitDevice) (st : W * glog)
    (dev : string) : W * glog :=
  let '(found, st) := try_types dev types false st in
  if negb found then handleDevF dev "" (-1) st else st.

(** [uid] and [euid] are what [getuid] and [geteuid] return; [pci] and [blk]
    what udev gives for the two subsystems. *)
Definition walkSmartDevices (uid euid : Z)
    (pci : option (list (option pci_device))) (blk : option (list blk_entry))
    (st : W * glog) : outcome (W * glog) :=
  let log :=
    if negb (uid =? 0) || negb (euid =? 0)
    then LOG WARNING "Need root access for smart information" st.2
    else st.2 in
  '(storageDrivers, log) ← getStorageCtlerClassDrivers pci log;
  types ← getSmartCtlDeviceType storageDrivers [];
  '(devs, log) ← getBlkDevices blk log;
  Ok (foldl (walk_device types) (st.1, log) devs).

End Walk.

(** *** What a walk does, step by step

    To tell which questions a walk puts to the client and which calls of the
    handler it makes, the state is paired with a list of events: a client
    that is observed appends each of its answers, a handler that records
    appends each call, and neither sees the list. *)

Inductive walk_event : Type :=
  | probed (dev type : string) (resp : CantIdDevResp)
  | handled (dev type : string) (i : Z).

Definition recording {W : Type}
    (handleDevF : string -> string -> Z -> W * glog -> W * glog)
    : string -> string -> Z -> (W * list walk_event) * glog
      -> (W * list walk_event) * glog :=
  fun dev type i st =>
    let '(w, log) := handleDevF dev type i (st.1.1, st.2) in
    ((w, st.1.2 ++ [handled dev type i]), log).

Definition observed {W : Type} (c : SmartClient W)
    : SmartClient (W * list walk_event) :=
  {| cantIdDev := fun dev type st =>
       let '(resp, w) := cantIdDev c dev type st.1 in
       (resp, (w, st.2 ++ [probed dev type resp])) |}.

(** An answer that identifies the device: no error, and nothing that keeps
    the client from identifying it. *)
Definition identifies (resp : CantIdDevResp) : bool :=
  match cant_err resp with
  | NOERR => negb (cant_content resp)
  | ctl_failure _ => false
  end.

(** The events of one id: the question, and the call of the handler when
    the answer identifies the device. *)
Definition id_events (dev prefix : string) (i : Z) (resp : CantIdDevResp)
    : list walk_event :=
  probed dev (prefix +:+ to_string i) resp ::
  (if identifies resp then [handled dev (prefix +:+ to_string i) i] else []).

(** The events of one type, whose ids 0, ..., maxID get the answers
    [resps]. *)
Definition type_events (dev : string) (type : explicitDevice)
    (resps : list CantIdDevResp) : list walk_event :=
  concat (zip_with (id_events dev (driver type)) (seqZ 0 (maxID type + 1)) resps).

(** The events of one device: the types are tried in their order, every id
    of a type, up to and with the first type that has an answer that
    identifies the device; when no type has one, the handler is called for
    automatic detection. *)
Inductive device_events (dev : string)
    : list explicitDevice -> list walk_event -> Prop :=
  | events_auto : device_events dev [] [handled dev "" (-1)]
  | events_hit (type : explicitDevice) (types : list explicitDevice)
      (resps : list CantIdDevResp) :
      length resps = Z.to_nat (maxID type + 1) ->
      existsb identifies resps = true ->
      device_events dev (type :: types) (type_events dev type resps)
  | events_miss (type : explicitDevice) (types : list explicitDevice)
      (resps : list CantIdDevResp) (events : list walk_event) :
      length resps = Z.to_nat (maxID type + 1) ->
      existsb identifies resps = false ->
      device_events dev types events ->
      device_events dev (type :: types) (type_events dev type resps ++ events).

(** * Properties *)

(** ** Strings *)

Section StringFacts.

Implicit Types (s t : string) (a c : ascii) (n : N).

Lemma size_String a s : Str.size (String a s) = N.succ (Str.size s).
Proof. unfold Str.size. cbn [String.length]. lia. Qed.

Lemma take_0 s : Str.take 0 s = "".
Proof. by destruct s. Qed.

Lemma drop_0 s : Str.drop 0 s = s.
Proof. by destruct s. Qed.

Lemma take_succ n a s : Str.take (N.succ n) (String a s) = String a (Str.take n s).
Proof.
  cbn [Str.take]. destruct (N.eqb_spec (N.succ n) 0); [lia|].
  by rewrite N.pred_succ.
Qed.

Lemma drop_succ n a s : Str.drop (N.succ n) (String a s) = Str.drop n s.
Proof.
  cbn [Str.drop]. destruct (N.eqb_spec (N.succ n) 0); [lia|].
  by rewrite N.pred_succ.
Qed.

Lemma take_all s n : (Str.size s <= n)%N -> Str.take n s = s.
Proof.
  revert n. induction s as [|a s IH]; intros n Hn; [done|].
  rewrite size_String in Hn.
  replace n with (N.succ (N.pred n)) by lia.
  rewrite take_succ, IH; [done | lia].
Qed.

Lemma erase_front s n : Str.erase s 0 (Some n) = Str.drop n s.
Proof. unfold Str.erase. by rewrite take_0, N.add_0_l. Qed.

(** A string with a character other than [c] has a first and a last one. *)
Lemma find_first_last s c first :
  Str.find_first_not_of s c = Some first ->
  exists last, Str.find_last_not_of s c = Some last /\
               (first <= last)%N /\ (last < Str.size s)%N.
Proof.
  revert first. induction s as [|a s IH]; intros first; [done|].
  cbn [Str.find_first_not_of Str.find_last_not_of]. rewrite size_String.
  destruct (Ascii.eqb a c) eqn:Hac.
  - destruct (Str.find_first_not_of s c) as [f|] eqn:Hf; [|done].
    intros [= <-]. destruct (IH f eq_refl) as (l & -> & ? & ?).
    exists (N.succ l). split; [done | lia].
  - intros [= <-]. destruct (Str.find_last_not_of s c) as [l|] eqn:Hl.
    + exists (N.succ l). split; [done|].
      assert (l < Str.size s)%N; [|lia].
      clear -Hl. revert l Hl. induction s as [|b s IH]; intros l; [done|].
      cbn [Str.find_last_not_of]. rewrite size_String.
      destruct (Str.find_last_not_of s c) as [i|].
      * intros [= <-]. specialize (IH i eq_refl). lia.
      * destruct (Ascii.eqb b c); [done|]. intros [= <-]. lia.
    + exists 0%N. split; [done | lia].
Qed.

(** Both calls of [erase] in [trimStr] are in range, so neither throws. *)
Lemma trimStr_erase_in_range s c first last :
  Str.find_first_not_of s c = Some first ->
  Str.find_last_not_of s c = Some last ->
  (last + 1 <= Str.size s)%N /\ (0 <= Str.size s)%N.
Proof.
  intros Hf Hl. destruct (find_first_last _ _ _ Hf) as (l & Hl' & ? & ?).
  rewrite Hl in Hl'. injection Hl' as ->. lia.
Qed.

(** What [trimStr] computes on a string with a character other than [c]. *)
Lemma trimStr_unfold s c first last :
  Str.find_first_not_of s c = Some first ->
  Str.find_last_not_of s c = Some last ->
  trimStr s c = Str.drop first (Str.take (last + 1) s).
Proof.
  intros Hf Hl. unfold trimStr. rewrite Hf, Hl, erase_front.
  destruct (N.ltb_spec last (Str.size s - 1)); [done|].
  rewrite take_all; [done | lia].
Qed.

(** Leading occurrences of [c] do not matter. *)
Lemma trimStr_skip s c first :
  Str.find_first_not_of s c = Some first ->
  trimStr (String c s) c = trimStr s c.
Proof.
  intros Hf. destruct (find_first_last _ _ _ Hf) as (l & Hl & ? & ?).
  rewrite (trimStr_unfold s c first l) by done.
  rewrite (trimStr_unfold (String c s) c (N.succ first) (N.succ l)).
  - by rewrite N.add_succ_l, take_succ, drop_succ.
  - cbn [Str.find_first_not_of]. by rewrite Ascii.eqb_refl, Hf.
  - cbn [Str.find_last_not_of]. by rewrite Hl.
Qed.

(** A prefix that ends at the last character other than [c]. *)
Lemma take_to_last s c last :
  Str.find_last_not_of s c = Some last ->
  Str.find_last_not_of (Str.take (last + 1) s) c = Some last /\
  Str.size (Str.take (last + 1) s) = (last + 1)%N.
Proof.
  revert last. induction s as [|a s IH]; intros last; [done|].
  cbn [Str.find_last_not_of].
  destruct (Str.find_last_not_of s c) as [i|] eqn:Hi.
  - intros [= <-]. destruct (IH i eq_refl) as [IH1 IH2].
    rewrite N.add_succ_l, take_succ, size_String, IH2.
    cbn [Str.find_last_not_of]. by rewrite IH1.
  - destruct (Ascii.eqb a c) eqn:Hac; [done|]. intros [= <-].
    change (0 + 1)%N with (N.succ 0). rewrite take_succ, take_0.
    cbn [Str.find_last_not_of]. by rewrite Hac.
Qed.

Lemma trimStr_trimmed s c first :
  Str.find_first_not_of s c = Some first -> trimmed c (trimStr s c).
Proof.
  revert first. induction s as [|a s IH]; intros first; [done|].
  cbn [Str.find_first_not_of]. destruct (Ascii.eqb a c) eqn:Hac.
  - apply Ascii.eqb_eq in Hac as ->.
    destruct (Str.find_first_not_of s c) as [f|] eqn:Hf; [|done].
    intros _. rewrite (trimStr_skip s c f) by done. by eapply IH.
  - intros [= <-].
    assert (Hf : Str.find_first_not_of (String a s) c = Some 0%N).
    { cbn [Str.find_first_not_of]. by rewrite Hac. }
    destruct (find_first_last _ _ _ Hf) as (l & Hl & ? & ?).
    rewrite (trimStr_unfold _ c 0 l), drop_0 by done.
    destruct (take_to_last _ _ _ Hl) as [H1 H2]. split.
    + replace (l + 1)%N with (N.succ l) by lia. rewrite take_succ.
      cbn [Str.find_first_not_of]. by rewrite Hac.
    + rewrite H1, H2. f_equal. lia.
Qed.

Lemma trimStr_of_trimmed c t : trimmed c t -> trimStr t c = t.
Proof.
  intros [Hf Hl]. rewrite (trimStr_unfold t c 0 (Str.size t - 1)) by done.
  rewrite drop_0. apply take_all. lia.
Qed.

End StringFacts.

(** C10.  [trimStr] is idempotent: trimming a trimmed string changes
    nothing.  A string that consists of the trim character alone (the empty
    string included) is returned as it is, not emptied. *)
Theorem trimStr_idempotent (s : string) (c : ascii) :
  trimStr (trimStr s c) c = trimStr s c /\
  forall n : nat, trimStr (repeat_char n c) c = repeat_char n c.
Proof.
  split.
  - destruct (Str.find_first_not_of s c) as [first|] eqn:Hf.
    + apply trimStr_of_trimmed. by eapply trimStr_trimmed.
    + unfold trimStr at 2. rewrite Hf. unfold trimStr. by rewrite Hf.
  - intros n. unfold trimStr.
    assert (Str.find_first_not_of (repeat_char n c) c = None) as ->; [|done].
    induction n as [|n IH]; [done|].
    cbn [repeat_char Str.find_first_not_of]. by rewrite Ascii.eqb_refl, IH.
Qed.

Example trimStr_ex1 : trimStr "  a b  " space = "a b".
Proof. reflexivity. Qed.

Example trimStr_ex2 : trimStr "   " space = "   ".
Proof. reflexivity. Qed.

(** ** std::to_string and std::stoi are inverse on int *)

Section Decimal.

Lemma digit_cases (d : Z) :
  0 <= d < 10 ->
  d = 0 \/ d = 1 \/ d = 2 \/ d = 3 \/ d = 4 \/ d = 5 \/ d = 6 \/ d = 7 \/
  d = 8 \/ d = 9.
Proof. lia. Qed.

Ltac each_digit d H :=
  destruct (digit_cases d H) as [->|[->|[->|[->|[->|[->|[->|[->|[->| ->]]]]]]]]].

Lemma digit_char_val (d : Z) :
  0 <= d < 10 -> is_digit (digit_char d) = true /\ digit_val (digit_char d) = d.
Proof. intros H. each_digit d H; by vm_compute. Qed.

Lemma digits_value_digit (acc d : Z) (rest : string) :
  0 <= d < 10 ->
  digits_value acc (String (digit_char d) rest) = digits_value (acc * 10 + d) rest.
Proof.
  intros H. destruct (digit_char_val d H) as [H1 H2].
  cbn [digits_value]. by rewrite H1, H2.
Qed.

Lemma print_digits_value (fuel : nat) (n : Z) (rest : string) (acc : Z) :
  0 <= n ->
  digits_value acc (print_digits fuel n rest)
  = digits_value (shift_digits fuel acc n) rest.
Proof.
  revert n rest. induction fuel as [|f IH]; intros n rest Hn; [done|].
  cbn [print_digits shift_digits].
  pose proof (Z.mod_pos_bound n 10 eq_refl) as Hd.
  destruct (Z.ltb_spec n 10).
  - rewrite digits_value_digit by done. by rewrite Z.mod_small by lia.
  - rewrite IH by (apply Z.div_pos; lia). by rewrite digits_value_digit.
Qed.

Lemma shift_digits_0 (fuel : nat) (n : Z) :
  0 <= n < 10 ^ Z.of_nat fuel -> shift_digits fuel 0 n = n.
Proof.
  revert n. induction fuel as [|f IH]; intros n Hn.
  - cbn in *. lia.
  - cbn [shift_digits]. destruct (Z.ltb_spec n 10); [lia|].
    rewrite IH.
    + pose proof (Z.div_mod n 10). lia.
    + rewrite Nat2Z.inj_succ, Z.pow_succ_r in Hn by lia.
      split; [apply Z.div_pos; lia|].
      apply Z.div_lt_upper_bound; lia.
Qed.

Lemma print_digits_head (f : nat) (n : Z) (rest : string) :
  exists d t, 0 <= d < 10 /\ print_digits (S f) n rest = String (digit_char d) t.
Proof.
  revert n rest. induction f as [|f IH]; intros n rest.
  - exists (n mod 10), rest. split; [by apply Z.mod_pos_bound|].
    cbn [print_digits]. by destruct (n <? 10).
  - change (print_digits (S (S f)) n rest)
      with (let rest' := String (digit_char (n mod 10)) rest in
            if n <? 10 then rest' else print_digits (S f) (n / 10) rest').
    cbn zeta. destruct (n <? 10); [|by apply IH].
    exists (n mod 10), rest. split; [by apply Z.mod_pos_bound | done].
Qed.

Lemma enough_digits (m : Z) :
  0 <= m -> m < 10 ^ Z.of_nat (S (Z.to_nat (Z.log2 m))).
Proof.
  intros Hm. rewrite Nat2Z.inj_succ, Z2Nat.id by apply Z.log2_nonneg.
  destruct (Z.eq_dec m 0) as [->|].
  - by vm_compute.
  - pose proof (Z.log2_spec m ltac:(lia)) as [_ H].
    eapply Z.lt_le_trans; [exact H|].
    apply Z.pow_le_mono_l. lia.
Qed.

Lemma stoi_digits (d : Z) (t : string) :
  0 <= d < 10 ->
  stoi (String (digit_char d) t)
  = let m := digits_value 0 (String (digit_char d) t) in
    if in_int m then Ok m else Throw out_of_range.
Proof. intros H. each_digit d H; reflexivity. Qed.

Lemma stoi_minus_digits (d : Z) (t : string) :
  0 <= d < 10 ->
  stoi (String "-" (String (digit_char d) t))
  = let m := digits_value 0 (String (digit_char d) t) in
    if in_int (- m) then Ok (- m) else Throw out_of_range.
Proof. intros H. each_digit d H; reflexivity. Qed.

(** Reading back what [std::to_string] printed from an [int]. *)
Lemma stoi_to_string (z : Z) : in_int z = true -> stoi (to_string z) = Ok z.
Proof.
  intros Hz. unfold to_string.
  set (f := Z.to_nat (Z.log2 (Z.abs z))).
  destruct (print_digits_head f (Z.abs z) "") as (d & t & Hd & Hp).
  assert (Hv : digits_value 0 (print_digits (S f) (Z.abs z) "") = Z.abs z).
  { rewrite print_digits_value by lia. cbn [digits_value].
    apply shift_digits_0. split; [lia|]. apply enough_digits. lia. }
  rewrite Hp in *. destruct (Z.ltb_spec z 0).
  - rewrite stoi_minus_digits by done. cbn zeta. rewrite Hv.
    replace (- Z.abs z) with z by lia. by rewrite Hz.
  - rewrite stoi_digits by done. cbn zeta. rewrite Hv.
    replace (Z.abs z) with z by lia. by rewrite Hz.
Qed.

Lemma stoi_int (i : int) : stoi (to_string i) = Ok (int_val i).
Proof. apply stoi_to_string, Is_true_true, int_fits. Qed.

End Decimal.

(** ** The disk state decoder *)

Lemma getDiskStateStr_recovering (h : md_p_h) : getDiskStateStr h 0 = "recovering".
Proof. reflexivity. Qed.

(** [(1 << k) & 1] is zero unless [k] is zero. *)
Lemma shl_and_one (k : Z) : k <> 0 -> shl_and k 1 = false.
Proof.
  intros Hk. unfold shl_and.
  assert (Z.land (Z.shiftl 1 k) 1 = 0) as ->; [|done].
  apply Z.bits_inj'. intros n Hn.
  rewrite Z.land_spec, Z.bits_0, Z.shiftl_spec by done.
  destruct (Z.eq_dec n 0) as [->|Hn0].
  - rewrite Z.sub_0_l. destruct (Z.lt_ge_cases k 0).
    + rewrite (Z.bits_above_log2 1 (- k)); [done | lia | cbn; lia].
    + by rewrite Z.testbit_neg_r by lia.
  - rewrite (Z.bits_above_log2 1 n); [by rewrite andb_false_r | lia | cbn; lia].
Qed.

(** Whatever bit a header gives the flag (bit 0 is MD_DISK_FAULTY), the
    cluster-add test is dead code: the decoder is the one of a header
    without the flag. *)
Lemma getDiskStateStr_cluster_add_dead (h : md_p_h) (k state : Z) :
  MD_DISK_CLUSTER_ADD h = Some k -> k <> 0 ->
  getDiskStateStr h state = getDiskStateStr (without_cluster_add h) state.
Proof.
  intros Hflag Hk. unfold getDiskStateStr. rewrite Hflag.
  cbn [append_ifdef without_cluster_add MD_DISK_CLUSTER_ADD MD_DISK_FAULTY
       MD_DISK_ACTIVE MD_DISK_SYNC MD_DISK_REMOVED MD_DISK_WRITEMOSTLY
       MD_DISK_FAILFAST MD_DISK_JOURNAL MD_DISK_CANDIDATE].
  by rewrite (shl_and_one k Hk).
Qed.

(** On a state without the cluster-add bit the decoder is the specified
    one. *)
Lemma getDiskStateStr_agrees (state : Z) :
  shl_and 4 state = false ->
  getDiskStateStr linux_md_p state = getDiskStateStr_spec linux_md_p state.
Proof.
  intros H. unfold getDiskStateStr, getDiskStateStr_spec.
  cbn [MD_DISK_CLUSTER_ADD linux_md_p append_ifdef]. rewrite H.
  reflexivity.
Qed.

(** C4.  The decoder at the state with only the CLUSTER_ADD bit (bit 4 of the
    Linux header) set: line 275 tests [(1 << MD_DISK_CLUSTER_ADD) & 1], not
    [& state], so "clusteradd" is not reported, where the decoder of the
    specification reports it; under this header the flag is never reported. *)
Theorem getDiskStateStr_cluster_add_lost :
  getDiskStateStr linux_md_p 16 = "" /\
  getDiskStateStr_spec linux_md_p 16 = "clusteradd" /\
  forall state : Z,
    getDiskStateStr linux_md_p state
    = getDiskStateStr (without_cluster_add linux_md_p) state.
Proof. repeat split. Qed.

Example getDiskStateStr_ex :
  getDiskStateStr linux_md_p 6 = "active sync" /\
  getDiskStateStr linux_md_p 1 = "faulty" /\
  getDiskStateStr linux_md_p 8 = "removed" /\
  getDiskStateStr linux_md_p 1570 = "active writemostly failfast spare".
Proof. repeat split. Qed.

(** ** The status parser *)

(** An md line that [split] cannot cut at a colon stops the cursor. *)
Lemma md_block_continue (lines : list string) (n : N) (line : string)
    (result : MDStat.t) (log : glog) :
  (vsize (split_occ line ":" 1) <? 2)%N = true ->
  md_block lines n line result log
  = Ok ((n, result),
        LOG WARNING ("Unexpected md device line structure: " +:+ line) log).
Proof. intros H. unfold md_block. by rewrite H. Qed.

Lemma parse_loop_stuck (fuel : nat) (lines : list string) (n : N)
    (line : string) (result : MDStat.t) (log : glog) :
  lines !! N.to_nat n = Some line ->
  Str.substr line 0 (Some 2%N) = Ok "md" ->
  (vsize (split_occ line ":" 1) <? 2)%N = true ->
  parse_loop fuel lines n result log = None.
Proof.
  intros Hl Hmd Hsplit. revert log.
  assert (Hn : (n <? vsize lines)%N = true).
  { apply N.ltb_lt. apply lookup_lt_Some in Hl. unfold vsize. lia. }
  induction fuel as [|fuel IH]; intros log; cbn [parse_loop]; rewrite Hn; [done|].
  assert (parse_line lines n result log
          = Ok ((n, result),
                LOG WARNING ("Unexpected md device line structure: " +:+ line) log))
    as ->; [|apply IH].
  unfold parse_line, at_. rewrite Hl. unfold mbind, M_bind, lift at 1.
  rewrite Hmd. cbn [lift]. change (String.eqb "md" "md") with true. cbn match.
  by apply md_block_continue.
Qed.

(** Every round but the one at such a line advances the cursor. *)
Lemma continuation_cursor (rest : list string) (n n' : N) (mdd mdd' : MDDevice.t) :
  continuation rest n mdd = Ok (n', mdd') -> (n <= n')%N.
Proof.
  revert n mdd. induction rest as [|line rest IH]; intros n mdd; [done|].
  cbn [continuation]. unfold mbind, outcome_bind.
  repeat match goal with
         | |- context [match ?x with _ => _ end] => destruct x; try done
         end;
    try (intros H%IH; lia).
  intros [= <- _]. lia.
Qed.

Lemma lift_Ok {St A : Type} (o : outcome A) (st st' : St) (a : A) :
  lift o st = Ok (a, st') -> o = Ok a /\ st' = st.
Proof. unfold lift. destruct o; [|done..]. by intros [= -> ->]. Qed.

Ltac case_bind H :=
  match type of H with
  | context [match ?x with _ => _ end] => destruct x eqn:?; try done
  end.

Lemma md_block_cursor (lines : list string) (n n' : N) (line : string)
    (result result' : MDStat.t) (log log' : glog) :
  (vsize (split_occ line ":" 1) <? 2)%N = false ->
  md_block lines n line result log = Ok ((n', result'), log') -> (n < n')%N.
Proof.
  intros Hsplit. unfold md_block. rewrite Hsplit.
  unfold mbind, M_bind, mret, M_ret. intros H.
  repeat case_bind H.
  injection H as <- _ _.
  match goal with
  | Hc : lift (continuation _ _ _) _ = Ok _ |- _ =>
      apply lift_Ok in Hc as [Hc%continuation_cursor _]; lia
  end.
Qed.

Lemma parse_line_cursor (lines : list string) (n n' : N) (line : string)
    (result result' : MDStat.t) (log log' : glog) :
  lines !! N.to_nat n = Some line ->
  md_line_without_colon line = false ->
  parse_line lines n result log = Ok ((n', result'), log') -> (n < n')%N.
Proof.
  intros Hline Hmd. unfold parse_line, at_. rewrite Hline.
  unfold md_line_without_colon in Hmd.
  unfold mbind, M_bind. cbn [lift].
  destruct (Str.substr line 0 (Some 2%N)) as [firstTwo| |]; [|done..].
  cbn [lift].
  destruct (String.eqb firstTwo "md").
  - cbn [andb] in Hmd. by apply md_block_cursor.
  - destruct (String.eqb firstTwo "un").
    + unfold mret, M_ret. intros H. repeat case_bind H.
      injection H as <- _ _. lia.
    + unfold log_msg, mret, M_ret. intros [= <- _ _]. lia.
Qed.

(** Without such a line the loop ends within as many rounds as there are
    lines left. *)
Lemma parse_loop_bounded (fuel : nat) (lines : list string) (n : N)
    (result : MDStat.t) (log : glog) :
  Forall (fun line => md_line_without_colon line = false) lines ->
  (vsize lines - n <= N.of_nat fuel)%N ->
  is_Some (parse_loop fuel lines n result log).
Proof.
  intros Hlines. revert n result log.
  induction fuel as [|fuel IH]; intros n result log Hfuel; cbn [parse_loop];
    destruct (N.ltb_spec n (vsize lines)) as [Hn|Hn]; try done; [lia|].
  destruct (lookup_lt_is_Some_2 lines (N.to_nat n)) as [line Hline].
  { unfold vsize in Hn. lia. }
  destruct (parse_line lines n result log) as [[[n' result'] log']| |] eqn:Hstep;
    [|done..].
  apply IH. eapply parse_line_cursor in Hstep; [|done|].
  - lia.
  - by eapply Forall_lookup_1 in Hlines.
Qed.

(** C3.  On the lines "Personalities : [raid1]", "md0" the round at the md
    line ends with the cursor where it was (line 380 is a [continue] that
    skips [n += 1]), and the loop is still running after any number of
    rounds: the scan is not bounded by the number of lines. *)
Theorem parseMDStat_md_line_without_colon_spins :
  (forall (result : MDStat.t) (log : glog),
     exists log', parse_line ["Personalities : [raid1]"; "md0"] 1 result log
                  = Ok ((1%N, result), log')) /\
  forall fuel : nat,
    parseMDStat fuel ["Personalities : [raid1]"; "md0"] MDStat.empty [] = None.
Proof.
  split.
  - intros result log. eexists. reflexivity.
  - intros fuel. unfold parseMDStat.
    change (Str.find "Personalities : [raid1]" "Personalities :") with (Some 0%N).
    change (Str.substr "Personalities : [raid1]" (marker_len "Personalities :") None)
      with (Ok (A := string) " [raid1]").
    cbn match. by eapply (parse_loop_stuck fuel _ 1 "md0").
Qed.

(** A drive token without one of the brackets is the case that is logged:
    the name is kept and the position is 0. *)
Lemma parseMDDrive_no_bracket (name : string) (log : glog) :
  Str.find_char name "[" = None \/ Str.find_char name "]" = None ->
  parseMDDrive name log
  = Ok (MDDrive.mk name 0,
        LOG WARNING ("Unexpected drive name format: " +:+ name) log).
Proof.
  intros H. unfold parseMDDrive.
  destruct (Str.find_char name "[") as [start|], (Str.find_char name "]") as [end_|];
    destruct H as [H|H]; done.
Qed.

(** A line that starts with "un" and is shorter than "unused devices:" makes
    line 463 throw. *)
Lemma parse_line_short_un (lines : list string) (n : N) (line : string)
    (result : MDStat.t) (log : glog) :
  lines !! N.to_nat n = Some line ->
  Str.substr line 0 (Some 2%N) = Ok "un" ->
  (Str.size line < 15)%N ->
  parse_line lines n result log = Throw out_of_range.
Proof.
  intros Hline Hun Hshort. unfold parse_line, at_. rewrite Hline.
  unfold mbind, M_bind. cbn [lift]. rewrite Hun. cbn [lift].
  change (String.eqb "un" "md") with false.
  change (String.eqb "un" "un") with true. cbn match.
  unfold Str.substr. change (marker_len "unused devices:") with 15%N.
  by destruct (N.leb_spec 15 (Str.size line)); [lia|].
Qed.

(** C2.  Inputs on which the parser does not degrade to a warning: a short
    "un" line makes [substr] throw [std::out_of_range] (line 463), a bracketed
    drive token without digits makes [std::stoi] throw
    [std::invalid_argument] (line 348), and an md line that ends the input
    makes line 401 read [lines[n + 1]] past the end of the vector. *)
Theorem parseMDStat_raises :
  (forall fuel : nat,
     parseMDStat (S fuel) ["Personalities : [raid1]"; "unused"] MDStat.empty []
     = Some (Throw out_of_range)) /\
  parseMDDrive "sda[x]" [] = Throw invalid_argument /\
  (forall fuel : nat,
     parseMDStat (S fuel)
       [ "Personalities : [raid1]"; "md0 : active raid1 sdb1[1] sda[x]";
         "104320 blocks [2/2] [UU]"; "unused devices: <none>" ] MDStat.empty []
     = Some (Throw invalid_argument)) /\
  (forall fuel : nat,
     parseMDStat (S fuel)
       [ "Personalities : [raid1]"; "md0 : active raid1 sdb1[1] sda1[0]" ]
       MDStat.empty []
     = Some Undefined).
Proof. repeat split. Qed.

(** C9.  On the four lines of the fixture the parser reads [lines[4]], past
    the end of the vector, once it has consumed the recovery line (line 423):
    the continuation loop entered at the recovery line has no defined
    outcome, whatever the cursor and the device, and no report is produced.
    Followed by the "unused devices" line the same fixture parses, without a
    warning, to the report with every field of the array as in the text. *)
Theorem parseMDStat_fixture :
  (forall (n : N) (mdd : MDDevice.t),
     continuation (drop 3 fixture) n mdd = Undefined) /\
  (forall fuel : nat,
     parseMDStat (S fuel) fixture MDStat.empty [] = Some Undefined) /\
  (forall fuel : nat,
     parseMDStat (S (S fuel)) (fixture ++ ["unused devices: <none>"])
       MDStat.empty []
     = Some (Ok (MDStat.mk " [raid1] [raid6] [raid5] [raid4]" [fixture_device]
                   " <none>", []))).
Proof.
  split; [|split].
  - intros n mdd. reflexivity.
  - intros fuel. reflexivity.
  - intros fuel. by destruct fuel.
Qed.

(** ** The slot reconciler *)

Section SlotLists.

Implicit Types (zs : list Z) (s z : Z) (j : nat).

Lemma last_negative_Some zs j :
  last_negative zs = Some j ->
  (exists z, zs !! j = Some z /\ z < 0) /\
  forall k z, (j < k)%nat -> zs !! k = Some z -> 0 <= z.
Proof.
  revert j. induction zs as [|z0 zs IH]; intros j; [done|].
  cbn [last_negative]. destruct (last_negative zs) as [j'|] eqn:Hj.
  - intros [= <-]. destruct (IH j' eq_refl) as [IH1 IH2]. split; [done|].
    intros [|k] z Hk; [lia|]. cbn. apply IH2. lia.
  - destruct (Z.ltb_spec z0 0); [|done]. intros [= <-]. split; [by exists z0|].
    intros [|k] z Hk Hz; [lia|]. cbn in Hz.
    destruct (Z.ltb_spec z 0) as [Hneg|]; [|done]. exfalso.
    clear -Hj Hz Hneg. revert k Hz.
    induction zs as [|z1 zs IH]; intros k Hz; [done|].
    cbn [last_negative] in Hj. destruct (last_negative zs); [done|].
    destruct (Z.ltb_spec z1 0); [done|].
    destruct k as [|k]; cbn in Hz; [simplify_eq; lia | by eapply IH].
Qed.

Lemma last_negative_None zs :
  last_negative zs = None <-> forall z, z ∈ zs -> 0 <= z.
Proof.
  induction zs as [|z0 zs IH]; cbn [last_negative].
  - split; [|done]. intros _ z Hz. by apply elem_of_nil in Hz.
  - destruct (last_negative zs) as [j|] eqn:Hj.
    + split; [done|]. intros H.
      assert (Some j = None) as [=]. apply IH. intros z Hz. apply H. by right.
    + destruct (Z.ltb_spec z0 0) as [Hz0|Hz0].
      * split; [done|]. intros H. specialize (H z0 ltac:(left)). lia.
      * split; [|done]. intros _ z [->|Hz]%elem_of_cons; [done|]. by apply IH.
Qed.

(** The last negative slot is unique: the index the definition of
    last-seen-wins singles out. *)
Lemma last_negative_unique zs j z :
  zs !! j = Some z -> z < 0 ->
  (forall k z', (j < k)%nat -> zs !! k = Some z' -> 0 <= z') ->
  last_negative zs = Some j.
Proof.
  intros Hj Hz Hlast. destruct (last_negative zs) as [j'|] eqn:Hj'.
  - destruct (last_negative_Some _ _ Hj') as [(z' & Hz' & Hneg) Hlast'].
    f_equal. destruct (Nat.lt_trichotomy j j') as [?|[?|?]]; [|done|].
    + specialize (Hlast j' z' ltac:(done) Hz'). lia.
    + specialize (Hlast' j z ltac:(done) Hj). lia.
  - pose proof (proj1 (last_negative_None zs) Hj' z) as H.
    specialize (H ltac:(by eapply list_elem_of_lookup_2)). lia.
Qed.

(** Once a slot is carried it stays carried. *)
Lemma resolved_keeps zs s t : 0 <= t -> t ∈ zs -> t ∈ resolved zs s.
Proof.
  intros Ht Hin. unfold resolved. destruct (decide (s ∈ zs)); [done|].
  destruct (last_negative zs) as [j|] eqn:Hj.
  - destruct (last_negative_Some _ _ Hj) as [(z & Hz & Hneg) _].
    apply list_elem_of_lookup in Hin as [i Hi].
    apply list_elem_of_lookup. exists i.
    rewrite list_lookup_insert_ne; [done|]. intros ->. simplify_eq. lia.
  - apply elem_of_app. by left.
Qed.

Lemma resolved_carries zs s : s ∈ resolved zs s.
Proof.
  unfold resolved. destruct (decide (s ∈ zs)); [done|].
  destruct (last_negative zs) as [j|] eqn:Hj.
  - destruct (last_negative_Some _ _ Hj) as [(z & Hz & _) _].
    apply list_elem_of_insert. by eapply lookup_lt_Some.
  - apply elem_of_app. right. by apply list_elem_of_singleton.
Qed.

End SlotLists.

Section SlotInvariants.

Implicit Types (zs : list Z) (s z k N : Z).

Lemma resolved_tidy N zs s :
  0 <= s < N -> tidy N zs -> tidy N (resolved zs s).
Proof.
  intros Hs (Hlen & Hlt & Hinj). unfold resolved.
  destruct (decide (s ∈ zs)) as [|Hnot]; [done|].
  destruct (last_negative zs) as [j|] eqn:Hj.
  - repeat split.
    + by rewrite length_insert.
    + intros z [i Hi]%list_elem_of_lookup.
      apply list_lookup_insert_Some in Hi as [(_ & <- & _)|[_ Hi]]; [lia|].
      apply Hlt. by eapply list_elem_of_lookup_2.
    + intros i1 i2 z H1 H2 Hz.
      apply list_lookup_insert_Some in H1 as [(<- & <- & _)|[Hne1 H1]];
        apply list_lookup_insert_Some in H2 as [(<- & Heq & _)|[Hne2 H2]];
        try done.
      * exfalso. apply Hnot. by eapply list_elem_of_lookup_2.
      * subst z. exfalso. apply Hnot. by eapply list_elem_of_lookup_2.
      * by eapply Hinj.
  - pose proof (proj1 (last_negative_None zs) Hj) as Hpos.
    assert (Hnodup : NoDup (s :: zs)).
    { constructor; [done|]. apply NoDup_alt. intros i1 i2 z H1 H2.
      eapply Hinj; [done..|]. apply Hpos. by eapply list_elem_of_lookup_2. }
    assert (Hsub : s :: zs ⊆+ seqZ 0 N).
    { apply NoDup_submseteq; [done|]. intros z Hz. apply elem_of_seqZ.
      apply elem_of_cons in Hz as [->|Hz]; [lia|].
      specialize (Hpos z Hz). specialize (Hlt z Hz). lia. }
    apply submseteq_length in Hsub. rewrite length_seqZ in Hsub. cbn in Hsub.
    repeat split.
    + rewrite length_app. cbn. lia.
    + intros z [Hz| ->%list_elem_of_singleton]%elem_of_app; [by apply Hlt | lia].
    + intros i1 i2 z H1 H2 Hz.
      apply lookup_snoc_Some in H1 as [[Hl1 H1]|[-> <-]];
        apply lookup_snoc_Some in H2 as [[Hl2 H2]|[-> Heq]]; try done.
      * by eapply Hinj.
      * subst z. exfalso. apply Hnot. by eapply list_elem_of_lookup_2.
      * exfalso. apply Hnot. by eapply list_elem_of_lookup_2.
Qed.

Lemma resolved_covered zs k :
  0 <= k -> covered k zs -> covered (k + 1) (resolved zs k).
Proof.
  intros Hk Hcov t Ht. destruct (decide (t = k)) as [->|].
  - apply resolved_carries.
  - apply resolved_keeps; [lia|]. apply Hcov. lia.
Qed.

Lemma seqZ_succ k (m : nat) :
  seqZ k (Z.of_nat (S m)) = k :: seqZ (k + 1) (Z.of_nat m).
Proof.
  rewrite seqZ_cons by lia. f_equal. f_equal; lia.
Qed.

Lemma foldl_resolved_covered (m : nat) k zs :
  0 <= k -> covered k zs ->
  covered (k + Z.of_nat m) (foldl resolved zs (seqZ k (Z.of_nat m))).
Proof.
  revert k zs. induction m as [|m IH]; intros k zs Hk Hcov.
  - rewrite seqZ_nil by lia. cbn. by rewrite Z.add_0_r.
  - rewrite seqZ_succ. cbn [foldl].
    replace (k + Z.of_nat (S m)) with (k + 1 + Z.of_nat m) by lia.
    apply IH; [lia|]. by apply resolved_covered.
Qed.

Lemma foldl_resolved_tidy (m : nat) k N zs :
  0 <= k -> k + Z.of_nat m <= N -> tidy N zs ->
  tidy N (foldl resolved zs (seqZ k (Z.of_nat m))).
Proof.
  revert k zs. induction m as [|m IH]; intros k zs Hk HN Htidy.
  - by rewrite seqZ_nil by lia.
  - rewrite seqZ_succ. cbn [foldl]. apply IH; [lia..|].
    apply resolved_tidy; [lia | done].
Qed.

(** What the loop over all slots of the array reaches. *)
Lemma foldl_resolved_all N zs :
  let final := foldl resolved zs (seqZ 0 N) in
  covered N final /\
  (Z.to_nat N <= length final)%nat /\
  (tidy N zs -> final ≡ₚ seqZ 0 N).
Proof.
  intros final.
  assert (Hcov : covered N final).
  { destruct (Z.le_gt_cases 0 N) as [HN|HN].
    - subst final. rewrite <- (Z2Nat.id N) at 1 2 by done.
      rewrite <- (Z.add_0_l (Z.of_nat (Z.to_nat N))) at 1.
      apply foldl_resolved_covered; [done|]. intros t Ht. lia.
    - intros t Ht. lia. }
  assert (Hsub : seqZ 0 N ⊆+ final).
  { apply NoDup_submseteq; [apply NoDup_seqZ|].
    intros z Hz%elem_of_seqZ. apply Hcov. lia. }
  split; [done|]. split.
  - apply submseteq_length in Hsub. by rewrite length_seqZ in Hsub.
  - intros Htidy. symmetry. apply submseteq_length_Permutation; [done|].
    rewrite length_seqZ.
    destruct (Z.le_gt_cases 0 N) as [HN|HN].
    + assert (tidy N final) as (Hlen & _); [|done].
      subst final. rewrite <- (Z2Nat.id N) at 2 by done.
      apply foldl_resolved_tidy; [done | lia | done].
    + subst final. rewrite seqZ_nil by lia. cbn.
      destruct Htidy as (Hlen & _). done.
Qed.

End SlotInvariants.

Section RowFacts.

Implicit Types (r : Row) (temp rows : QueryData) (zs : list Z).

Lemma row_get_insert r key v : row_get (<[key:=v]> r) key = v.
Proof. unfold row_get. by rewrite lookup_insert_eq. Qed.

Lemma row_slot_insert r z :
  in_int z = true -> row_slot (<["slot" := to_string z]> r) = Ok z.
Proof. intros Hz. unfold row_slot. rewrite row_get_insert. by apply stoi_to_string. Qed.

Lemma placeholder_row_slot name z :
  in_int z = true -> row_slot (placeholder_row name z) = Ok z.
Proof. apply row_slot_insert. Qed.

(** The walk of lines 523-533 finds a carried slot. *)
Lemma carries_fmap temp zs : row_slot <$> temp = Ok <$> zs -> carries temp zs.
Proof.
  revert zs. induction temp as [|r temp IH]; intros [|z zs] H; try done.
  - constructor.
  - injection H as Hr Hrest. constructor; [done | by apply IH].
Qed.

(** The walk of lines 523-533 finds a carried slot. *)
Lemma find_slot_found slot rows zs i found soft :
  carries rows zs ->
  exists soft', find_slot slot rows i found soft
                = Ok (found || bool_decide (slot ∈ zs), soft').
Proof.
  intros Hc. revert i found soft.
  induction Hc as [|r z rows zs Hr _ IH]; intros i found soft.
  - exists soft. cbn. by rewrite orb_false_r.
  - cbn [find_slot]. rewrite Hr. cbn [mbind outcome_bind].
    destruct (Z.eqb_spec z slot) as [->|Hne].
    + destruct (IH (i + 1) true soft) as [soft' ->]. exists soft'.
      rewrite (bool_decide_true (slot ∈ slot :: zs)) by left.
      by rewrite orb_true_r.
    + assert (Hdec : bool_decide (slot ∈ z :: zs) = bool_decide (slot ∈ zs)).
      { apply bool_decide_ext. rewrite elem_of_cons.
        split; [intros [?|?]; [congruence | done] | by right]. }
      rewrite Hdec. destruct (z <? 0); apply IH.
Qed.

(** On a slot that no row carries it ends with the index of the last row
    whose slot is negative. *)
Lemma find_slot_missing slot rows zs i found soft :
  carries rows zs -> slot ∉ zs ->
  find_slot slot rows i found soft
  = Ok (found, match last_negative zs with
               | Some j => i + Z.of_nat j
               | None => soft
               end).
Proof.
  intros Hc. revert i found soft.
  induction Hc as [|r z rows zs Hr _ IH]; intros i found soft Hnot; [done|].
  apply not_elem_of_cons in Hnot as [Hne Hnot].
  cbn [find_slot last_negative]. rewrite Hr. cbn [mbind outcome_bind].
  destruct (Z.eqb_spec z slot) as [|_]; [done|].
  destruct (z <? 0); rewrite IH by done;
    destruct (last_negative zs); do 2 f_equal; lia.
Qed.

Lemma resolve_slot_spec name temp zs slot :
  carries temp zs ->
  resolve_slot name temp slot
  = Ok (if decide (slot ∈ zs) then temp
        else match last_negative zs with
             | Some j => alter (fun r : Row => <["slot" := to_string slot]> r) j temp
             | None => temp ++ [placeholder_row name slot]
             end).
Proof.
  intros Hc. unfold resolve_slot. destruct (decide (slot ∈ zs)) as [Hin|Hnot].
  - destruct (find_slot_found slot temp zs 0 false (-1) Hc) as [soft' ->].
    by rewrite bool_decide_true.
  - rewrite (find_slot_missing slot temp zs) by done.
    cbn [mbind outcome_bind negb].
    destruct (last_negative zs) as [j|]; [|done]. rewrite Z.add_0_l.
    destruct (Z.ltb_spec (-1) (Z.of_nat j)); [|lia]. by rewrite Nat2Z.id.
Qed.

Lemma resolve_slot_carries name temp zs slot :
  carries temp zs -> in_int slot = true ->
  exists temp', resolve_slot name temp slot = Ok temp' /\
                carries temp' (resolved zs slot).
Proof.
  intros Hc Hint. eexists. split; [by apply resolve_slot_spec|].
  unfold resolved. destruct (decide (slot ∈ zs)); [done|].
  destruct (last_negative zs) as [j|].
  - rewrite list_insert_alter. apply Forall2_alter; [done|].
    intros r z _ _ _. by apply row_slot_insert.
  - apply Forall2_app; [done|]. constructor; [|constructor].
    by apply placeholder_row_slot.
Qed.

Lemma resolve_slots_carries name temp zs slots :
  carries temp zs -> Forall (fun s => in_int s = true) slots ->
  exists temp', resolve_slots name temp slots = Ok temp' /\
                carries temp' (foldl resolved zs slots).
Proof.
  intros Hc Hint. revert temp zs Hc.
  induction Hint as [|s slots Hs _ IH]; intros temp zs Hc.
  - by exists temp.
  - cbn [resolve_slots foldl].
    destruct (resolve_slot_carries name temp zs s Hc Hs) as (temp1 & -> & Hc1).
    cbn [mbind outcome_bind]. by apply IH.
Qed.

Lemma slots_of_int (N : int) : Forall (fun s => in_int s = true) (seqZ 0 N).
Proof.
  apply Forall_forall. intros s Hs%elem_of_seqZ.
  pose proof (int_fits N) as HN. apply Is_true_true in HN.
  unfold in_int, INT_MIN, INT_MAX in *.
  apply andb_true_iff in HN as [_ HN%Z.leb_le].
  apply andb_true_iff. split; apply Z.leb_le; lia.
Qed.

End RowFacts.

Section ReconcilerFacts.

Context {W : Type}.
Variable hdr : md_p_h.
Variable md : MDInterface W.

Implicit Types (temp data : QueryData) (w : W) (log : glog).

Lemma drive_row_slot name dev array disk :
  row_slot (drive_row hdr name dev array disk) = Ok (provisional_slot array disk).
Proof.
  unfold drive_row, provisional_slot.
  destruct ((raid_disk disk <? 0) && (number disk <? raid_disks array));
    unfold row_slot; rewrite row_get_insert; apply stoi_int.
Qed.

Lemma scan_disk_carries name path array i temp w zs :
  carries temp zs ->
  exists zs', carries (scan_disk hdr md name path array i temp w).1 zs'.
Proof.
  intros Hc. unfold scan_disk.
  destruct (getDiskInfo md path (to_int (Z.of_nat i)) w) as [[disk|] w1];
    [|by exists zs].
  destruct (0 <? major disk); [|by exists zs].
  destruct (getDevName md (major disk) (minor disk) w1) as [dev w2].
  exists (zs ++ [provisional_slot array disk]).
  apply Forall2_app; [done|]. constructor; [|constructor].
  apply drive_row_slot.
Qed.

Lemma scan_disks_carries name path array numbers temp w zs :
  carries temp zs ->
  exists zs', carries (scan_disks hdr md name path array numbers temp w).1 zs'.
Proof.
  revert temp w zs. induction numbers as [|i numbers IH]; intros temp w zs Hc.
  - by exists zs.
  - cbn [scan_disks].
    destruct (scan_disk_carries name path array i temp w zs Hc) as [zs1 Hc1].
    destruct (scan_disk hdr md name path array i temp w) as [temp1 w1].
    by eapply IH.
Qed.

Lemma scan_disks_no_live_disk name path array numbers temp w :
  no_live_disk md path numbers w ->
  (scan_disks hdr md name path array numbers temp w).1 = temp.
Proof.
  revert w. induction numbers as [|i numbers IH]; intros w Hno; [done|].
  cbn [scan_disks no_live_disk] in *. unfold scan_disk.
  destruct (getDiskInfo md path (to_int (Z.of_nat i)) w) as [[disk|] w1];
    [|by apply IH].
  destruct Hno as [Hmajor Hno].
  destruct (Z.ltb_spec 0 (major disk)); [lia | by apply IH].
Qed.

(** The call on an array whose path and disk count the driver gives. *)
Lemma getDrivesForArray_unfold name data w log path w1 array w2 :
  getPathByDevName md name w = (path, w1) ->
  path <> "" ->
  getArrayInfo md path w1 = (Some array, w2) ->
  let scan := scan_disks hdr md name path array (seq 0 (MD_SB_DISKS hdr)) [] w2 in
  getDrivesForArray hdr md name data (w, log)
  = match resolve_slots name scan.1 (seqZ 0 (raid_disks array)) with
    | Ok temp => Ok (data ++ temp, (scan.2, log))
    | Throw e => Throw e
    | Undefined => Undefined
    end.
Proof.
  intros Hpath Hne Harr scan. unfold getDrivesForArray. rewrite Hpath.
  destruct (String.eqb_spec path ""); [done|]. rewrite Harr.
  subst scan. by destruct (scan_disks _ _ _ _ _ _ _ _).
Qed.

Lemma resolve_slots_placeholders name (m : nat) (k : Z) :
  0 <= k -> k + Z.of_nat m <= INT_MAX + 1 ->
  resolve_slots name (placeholder_row name <$> seqZ 0 k) (seqZ k (Z.of_nat m))
  = Ok (placeholder_row name <$> seqZ 0 (k + Z.of_nat m)).
Proof.
  revert k. induction m as [|m IH]; intros k Hk Hmax.
  - change (Z.of_nat 0) with 0. rewrite (seqZ_nil k 0) by lia.
    cbn [resolve_slots]. by rewrite Z.add_0_r.
  - rewrite seqZ_succ. cbn [resolve_slots].
    rewrite (resolve_slot_spec name _ (seqZ 0 k)).
    + destruct (decide (k ∈ seqZ 0 k)) as [Hin%elem_of_seqZ|_]; [lia|].
      assert (last_negative (seqZ 0 k) = None) as ->.
      { apply last_negative_None. intros z Hz%elem_of_seqZ. lia. }
      cbn [mbind outcome_bind].
      assert (placeholder_row name <$> seqZ 0 (k + 1)
              = (placeholder_row name <$> seqZ 0 k) ++ [placeholder_row name k])
        as <-.
      { rewrite seqZ_app by lia. rewrite fmap_app. by f_equal. }
      rewrite IH by lia. do 3 f_equal. lia.
    + apply Forall2_fmap_l, Forall_Forall2_diag, Forall_forall.
      intros z Hz%elem_of_seqZ. apply placeholder_row_slot.
      unfold in_int, INT_MIN, INT_MAX in *.
      apply andb_true_iff; split; apply Z.leb_le; lia.
Qed.

End ReconcilerFacts.

Section ReconcilerClaims.

Context {W : Type}.
Variable hdr : md_p_h.
Variable md : MDInterface W.

(** One round of the scan: a disk that answers the query for slot number
    [i] with a positive major number, and leaves the number as the caller
    set it, adds one row to the scan.  The slot of the row is the slot
    the kernel reports when that is not negative; the queried number [i] when
    the reported slot is negative and [i] is below the disk count of the
    array; and otherwise the negative reported slot, with which the row is
    taken for the soft-removed candidate by the walk of any slot. *)
Theorem scan_disk_provisional_slot (name path : string) (array : mdu_array_info_t)
    (i : nat) (temp : QueryData) (w w1 : W) (disk : mdu_disk_info_t) :
  getDiskInfo md path (to_int (Z.of_nat i)) w = (Some disk, w1) ->
  0 < major disk ->
  int_val (number disk) = Z.of_nat i ->
  exists (r : Row) (w2 : W),
    scan_disk hdr md name path array i temp w = (temp ++ [r], w2) /\
    row_slot r
    = Ok (if 0 <=? raid_disk disk then int_val (raid_disk disk)
          else if Z.of_nat i <? raid_disks array then Z.of_nat i
          else int_val (raid_disk disk)) /\
    (raid_disk disk < 0 -> raid_disks array <= Z.of_nat i ->
     forall slot : Z, 0 <= slot -> find_slot slot [r] 0 false (-1) = Ok (false, 0)).
Proof.
  intros Hdisk Hmajor Hnumber. unfold scan_disk. rewrite Hdisk.
  destruct (Z.ltb_spec 0 (major disk)); [|lia].
  destruct (getDevName md (major disk) (minor disk) w1) as [dev w2].
  exists (drive_row hdr name dev array disk), w2.
  pose proof (drive_row_slot hdr name dev array disk) as Hslot.
  unfold provisional_slot in Hslot. rewrite Hnumber in Hslot.
  split; [done|]. split.
  - rewrite Hslot.
    destruct (Z.ltb_spec (raid_disk disk) 0), (Z.leb_spec 0 (raid_disk disk));
      try lia; cbn [andb]; [|done].
    by destruct (Z.of_nat i <? raid_disks array).
  - intros Hneg Hhigh slot Hslot0. cbn [find_slot]. rewrite Hslot.
    destruct (Z.ltb_spec (raid_disk disk) 0); [|lia].
    destruct (Z.ltb_spec (Z.of_nat i) (raid_disks array)); [lia|].
    cbn [andb mbind outcome_bind].
    destruct (Z.eqb_spec (raid_disk disk) slot); [lia|].
    by destruct (Z.ltb_spec (raid_disk disk) 0); [|lia].
Qed.

(** C7.  When the driver resolves no path for the array, or its array query
    fails, the call returns normally with the caller's rows as they were,
    and the pass over the arrays goes on from there with the arrays that
    follow. *)
Theorem getDrivesForArray_query_failure (name : string) (data : QueryData)
    (w w1 : W) (log : glog) (path : string) :
  getPathByDevName md name w = (path, w1) ->
  path = "" \/ (getArrayInfo md path w1).1 = None ->
  exists st' : W * glog,
    getDrivesForArray hdr md name data (w, log) = Ok (data, st') /\
    forall names : list string,
      drives_of_arrays hdr md (name :: names) data (w, log)
      = drives_of_arrays hdr md names data st'.
Proof.
  intros Hpath Hfail.
  assert (exists st', getDrivesForArray hdr md name data (w, log) = Ok (data, st'))
    as [st' Hcall].
  { unfold getDrivesForArray. rewrite Hpath.
    destruct (String.eqb_spec path "") as [_|Hne]; [by eexists|].
    destruct Hfail as [?|Hnone]; [done|].
    destruct (getArrayInfo md path w1) as [[array|] w2]; [done|]. by eexists. }
  exists st'. split; [done|]. intros names.
  cbn [drives_of_arrays]. unfold mbind, M_bind. by rewrite Hcall.
Qed.

(** C8.  When none of the disk queries of the scan yields a disk with a
    positive major number (each fails, or the disk has no device node), the
    call appends one placeholder row per slot of the array, in slot order: N rows,
    each with drive_name "unknown" and state "removed", with the slots
    0, ..., N-1. *)
Theorem getDrivesForArray_all_removed (name : string) (data : QueryData)
    (w w1 w2 : W) (log : glog) (path : string) (array : mdu_array_info_t) :
  getPathByDevName md name w = (path, w1) ->
  path <> "" ->
  getArrayInfo md path w1 = (Some array, w2) ->
  no_live_disk md path (seq 0 (MD_SB_DISKS hdr)) w2 ->
  exists (rows : QueryData) (st' : W * glog),
    getDrivesForArray hdr md name data (w, log) = Ok (data ++ rows, st') /\
    rows = placeholder_row name <$> seqZ 0 (raid_disks array) /\
    length rows = Z.to_nat (raid_disks array) /\
    Forall (fun r : Row => r !! "drive_name" = Some "unknown" /\
                           r !! "state" = Some "removed") rows /\
    carries rows (seqZ 0 (raid_disks array)).
Proof.
  intros Hpath Hne Harr Hno.
  pose proof (getDrivesForArray_unfold hdr md name data w log path w1 array w2
                Hpath Hne Harr) as Hcall. cbn zeta in Hcall.
  rewrite scan_disks_no_live_disk in Hcall by done.
  set (N := int_val (raid_disks array)) in *.
  pose proof (slots_of_int (raid_disks array)) as Hints. fold N in Hints.
  assert (Hfill : resolve_slots name [] (seqZ 0 N)
                  = Ok (placeholder_row name <$> seqZ 0 N)).
  { destruct (Z.le_gt_cases 0 N) as [HN|HN].
    - pose proof (resolve_slots_placeholders name (Z.to_nat N) 0) as H.
      rewrite Z2Nat.id, Z.add_0_l in H by done. apply H; [done|].
      pose proof (int_fits (raid_disks array)) as Hfit.
      apply Is_true_true, andb_true_iff in Hfit as [_ Hfit%Z.leb_le].
      fold N in Hfit. lia.
    - by rewrite !seqZ_nil by lia. }
  rewrite Hfill in Hcall. eexists _, _. split; [exact Hcall|].
  split; [done|]. split; [by rewrite length_fmap, length_seqZ|]. split.
  - apply Forall_fmap, Forall_forall. intros z _. by cbn.
  - apply Forall2_fmap_l, Forall_Forall2_diag.
    eapply Forall_impl; [exact Hints|]. intros z Hz.
    by apply placeholder_row_slot.
Qed.

End ReconcilerClaims.

(** One round of the fill loop, for a slot that no row of [temp]
    carries: when some row has a negative slot, the slot is written into the
    last such row (the row at the one index [j] with a negative slot and none
    after it) and no row is added; when no row has a negative slot, the
    placeholder row with drive_name "unknown", state "removed" and this slot
    is appended. *)
Theorem resolve_slot_last_seen_wins (name : string) (temp : QueryData)
    (zs : list Z) (slot : Z) :
  carries temp zs ->
  slot ∉ zs ->
  (forall (j : nat) (z : Z),
     zs !! j = Some z -> z < 0 ->
     (forall (k : nat) (z' : Z), (j < k)%nat -> zs !! k = Some z' -> 0 <= z') ->
     resolve_slot name temp slot
     = Ok (alter (fun r : Row => <["slot" := to_string slot]> r) j temp)) /\
  ((forall z : Z, z ∈ zs -> 0 <= z) ->
   resolve_slot name temp slot = Ok (temp ++ [placeholder_row name slot]) /\
   placeholder_row name slot !! "drive_name" = Some "unknown" /\
   placeholder_row name slot !! "state" = Some "removed" /\
   placeholder_row name slot !! "slot" = Some (to_string slot)).
Proof.
  intros Hc Hnot. pose proof (resolve_slot_spec name temp zs slot Hc) as Hspec.
  destruct (decide (slot ∈ zs)); [done|]. split.
  - intros j z Hj Hz Hlast.
    by rewrite (last_negative_unique zs j z Hj Hz Hlast) in Hspec.
  - intros Hpos. apply last_negative_None in Hpos. by rewrite Hpos in Hspec.
Qed.

(** C1, as the code has it.  On an array with N slots the call appends at
    least N rows, and every slot of [0, N) is the slot of one of them.  When
    the scan yields at most N rows whose slots are below N and, where not
    negative, pairwise distinct, it appends exactly N rows and their slots
    are a permutation of [0, N). *)
Theorem getDrivesForArray_rows {W : Type} (hdr : md_p_h) (md : MDInterface W)
    (name : string) (data : QueryData) (w w1 w2 : W) (log : glog)
    (path : string) (array : mdu_array_info_t) :
  getPathByDevName md name w = (path, w1) ->
  path <> "" ->
  getArrayInfo md path w1 = (Some array, w2) ->
  let N := int_val (raid_disks array) in
  let live := (scan_disks hdr md name path array (seq 0 (MD_SB_DISKS hdr)) [] w2).1 in
  exists (rows : QueryData) (st' : W * glog) (slots : list Z),
    getDrivesForArray hdr md name data (w, log) = Ok (data ++ rows, st') /\
    carries rows slots /\
    (Z.to_nat N <= length rows)%nat /\
    (forall s : Z, 0 <= s < N -> s ∈ slots) /\
    (forall provisional : list Z,
       carries live provisional -> tidy N provisional ->
       length rows = Z.to_nat N /\ slots ≡ₚ seqZ 0 N).
Proof.
  intros Hpath Hne Harr N live.
  pose proof (getDrivesForArray_unfold hdr md name data w log path w1 array w2
                Hpath Hne Harr) as Hcall. cbn zeta in Hcall. fold live N in Hcall.
  destruct (scan_disks_carries hdr md name path array (seq 0 (MD_SB_DISKS hdr))
              [] w2 [] ltac:(constructor)) as [zs0 Hlive]. fold live in Hlive.
  destruct (resolve_slots_carries name live zs0 (seqZ 0 N) Hlive
              (slots_of_int (raid_disks array))) as (rows & Hfill & Hrows).
  rewrite Hfill in Hcall.
  destruct (foldl_resolved_all N zs0) as (Hcov & Hlen & Hperm).
  eexists rows, _, (foldl resolved zs0 (seqZ 0 N)).
  split; [exact Hcall|]. split; [done|]. split.
  { by rewrite (Forall2_length _ _ _ Hrows). }
  split; [exact Hcov|].
  intros provisional Hprov Htidy.
  assert (provisional = zs0) as ->.
  { clear -Hprov Hlive. revert provisional Hprov.
    induction Hlive as [|r z rows zs Hr _ IH]; intros prov Hprov.
    - by inversion Hprov.
    - inversion Hprov as [|r' z' rows' zs' Hr' Hrest]; subst.
      rewrite Hr in Hr'. injection Hr' as <-. f_equal. by apply IH. }
  specialize (Hperm Htidy). split; [|done].
  rewrite (Forall2_length _ _ _ Hrows), Hperm. apply length_seqZ.
Qed.

(** ** The properties at concrete drivers *)

(** The tests of tests/md_tests.cpp, with the rows they expect. *)

Example test_all_drives_healthy :
  returned_rows (getDrivesForArray linux_md_p (mock_md 6 "/dev/sda" (all_drives 6))
                   "md0" [] (0, []))
  = Some [ ("/dev/sda0", "active sync", "0"); ("/dev/sda1", "active sync", "1");
           ("/dev/sda2", "active sync", "2"); ("/dev/sda3", "active sync", "3");
           ("/dev/sda4", "active sync", "4"); ("/dev/sda5", "active sync", "5") ].
Proof. by vm_compute. Qed.

Example test_all_drives_faulty :
  returned_rows (getDrivesForArray linux_md_p (mock_md 6 "/dev/sda" (all_drives 1))
                   "md0" [] (0, []))
  = Some [ ("/dev/sda0", "faulty", "0"); ("/dev/sda1", "faulty", "1");
           ("/dev/sda2", "faulty", "2"); ("/dev/sda3", "faulty", "3");
           ("/dev/sda4", "faulty", "4"); ("/dev/sda5", "faulty", "5") ].
Proof. by vm_compute. Qed.

Example test_every_other_drives_faulty :
  returned_rows (getDrivesForArray linux_md_p
                   (mock_md 6 "/dev/sda" every_other_drives_faulty) "md0" [] (0, []))
  = Some [ ("/dev/sda0", "faulty", "0"); ("/dev/sda1", "active sync", "1");
           ("/dev/sda2", "faulty", "2"); ("/dev/sda3", "active sync", "3");
           ("/dev/sda4", "faulty", "4"); ("/dev/sda5", "active sync", "5") ].
Proof. by vm_compute. Qed.

Example test_some_drives_removed :
  returned_rows (getDrivesForArray linux_md_p
                   (mock_md 6 "/dev/sda" some_drives_removed) "md0" [] (0, []))
  = Some [ ("/dev/sda1", "active sync", "1"); ("/dev/sda3", "active sync", "3");
           ("/dev/sda5", "active sync", "5"); ("unknown", "removed", "0");
           ("unknown", "removed", "2"); ("unknown", "removed", "4") ].
Proof. by vm_compute. Qed.

Example test_some_faulty_some_removed :
  returned_rows (getDrivesForArray linux_md_p
                   (mock_md 6 "/dev/sda" some_faulty_some_removed) "md0" [] (0, []))
  = Some [ ("/dev/sda0", "faulty", "0"); ("/dev/sda1", "active sync", "1");
           ("/dev/sda3", "active sync", "3"); ("/dev/sda4", "active sync", "4");
           ("/dev/sda5", "faulty", "5"); ("/dev/sda6", "active sync", "0");
           ("unknown", "removed", "2") ].
Proof. by vm_compute. Qed.

Example test_scattered_faulty_and_removed :
  returned_rows (getDrivesForArray linux_md_p
                   (mock_md 6 "/dev/sda" scattered_faulty_and_removed) "md0" [] (0, []))
  = Some [ ("/dev/sda1", "active sync", "1"); ("/dev/sda3", "active sync", "3");
           ("/dev/sda5", "active sync", "5"); ("/dev/sda9", "faulty", "2");
           ("/dev/sda17", "faulty", "0"); ("unknown", "removed", "4") ].
Proof. by vm_compute. Qed.

Example test_arrayInfo_ioctl_error :
  returned_rows (getDrivesForArray linux_md_p mock_md_no_array "md0" [] (0, []))
  = Some [].
Proof. by vm_compute. Qed.

(** C1 as stated fails on the driver of the test some_faulty_some_removed:
    the array has six slots, no row of the scan has a negative slot (no
    ambiguous drive is pending), and the call hands back seven rows, two of
    them with slot 0. *)
Lemma getDrivesForArray_seven_rows_for_six_slots :
  let md := mock_md 6 "/dev/sda" some_faulty_some_removed in
  let array := {| raid_disks := to_int 6 |} in
  row_slot <$> (scan_disks linux_md_p md "md0" "/dev/md0" array
                  (seq 0 (MD_SB_DISKS linux_md_p)) [] 0).1
  = Ok <$> [0; 1; 3; 4; 5; 0] /\
  returned_slots (getDrivesForArray linux_md_p md "md0" [] (0, []))
  = Some (Ok <$> [0; 1; 3; 4; 5; 0; 2]) /\
  length [0; 1; 3; 4; 5; 0; 2] <> Z.to_nat (raid_disks array) /\
  ~ ([0; 1; 3; 4; 5; 0; 2] ≡ₚ seqZ 0 (raid_disks array)).
Proof.
  cbn zeta. split; [by vm_compute|]. split; [by vm_compute|]. split.
  - by vm_compute.
  - intros H%Permutation_length. by vm_compute in H.
Qed.

Lemma getDrivesForArray_rows_witness :
  exists (rows : QueryData) (st' : Z * glog) (slots : list Z),
    getDrivesForArray linux_md_p (mock_md 6 "/dev/sda" scattered_faulty_and_removed)
      "md0" [] (0, []) = Ok ([] ++ rows, st') /\
    carries rows slots /\
    length rows = 6%nat /\
    slots ≡ₚ seqZ 0 6.
Proof.
  assert (Hlive : carries
            (scan_disks linux_md_p (mock_md 6 "/dev/sda" scattered_faulty_and_removed)
               "md0" "/dev/md0" {| raid_disks := to_int 6 |}
               (seq 0 (MD_SB_DISKS linux_md_p)) [] 0).1 [1; 3; 5; -1; -1]).
  { apply carries_fmap. by vm_compute. }
  assert (Htidy : tidy 6 [1; 3; 5; -1; -1]).
  { split; [vm_compute; lia|]. split.
    - intros z Hz. repeat (apply elem_of_cons in Hz as [->|Hz]; [lia|]).
      by apply elem_of_nil in Hz.
    - intros [|[|[|[|[|i]]]]] [|[|[|[|[|j]]]]] z Hi Hj Hz; cbn in Hi, Hj;
        simplify_eq; (done || lia). }
  destruct (getDrivesForArray_rows linux_md_p
              (mock_md 6 "/dev/sda" scattered_faulty_and_removed) "md0" [] 0 0 0 []
              "/dev/md0" {| raid_disks := to_int 6 |} eq_refl ltac:(discriminate)
              eq_refl)
    as (rows & st' & slots & Hcall & Hrows & _ & _ & Hperm).
  exists rows, st', slots. split; [exact Hcall|]. split; [exact Hrows|].
  exact (Hperm [1; 3; 5; -1; -1] Hlive Htidy).
Defined.

Lemma resolve_slot_last_seen_wins_witness :
  resolve_slot "md0" (rows_with_slots [1; 3; 5; -1; -1]) 0
  = Ok (alter (fun r : Row => <["slot" := to_string 0]> r) 4%nat
          (rows_with_slots [1; 3; 5; -1; -1])) /\
  resolve_slot "md0" (rows_with_slots [1; 3; 5; 2; 0]) 4
  = Ok (rows_with_slots [1; 3; 5; 2; 0] ++ [placeholder_row "md0" 4]).
Proof.
  split.
  - refine (proj1 (resolve_slot_last_seen_wins "md0"
                     (rows_with_slots [1; 3; 5; -1; -1]) [1; 3; 5; -1; -1] 0 _ _)
              4%nat (-1) eq_refl eq_refl _).
    + apply carries_fmap. by vm_compute.
    + intros Hin. repeat (apply elem_of_cons in Hin as [Hin|Hin]; [discriminate|]).
      by apply elem_of_nil in Hin.
    + intros [|[|[|[|[|k]]]]] z' Hk Hz; cbn in Hz; simplify_eq; lia.
  - refine (proj1 (proj2 (resolve_slot_last_seen_wins "md0"
                     (rows_with_slots [1; 3; 5; 2; 0]) [1; 3; 5; 2; 0] 4 _ _) _)).
    + apply carries_fmap. by vm_compute.
    + intros Hin. repeat (apply elem_of_cons in Hin as [Hin|Hin]; [discriminate|]).
      by apply elem_of_nil in Hin.
    + intros z Hz. repeat (apply elem_of_cons in Hz as [->|Hz]; [by vm_compute|]).
      by apply elem_of_nil in Hz.
Defined.

Lemma scan_disk_provisional_slot_witness :
  let md := mock_md 6 "/dev/sda" scattered_faulty_and_removed in
  let array := {| raid_disks := to_int 6 |} in
  (exists (r : Row) (w2 : Z),
     scan_disk linux_md_p md "md0" "/dev/md0" array 3 [] 0 = ([] ++ [r], w2) /\
     row_slot r = Ok 3) /\
  (exists (r : Row) (w2 : Z),
     scan_disk linux_md_p md "md0" "/dev/md0" array 9 [] 0 = ([] ++ [r], w2) /\
     row_slot r = Ok (-1)).
Proof.
  cbn zeta. split.
  - destruct (scan_disk_provisional_slot linux_md_p
                (mock_md 6 "/dev/sda" scattered_faulty_and_removed) "md0" "/dev/md0"
                {| raid_disks := to_int 6 |} 3 [] 0 3 (mk_disk 3 3 6 7 8)
                eq_refl eq_refl eq_refl) as (r & w2 & Hscan & Hslot & _).
    by exists r, w2.
  - destruct (scan_disk_provisional_slot linux_md_p
                (mock_md 6 "/dev/sda" scattered_faulty_and_removed) "md0" "/dev/md0"
                {| raid_disks := to_int 6 |} 9 [] 0 9 (mk_disk 9 (-1) 1 13 14)
                eq_refl eq_refl eq_refl) as (r & w2 & Hscan & Hslot & _).
    by exists r, w2.
Defined.

Lemma getDrivesForArray_query_failure_witness :
  (exists st' : Z * glog,
     getDrivesForArray linux_md_p mock_md_no_array "md0" [placeholder_row "md1" 0]
       (0, []) = Ok ([placeholder_row "md1" 0], st')) /\
  (exists st' : Z * glog,
     getDrivesForArray linux_md_p mock_md_no_path "md0" [placeholder_row "md1" 0]
       (0, []) = Ok ([placeholder_row "md1" 0], st')).
Proof.
  split.
  - destruct (getDrivesForArray_query_failure linux_md_p mock_md_no_array "md0"
                [placeholder_row "md1" 0] 0 0 [] "/dev/md0" eq_refl
                (or_intror eq_refl)) as (st' & Hcall & _).
    by exists st'.
  - destruct (getDrivesForArray_query_failure linux_md_p mock_md_no_path "md0"
                [placeholder_row "md1" 0] 0 0 [] "" eq_refl
                (or_introl eq_refl)) as (st' & Hcall & _).
    by exists st'.
Defined.

Lemma getDrivesForArray_all_removed_witness :
  exists (rows : QueryData) (st' : Z * glog),
    getDrivesForArray linux_md_p (mock_md 6 "/dev/sda" []) "md0" [] (0, [])
    = Ok ([] ++ rows, st') /\
    rows = placeholder_row "md0" <$> seqZ 0 6.
Proof.
  destruct (getDrivesForArray_all_removed linux_md_p (mock_md 6 "/dev/sda" [])
              "md0" [] 0 0 0 [] "/dev/md0" {| raid_disks := to_int 6 |}
              eq_refl ltac:(discriminate) eq_refl)
    as (rows & st' & Hcall & Hrows & _).
  - vm_compute. repeat split; discriminate.
  - by exists rows, st'.
Defined.

(** * Further properties of the code *)

(** ** trimStr in full *)

Section TrimFacts.

Implicit Types (s t : string) (a c : ascii) (n : N).

Lemma append_String a s t : String a s +:+ t = String a (s +:+ t).
Proof. reflexivity. Qed.

Lemma append_empty_r s : s +:+ "" = s.
Proof. induction s as [|a s IH]; [reflexivity|]. by rewrite !append_String, IH. Qed.

Lemma append_assoc s t u : (s +:+ t) +:+ u = s +:+ (t +:+ u).
Proof. induction s as [|a s IH]; [reflexivity|]. by rewrite !append_String, IH. Qed.

Lemma size_append s t : Str.size (s +:+ t) = (Str.size s + Str.size t)%N.
Proof.
  induction s as [|a s IH]; [by rewrite N.add_0_l|].
  rewrite append_String, !size_String, IH. lia.
Qed.

Lemma take_drop n s : Str.take n s +:+ Str.drop n s = s.
Proof.
  revert n. induction s as [|a s IH]; intros n; [done|].
  cbn [Str.take Str.drop]. destruct (n =? 0)%N; [reflexivity|].
  rewrite append_String. by f_equal.
Qed.

Lemma take_append s t : Str.take (Str.size s) (s +:+ t) = s.
Proof.
  induction s as [|a s IH]; [by rewrite take_0|].
  by rewrite size_String, append_String, take_succ, IH.
Qed.

Lemma drop_append s t : Str.drop (Str.size s) (s +:+ t) = t.
Proof.
  induction s as [|a s IH]; [by rewrite drop_0|].
  by rewrite size_String, append_String, drop_succ, IH.
Qed.

Lemma find_first_not_of_None s c :
  Str.find_first_not_of s c = None ->
  s = repeat_char (String.length s) c.
Proof.
  induction s as [|a s IH]; [done|]. cbn [Str.find_first_not_of].
  destruct (Ascii.eqb_spec a c) as [->|]; [|done].
  destruct (Str.find_first_not_of s c); [done|]. intros _. cbn. f_equal. by apply IH.
Qed.

Lemma find_last_not_of_None s c :
  Str.find_last_not_of s c = None -> Str.find_first_not_of s c = None.
Proof.
  induction s as [|a s IH]; [done|]. cbn [Str.find_last_not_of Str.find_first_not_of].
  destruct (Str.find_last_not_of s c); [done|].
  destruct (Ascii.eqb a c); [|done]. intros _. by rewrite IH.
Qed.

(** What follows the last character other than [c] is a run of [c]. *)
Lemma drop_after_last s c last :
  Str.find_last_not_of s c = Some last ->
  exists m : nat, Str.drop (last + 1) s = repeat_char m c.
Proof.
  revert last. induction s as [|a s IH]; intros last; [done|].
  cbn [Str.find_last_not_of].
  destruct (Str.find_last_not_of s c) as [i|] eqn:Hi.
  - intros [= <-]. rewrite N.add_succ_l, drop_succ. by apply IH.
  - destruct (Ascii.eqb a c); [done|]. intros [= <-].
    change (0 + 1)%N with (N.succ 0). rewrite drop_succ, drop_0.
    exists (String.length s). by apply find_first_not_of_None, find_last_not_of_None.
Qed.

Lemma last_char_is_Some a s : exists b, last_char (String a s) = Some b.
Proof.
  revert a. induction s as [|a' s IH]; intros a; [by exists a|].
  destruct (IH a') as [b Hb]. exists b. by rewrite <- Hb.
Qed.

Lemma last_char_String a s :
  last_char (String a s) = match last_char s with Some b => Some b | None => Some a end.
Proof.
  destruct s as [|a' s]; [done|].
  destruct (last_char_is_Some a' s) as [b Hb]. rewrite Hb. by rewrite <- Hb.
Qed.

Lemma last_char_None s : last_char s = None -> s = "".
Proof.
  induction s as [|a s IH]; [done|]. rewrite last_char_String.
  by destruct (last_char s).
Qed.

Lemma trimmed_no_margin c t : trimmed c t <-> no_margin c t.
Proof.
  unfold trimmed, no_margin. split.
  - intros [Hf Hl]. split.
    + destruct t as [|a u]; [done|]. exists a, u. split; [done|].
      cbn in Hf. destruct (Ascii.eqb_spec a c); [|done].
      destruct (Str.find_first_not_of u c); cbn in Hf; [|done].
      injection Hf as Hf. lia.
    + clear Hf. induction t as [|a u IH]; [done|].
      rewrite size_String in Hl. cbn [Str.find_last_not_of] in Hl.
      rewrite last_char_String.
      destruct (Str.find_last_not_of u c) as [i|] eqn:Hi.
      * destruct u as [|a' u']; [done|].
        destruct IH as (b & -> & Hb).
        { rewrite size_String in *. f_equal. injection Hl as Hl. lia. }
        by exists b.
      * destruct (Ascii.eqb_spec a c); [done|].
        destruct u as [|a' u']; [by exists a|].
        rewrite size_String in Hl. injection Hl as Hl. lia.
  - intros [(a & u & -> & Ha) (b & Hb & Hbc)]. split.
    + cbn. by destruct (Ascii.eqb_spec a c).
    + clear Ha. revert a b Hb Hbc. induction u as [|a' u IH]; intros a b Hb Hbc.
      * cbn in *. injection Hb as ->. by destruct (Ascii.eqb_spec b c).
      * rewrite last_char_String in Hb. change (last_char (String a' u)) with
          (last_char (String a' u)) in Hb.
        assert (Hb' : last_char (String a' u) = Some b).
        { destruct (last_char (String a' u)) eqn:E; [done|].
          by apply last_char_None in E. }
        specialize (IH a' b Hb' Hbc).
        cbn [Str.find_last_not_of] in IH |- *.
        destruct (Str.find_last_not_of u c) as [i|].
        -- rewrite !size_String in *. f_equal. injection IH as IH. lia.
        -- destruct (Ascii.eqb a' c); [done|]. rewrite !size_String in *.
           f_equal. injection IH as IH. lia.
Qed.

End TrimFacts.

(** X1.  What [trimStr] does, in full: a string of [c] alone is returned
    as it is; any other string is a run of [c], the result, and a run of
    [c], and the result neither begins nor ends with [c]. *)
Theorem trimStr_strips (s : string) (c : ascii) :
  (exists k : nat, s = repeat_char k c /\ trimStr s c = s) \/
  (exists n m : nat,
     s = repeat_char n c +:+ trimStr s c +:+ repeat_char m c /\
     no_margin c (trimStr s c)).
Proof.
  destruct (Str.find_first_not_of s c) as [first|] eqn:Hf.
  - right. pose proof (trimStr_trimmed s c first Hf) as Ht.
    apply trimmed_no_margin in Ht.
    cut (exists n m : nat, s = repeat_char n c +:+ trimStr s c +:+ repeat_char m c).
    { intros (n & m & H). by exists n, m. }
    clear Ht. revert first Hf. induction s as [|a s IH]; intros first; [done|].
    cbn [Str.find_first_not_of]. destruct (Ascii.eqb_spec a c) as [->|Hac].
    + destruct (Str.find_first_not_of s c) as [f|] eqn:Hf; [|done]. intros _.
      destruct (IH f eq_refl) as (n & m & IHs).
      exists (S n), m. rewrite (trimStr_skip s c f) by done.
      cbn [repeat_char]. rewrite append_String. by f_equal.
    + intros [= <-].
      assert (Hf : Str.find_first_not_of (String a s) c = Some 0%N).
      { cbn. by destruct (Ascii.eqb_spec a c). }
      destruct (find_first_last _ _ _ Hf) as (l & Hl & _ & _).
      rewrite (trimStr_unfold _ c 0 l), drop_0 by done.
      destruct (drop_after_last _ _ _ Hl) as [m Hm].
      exists 0%nat, m. cbn [repeat_char]. rewrite <- Hm.
      symmetry. apply (take_drop (l + 1) (String a s)).
  - left. exists (String.length s). split; [by apply find_first_not_of_None|].
    unfold trimStr. by rewrite Hf.
Qed.

(** ** The disk state as a list of names *)

(** [(1 << k) & x] is not zero exactly when bit [k] of [x] is set. *)
Lemma shl_and_testbit (k x : Z) : shl_and k x = Z.testbit x k.
Proof.
  unfold shl_and. destruct (Z.testbit x k) eqn:Hbit.
  - apply negb_true_iff, Z.eqb_neq. intros H0.
    assert (Hk : 0 <= k).
    { destruct (Z.lt_ge_cases k 0); [|done]. by rewrite Z.testbit_neg_r in Hbit. }
    pose proof (f_equal (fun z => Z.testbit z k) H0) as H. cbn beta in H.
    rewrite Z.land_spec, Z.shiftl_spec, Z.sub_diag, Hbit, Z.bits_0 in H by done.
    done.
  - apply negb_false_iff, Z.eqb_eq, Z.bits_inj'. intros n Hn.
    rewrite Z.land_spec, Z.bits_0, Z.shiftl_spec by done.
    destruct (Z.eq_dec n k) as [->|Hne]; [by rewrite Hbit, andb_false_r|].
    destruct (Z.lt_ge_cases (n - k) 0).
    + by rewrite Z.testbit_neg_r.
    + rewrite (Z.bits_above_log2 1 (n - k)); [done | lia | cbn; lia].
Qed.

Lemma append_ifdef_flag_bit (flag : option Z) (x : Z) (name s : string) :
  append_ifdef flag (fun k => shl_and k x) name s = append_if (flag_bit flag x) name s.
Proof. destruct flag; [|done]. cbn. by rewrite shl_and_testbit. Qed.

(** X2.  For a state other than 0 the state string is the list of the
    reported names, in the order of the tests, separated by single spaces,
    with no space before or after; it is empty when no name is reported. *)
Theorem getDiskStateStr_names (h : md_p_h) (state : Z) :
  state <> 0 ->
  getDiskStateStr h state = join (state_names h state) " ".
Proof.
  intros Hstate. unfold getDiskStateStr, state_names.
  destruct (Z.eqb_spec state 0); [done|].
  rewrite !append_ifdef_flag_bit, !shl_and_testbit.
  destruct (Z.testbit state (MD_DISK_FAULTY h)),
    (Z.testbit state (MD_DISK_ACTIVE h)), (Z.testbit state (MD_DISK_SYNC h)),
    (Z.testbit state (MD_DISK_REMOVED h)),
    (Z.testbit state (MD_DISK_WRITEMOSTLY h)),
    (flag_bit (MD_DISK_FAILFAST h) state), (flag_bit (MD_DISK_JOURNAL h) state),
    (flag_bit (MD_DISK_CANDIDATE h) state), (flag_bit (MD_DISK_CLUSTER_ADD h) 1);
    reflexivity.
Qed.

Lemma getDiskStateStr_names_witness :
  getDiskStateStr linux_md_p 1570 = join ["active"; "writemostly"; "failfast"; "spare"] " " /\
  getDiskStateStr linux_md_p 64 = join [] " ".
Proof.
  split.
  - exact (getDiskStateStr_names linux_md_p 1570 ltac:(discriminate)).
  - exact (getDiskStateStr_names linux_md_p 64 ltac:(discriminate)).
Defined.

(** ** The lines of the status file *)

Section GetLinesFacts.

Implicit Types (raw lines : list string) (s : string).

Lemma read_lines_app raw lines : read_lines raw lines = lines ++ read_lines raw [].
Proof.
  revert lines. induction raw as [|line raw IH]; intros lines.
  - by rewrite app_nil_r.
  - cbn [read_lines]. destruct (find_first_not_of_any _ _).
    + rewrite (IH (lines ++ _)), (IH ([] ++ _)). by rewrite <- app_assoc.
    + apply IH.
Qed.

(** A character outside the blank set is in particular not a space. *)
Lemma not_blank_not_space s :
  is_Some (find_first_not_of_any s blank_chars) ->
  is_Some (Str.find_first_not_of s space).
Proof.
  induction s as [|a s IH]; [by intros [? ?]|].
  cbn [find_first_not_of_any Str.find_first_not_of].
  destruct (Ascii.eqb_spec a space) as [->|_]; [|by eexists].
  change (is_any_of blank_chars space) with true. cbn match.
  destruct (find_first_not_of_any s blank_chars) as [i|]; [|by intros [? ?]].
  intros _. destruct IH as [j ->]; [by eexists|]. by eexists.
Qed.

Lemma read_lines_kept raw :
  Forall (fun l => no_margin space l /\
                   is_Some (find_first_not_of_any l blank_chars))
         (read_lines raw []).
Proof.
  induction raw as [|line raw IH]; [constructor|].
  cbn [read_lines].
  destruct (find_first_not_of_any (trimStr line space) blank_chars) as [i|] eqn:Hi;
    [|done].
  rewrite read_lines_app. apply Forall_app. split; [|done].
  constructor; [|constructor]. split; [|by rewrite Hi].
  apply trimmed_no_margin.
  destruct (Str.find_first_not_of line space) as [first|] eqn:Hf.
  - by eapply trimStr_trimmed.
  - exfalso. unfold trimStr in Hi. rewrite Hf in Hi.
    destruct (not_blank_not_space line) as [j Hj]; [by rewrite Hi|]. congruence.
Qed.

Lemma read_lines_again lines :
  Forall (fun l => no_margin space l /\
                   is_Some (find_first_not_of_any l blank_chars)) lines ->
  read_lines lines [] = lines.
Proof.
  induction 1 as [|l lines [Hl [i Hi]] _ IH]; [done|].
  cbn [read_lines]. rewrite (trimStr_of_trimmed space l) by by apply trimmed_no_margin.
  rewrite Hi, read_lines_app, IH. done.
Qed.

End GetLinesFacts.

(** X3.  [getLines] appends to the caller's lines, in the order of the
    file, the lines that have a character other than tab, carriage return,
    vertical tab and space, each trimmed of its spaces: a line it hands on is
    never empty and never begins or ends with a space.  Reading its own
    output again gives the same lines. *)
Theorem getLines_kept (file : option (list string)) (lines : list string) :
  exists kept : list string,
    getLines file lines = lines ++ kept /\
    kept = filter (fun l => is_Some (find_first_not_of_any l blank_chars))
             ((fun l => trimStr l space) <$> default [] file) /\
    Forall (no_margin space) kept /\
    getLines (Some kept) [] = kept.
Proof.
  exists (getLines file []). split.
  { destruct file as [raw|]; cbn [getLines]; [apply read_lines_app|].
    by rewrite app_nil_r. }
  split.
  { destruct file as [raw|]; [|done]. cbn [getLines default from_option]. unfold id.
    induction raw as [|line raw IH]; [done|].
    cbn [read_lines]. rewrite fmap_cons, filter_cons.
    destruct (find_first_not_of_any (trimStr line space) blank_chars) as [i|] eqn:Hi.
    - rewrite decide_True by by eexists. by rewrite read_lines_app, IH.
    - rewrite decide_False by (by intros [? ?]). done. }
  assert (Hkept : Forall (fun l => no_margin space l /\
                    is_Some (find_first_not_of_any l blank_chars)) (getLines file [])).
  { destruct file as [raw|]; [apply read_lines_kept | constructor]. }
  split.
  - eapply Forall_impl; [exact Hkept|]. by intros l [? _].
  - by apply read_lines_again.
Qed.

(** ** Drive tokens *)

Section FindFacts.

Implicit Types (s t needle : string) (a c : ascii).

Lemma prefix_length needle s :
  String.prefix needle s = true -> (String.length needle <= String.length s)%nat.
Proof.
  revert needle. induction s as [|b s IH]; intros [|a needle]; cbn; try done; try lia.
  destruct (ascii_dec a b); [|done]. intros H%IH. lia.
Qed.

(** An occurrence that [find] reports lies within the string. *)
Lemma find_in_range s needle pos :
  Str.find s needle = Some pos -> (pos + Str.size needle <= Str.size s)%N.
Proof.
  revert pos. induction s as [|b s IH]; intros pos.
  - cbn [Str.find]. destruct (String.prefix needle "") eqn:Hp; [|done].
    intros [= <-]. apply prefix_length in Hp. unfold Str.size. lia.
  - cbn [Str.find]. destruct (String.prefix needle (String b s)) eqn:Hp.
    + intros [= <-]. apply prefix_length in Hp. unfold Str.size. lia.
    + destruct (Str.find s needle) as [i|]; [|done]. intros [= <-].
      specialize (IH i eq_refl). rewrite size_String. lia.
Qed.

Lemma substr_after_find s needle pos :
  Str.find s needle = Some pos ->
  Str.substr s (pos + marker_len needle) None
  = Ok (Str.drop (pos + marker_len needle) s).
Proof.
  intros H%find_in_range. unfold Str.substr, marker_len.
  by destruct (N.leb_spec (pos + Str.size needle) (Str.size s)); [|lia].
Qed.

Lemma find_char_app s t c :
  Str.find_char s c = None ->
  Str.find_char (s +:+ t) c = N.add (Str.size s) <$> Str.find_char t c.
Proof.
  induction s as [|a s IH].
  - intros _. change ("" +:+ t) with t. destruct (Str.find_char t c); [|done].
    cbn. f_equal.
  - cbn [Str.find_char]. rewrite append_String. cbn [Str.find_char].
    destruct (Ascii.eqb a c); [done|].
    destruct (Str.find_char s c) eqn:Hs; [done|]. intros _. rewrite IH by done.
    rewrite size_String. destruct (Str.find_char t c); [|done]. cbn. f_equal. lia.
Qed.

Lemma find_char_head s c : Str.find_char (String c s) c = Some 0%N.
Proof. cbn. by rewrite Ascii.eqb_refl. Qed.

End FindFacts.

Section ToStringFacts.

Lemma digit_char_not (d : Z) (x : ascii) :
  0 <= d < 10 -> is_digit x = false -> Ascii.eqb (digit_char d) x = false.
Proof.
  intros Hd Hx. destruct (Ascii.eqb_spec (digit_char d) x) as [<-|]; [|done].
  destruct (digit_char_val d Hd). congruence.
Qed.

Lemma print_digits_find_char (fuel : nat) (n : Z) (rest : string) (x : ascii) :
  is_digit x = false -> Str.find_char rest x = None ->
  Str.find_char (print_digits fuel n rest) x = None.
Proof.
  intros Hx. revert n rest. induction fuel as [|f IH]; intros n rest Hrest; [done|].
  cbn [print_digits].
  assert (Str.find_char (String (digit_char (n mod 10)) rest) x = None) as Hd.
  { cbn [Str.find_char]. rewrite digit_char_not, Hrest; [done| |done].
    by apply Z.mod_pos_bound. }
  destruct (n <? 10); [done | by apply IH].
Qed.

Lemma print_digits_size (fuel : nat) (n : Z) (rest : string) :
  (Str.size (print_digits fuel n rest) <= N.of_nat fuel + Str.size rest)%N.
Proof.
  revert n rest. induction fuel as [|f IH]; intros n rest; [cbn; lia|].
  cbn [print_digits]. destruct (n <? 10).
  - rewrite size_String. lia.
  - etrans; [apply IH|]. rewrite size_String. lia.
Qed.

(** What [std::to_string] prints from an [int] has no other character than
    digits and the sign, and is short. *)
Lemma to_string_find_char (k : Z) (x : ascii) :
  is_digit x = false -> x <> "-"%char -> Str.find_char (to_string k) x = None.
Proof.
  intros Hx Hminus. unfold to_string.
  pose proof (print_digits_find_char (S (Z.to_nat (Z.log2 (Z.abs k)))) (Z.abs k)
                "" x Hx eq_refl) as H.
  destruct (k <? 0); [|done]. cbn [Str.find_char].
  destruct (Ascii.eqb_spec "-"%char x); [done|]. by rewrite H.
Qed.

Lemma to_string_size (k : Z) :
  in_int k = true -> (Str.size (to_string k) <= 33)%N.
Proof.
  intros Hk. unfold in_int, INT_MIN, INT_MAX in Hk.
  apply andb_true_iff in Hk as [Hlo%Z.leb_le Hhi%Z.leb_le].
  assert (Hlog : Z.log2 (Z.abs k) < 32).
  { destruct (Z.eq_dec k 0) as [->|]; [done|].
    apply Z.log2_lt_pow2; lia. }
  pose proof (Z.log2_nonneg (Z.abs k)) as Hnn.
  pose proof (print_digits_size (S (Z.to_nat (Z.log2 (Z.abs k)))) (Z.abs k) "") as Hsz.
  unfold to_string. change (Str.size "") with 0%N in Hsz.
  destruct (k <? 0); [rewrite size_String|]; lia.
Qed.

End ToStringFacts.

(** X4.  A drive token [dev[k]suffix], with no bracket in [dev] and [k]
    printed from an [int], is parsed to the whole token as name and [k] as
    position, and nothing is logged. *)
Theorem parseMDDrive_token (dev suffix : string) (k : Z) (log : glog) :
  Str.find_char dev "[" = None ->
  Str.find_char dev "]" = None ->
  in_int k = true ->
  parseMDDrive (dev +:+ "[" +:+ to_string k +:+ "]" +:+ suffix) log
  = Ok (MDDrive.mk (dev +:+ "[" +:+ to_string k +:+ "]" +:+ suffix) k, log).
Proof.
  intros Hopen Hclose Hk. unfold parseMDDrive.
  set (ds := to_string k). set (name := dev +:+ "[" +:+ ds +:+ "]" +:+ suffix).
  assert (Hstart : Str.find_char name "[" = Some (Str.size dev)).
  { subst name. rewrite find_char_app by done.
    change ("[" +:+ ds +:+ "]" +:+ suffix) with (String "[" (ds +:+ "]" +:+ suffix)).
    rewrite find_char_head. cbn. f_equal. lia. }
  assert (Hend : Str.find_char name "]" = Some (Str.size dev + 1 + Str.size ds)%N).
  { subst name. rewrite find_char_app by done.
    change ("[" +:+ ds +:+ "]" +:+ suffix) with (String "[" (ds +:+ "]" +:+ suffix)).
    cbn [Str.find_char]. change (Ascii.eqb "[" "]") with false. cbn match.
    rewrite find_char_app by (by apply to_string_find_char).
    change ("]" +:+ suffix) with (String "]" suffix). rewrite find_char_head.
    cbn. f_equal. lia. }
  rewrite Hstart, Hend.
  assert (Hspan : size_t_span (Str.size dev + 1 + Str.size ds) (Str.size dev)
                  = Str.size ds).
  { unfold size_t_span. pose proof (to_string_size k Hk) as H. fold ds in H.
    rewrite Z.mod_small; [lia|]. split; [lia|].
    change (2 ^ 64) with 18446744073709551616. lia. }
  rewrite Hspan.
  assert (Hsub : Str.substr name (Str.size dev + 1) (Some (Str.size ds)) = Ok ds).
  { unfold Str.substr.
    assert (name = (dev +:+ "[") +:+ (ds +:+ "]" +:+ suffix)) as Hname.
    { subst name. by rewrite append_assoc. }
    assert (Str.size (dev +:+ "[") = (Str.size dev + 1)%N) as Hsz.
    { by rewrite size_append. }
    rewrite Hname at 1. rewrite size_append, Hsz.
    destruct (N.leb_spec (Str.size dev + 1)
                (Str.size dev + 1 + Str.size (ds +:+ "]" +:+ suffix))); [|lia].
    rewrite Hname, <- Hsz, drop_append, take_append. done. }
  unfold mbind, M_bind. rewrite Hsub. cbn [lift].
  subst ds. rewrite stoi_to_string by done. done.
Qed.

Lemma parseMDDrive_token_witness :
  parseMDDrive "sdb1[12](F)" [] = Ok (MDDrive.mk "sdb1[12](F)" 12, []).
Proof.
  exact (parseMDDrive_token "sdb1" "(F)" 12 [] eq_refl eq_refl eq_refl).
Defined.

(** ** The continuation loop and the end of the parse *)

Section ContinuationFacts.

Lemma same_block_refl (d : MDDevice.t) : same_block d d.
Proof. by repeat split. Qed.

Lemma same_block_trans (d1 d2 d3 : MDDevice.t) :
  same_block d1 d2 -> same_block d2 d3 -> same_block d1 d3.
Proof.
  unfold same_block. intros (?&?&?&?&?&?&?&?) (?&?&?&?&?&?&?&?).
  repeat split; congruence.
Qed.

(** A round on a line with a marker stores one field and goes on with the
    next line. *)
Lemma continuation_marker (line : string) (rest : list string) (n : N)
    (mdd : MDDevice.t) :
  has_marker line = true ->
  exists mdd', same_block mdd mdd' /\
    continuation (line :: rest) n mdd = continuation rest (n + 1) mdd'.
Proof.
  unfold has_marker. intros H. cbn [continuation]. unfold mbind, outcome_bind.
  destruct (Str.find line "recovery =") as [pos|] eqn:H1.
  { rewrite (substr_after_find _ _ _ H1). eexists. split; [|done]. by repeat split. }
  destruct (Str.find line "resync =") as [pos|] eqn:H2.
  { rewrite (substr_after_find _ _ _ H2). eexists. split; [|done]. by repeat split. }
  destruct (Str.find line "reshape =") as [pos|] eqn:H3.
  { rewrite (substr_after_find _ _ _ H3). eexists. split; [|done]. by repeat split. }
  destruct (Str.find line "check =") as [pos|] eqn:H4.
  { rewrite (substr_after_find _ _ _ H4). eexists. split; [|done]. by repeat split. }
  destruct (Str.find line "bitmap:") as [pos|] eqn:H5.
  { rewrite (substr_after_find _ _ _ H5). eexists. split; [|done]. by repeat split. }
  exfalso. rewrite !bool_decide_false in H by (by intros [? ?]). done.
Qed.

Lemma continuation_no_marker (line : string) (rest : list string) (n : N)
    (mdd : MDDevice.t) :
  has_marker line = false ->
  continuation (line :: rest) n mdd = Ok (n, mdd).
Proof.
  unfold has_marker. intros H. cbn [continuation].
  destruct (Str.find line "recovery =").
  { by rewrite bool_decide_true in H by by eexists. }
  destruct (Str.find line "resync =").
  { rewrite (bool_decide_true (is_Some (Some _))) in H by by eexists.
    by rewrite ?orb_true_r in H. }
  destruct (Str.find line "reshape =").
  { rewrite (bool_decide_true (is_Some (Some _))) in H by by eexists.
    by rewrite ?orb_true_r in H. }
  destruct (Str.find line "check =").
  { rewrite (bool_decide_true (is_Some (Some _))) in H by by eexists.
    by rewrite ?orb_true_r in H. }
  destruct (Str.find line "bitmap:"); [|done].
  rewrite (bool_decide_true (is_Some (Some _))) in H by by eexists.
  by rewrite ?orb_true_r in H.
Qed.

End ContinuationFacts.

(** X5.  The continuation loop consumes exactly the lines with a
    marker that follow the config line: it stops at the first line without
    one, with the cursor advanced by the number of lines consumed and only
    the continuation fields of the device changed.  When no line without a
    marker follows, it reads past the end of the vector. *)
Theorem continuation_consumes (ms : list string) (n : N) (mdd : MDDevice.t) :
  Forall (fun line => has_marker line = true) ms ->
  continuation ms n mdd = Undefined /\
  forall (line : string) (rest : list string),
    has_marker line = false ->
    exists mdd' : MDDevice.t,
      continuation (ms ++ line :: rest) n mdd
      = Ok ((n + N.of_nat (length ms))%N, mdd') /\
      same_block mdd mdd'.
Proof.
  intros Hms. revert n mdd. induction Hms as [|m ms Hm _ IH]; intros n mdd.
  - split; [done|]. intros line rest Hline. exists mdd.
    rewrite app_nil_l, continuation_no_marker by done.
    split; [do 2 f_equal; cbn; lia | apply same_block_refl].
  - destruct (continuation_marker m ms n mdd Hm) as (mdd1 & Hsame1 & Hstep1).
    destruct (IH (n + 1)%N mdd1) as [IH1 IH2]. split; [by rewrite Hstep1|].
    intros line rest Hline.
    destruct (continuation_marker m (ms ++ line :: rest) n mdd Hm)
      as (mdd2 & Hsame2 & Hstep2).
    rewrite <- app_comm_cons, Hstep2.
    clear IH1 IH2 Hstep1 Hsame1 mdd1.
    destruct (IH (n + 1)%N mdd2) as [_ IH2].
    destruct (IH2 line rest Hline) as (mdd' & -> & Hsame').
    exists mdd'. split; [do 2 f_equal; cbn [length]; lia|].
    by eapply same_block_trans.
Qed.

Lemma continuation_consumes_witness :
  continuation (drop 3 fixture) 2 fixture_device = Undefined /\
  exists mdd' : MDDevice.t,
    continuation (drop 3 fixture ++ ["unused devices: <none>"]) 2 fixture_device
    = Ok (3%N, mdd') /\ same_block fixture_device mdd'.
Proof.
  assert (H : Forall (fun line => has_marker line = true) (drop 3 fixture)).
  { by repeat constructor. }
  destruct (continuation_consumes (drop 3 fixture) 2 fixture_device H) as [H1 H2].
  split; [exact H1|]. exact (H2 "unused devices: <none>" [] eq_refl).
Defined.

(** X6.  Unless some line is an md line that [split] does not cut
    in two at a colon, the parser ends within as many rounds of its loop as
    there are lines, whatever they hold: with a report and a log, with an
    exception, or at a read past the end of the lines. *)
Theorem parseMDStat_terminates (fuel : nat) (lines : list string)
    (result : MDStat.t) (log : glog) :
  Forall (fun line => md_line_without_colon line = false) lines ->
  (length lines <= fuel)%nat ->
  is_Some (parseMDStat fuel lines result log).
Proof.
  intros Hlines Hfuel. unfold parseMDStat.
  destruct lines as [|line0 rest] eqn:E; [by eexists|]. rewrite <- E in *.
  assert (Hb : forall n r l, is_Some (parse_loop fuel lines n r l)).
  { intros n r l. apply parse_loop_bounded; [done|]. unfold vsize. lia. }
  destruct (Str.find line0 "Personalities :"); [|apply Hb].
  destruct (Str.substr line0 _ None); [apply Hb | by eexists..].
Qed.

Lemma parseMDStat_terminates_witness :
  is_Some (parseMDStat 5 (fixture ++ ["unused devices: <none>"]) MDStat.empty []).
Proof.
  apply parseMDStat_terminates; [by repeat constructor | cbn; lia].
Defined.

(** ** The reconciler never fails and keeps the drives *)

Section DriveRows.

Implicit Types (r : Row) (temp rows : QueryData) (zs : list Z).

Lemma in_int_int (i : int) : in_int i = true.
Proof. pose proof (int_fits i) as H. by apply Is_true_true in H. Qed.

Lemma md_drive_row_slot name r :
  md_drive_row name r -> exists z, row_slot r = Ok z.
Proof.
  intros (_ & _ & z & Hz & Hslot). exists z.
  unfold row_slot, row_get. rewrite Hslot. by apply stoi_to_string.
Qed.

Lemma md_drive_rows_carry name temp :
  Forall (md_drive_row name) temp -> exists zs, carries temp zs.
Proof.
  induction 1 as [|r temp Hr _ [zs IH]]; [exists []; constructor|].
  destruct (md_drive_row_slot name r Hr) as [z Hz].
  exists (z :: zs). by constructor.
Qed.

Lemma md_drive_row_insert_slot name r z :
  in_int z = true -> md_drive_row name r ->
  md_drive_row name (<["slot" := to_string z]> r).
Proof.
  intros Hz (Hdom & Hname & _). split; [|split].
  - rewrite dom_insert_L, Hdom. unfold drive_columns. set_solver.
  - by rewrite lookup_insert_ne.
  - exists z. by rewrite lookup_insert_eq.
Qed.

Lemma md_drive_row_placeholder name z :
  in_int z = true -> md_drive_row name (placeholder_row name z).
Proof.
  intros Hz. unfold placeholder_row. cbn zeta. split; [|split].
  - rewrite !dom_insert_L, dom_empty_L. unfold drive_columns. set_solver.
  - rewrite !lookup_insert_ne by done. by rewrite lookup_insert_eq.
  - exists z. by rewrite lookup_insert_eq.
Qed.

Lemma resolve_slot_rows name temp slot :
  in_int slot = true -> Forall (md_drive_row name) temp ->
  exists temp', resolve_slot name temp slot = Ok temp' /\
                Forall (md_drive_row name) temp'.
Proof.
  intros Hs Hrows. destruct (md_drive_rows_carry name temp Hrows) as [zs Hc].
  eexists. split; [by apply (resolve_slot_spec name temp zs)|].
  destruct (decide (slot ∈ zs)); [done|].
  destruct (last_negative zs) as [j|].
  - apply Forall_alter; [done|]. intros r _. by apply md_drive_row_insert_slot.
  - apply Forall_app. split; [done|]. constructor; [|constructor].
    by apply md_drive_row_placeholder.
Qed.

Lemma resolve_slots_rows name temp slots :
  Forall (fun s => in_int s = true) slots -> Forall (md_drive_row name) temp ->
  exists temp', resolve_slots name temp slots = Ok temp' /\
                Forall (md_drive_row name) temp'.
Proof.
  intros Hint. revert temp. induction Hint as [|s slots Hs _ IH]; intros temp Hrows.
  - by exists temp.
  - cbn [resolve_slots].
    destruct (resolve_slot_rows name temp s Hs Hrows) as (temp1 & -> & Hrows1).
    cbn [mbind outcome_bind]. by apply IH.
Qed.

(** The loop changes nothing when every slot is carried. *)
Lemma resolve_slots_carried name temp zs slots :
  carries temp zs -> Forall (fun s => s ∈ zs) slots ->
  resolve_slots name temp slots = Ok temp.
Proof.
  intros Hc. induction 1 as [|s slots Hs _ IH]; [done|].
  cbn [resolve_slots]. rewrite (resolve_slot_spec name temp zs) by done.
  by destruct (decide (s ∈ zs)).
Qed.

Lemma kept_drive_refl r : kept_drive r r.
Proof. by split. Qed.

Lemma carries_inj temp zs zs' : carries temp zs -> carries temp zs' -> zs = zs'.
Proof.
  intros Hc. revert zs'. induction Hc as [|r z rows zs Hr _ IH]; intros zs' Hc'.
  - by inversion Hc'.
  - inversion Hc' as [|r' z' rows' zs'' Hr' Hrest]; subst.
    rewrite Hr in Hr'. injection Hr' as <-. f_equal. by apply IH.
Qed.

Lemma carries_placeholders name ss :
  Forall (fun s => in_int s = true) ss ->
  carries (placeholder_row name <$> ss) ss.
Proof.
  intros Hss. apply Forall2_fmap_l, Forall_Forall2_diag.
  eapply Forall_impl; [exact Hss|]. intros z Hz. by apply placeholder_row_slot.
Qed.

(** One round of the fill loop on rows of the scan followed by placeholders. *)
Lemma resolve_slot_keeps name live kept ss slot :
  in_int slot = true ->
  Forall2 kept_drive live kept ->
  Forall (fun s => 0 <= s /\ in_int s = true) ss ->
  (exists zs, carries kept zs) ->
  exists kept' ss',
    resolve_slot name (kept ++ (placeholder_row name <$> ss)) slot
    = Ok (kept' ++ (placeholder_row name <$> ss')) /\
    Forall2 kept_drive live kept' /\
    (ss' = ss \/ ss' = ss ++ [slot]) /\
    (exists zs', carries kept' zs').
Proof.
  intros Hs Hkept Hss [zs1 Hc1].
  assert (Hc2 : carries (placeholder_row name <$> ss) ss).
  { apply carries_placeholders. eapply Forall_impl; [exact Hss|]. by intros ? [_ ?]. }
  assert (Hc : carries (kept ++ (placeholder_row name <$> ss)) (zs1 ++ ss)).
  { by apply Forall2_app. }
  rewrite (resolve_slot_spec name _ (zs1 ++ ss)) by done.
  destruct (decide (slot ∈ zs1 ++ ss)) as [_|_].
  { exists kept, ss. repeat split; [done|by left|by exists zs1]. }
  destruct (last_negative (zs1 ++ ss)) as [j|] eqn:Hlast.
  - apply last_negative_Some in Hlast as [(z & Hj & Hz) _].
    assert (Hjlt : (j < length zs1)%nat).
    { destruct (decide (j < length zs1)%nat) as [|Hge]; [done|].
      rewrite lookup_app_r in Hj by lia.
      apply list_elem_of_lookup_2 in Hj.
      rewrite Forall_forall in Hss. destruct (Hss z Hj). lia. }
    rewrite lookup_app_l in Hj by done.
    rewrite alter_app_l by (by rewrite (Forall2_length _ _ _ Hc1)).
    eexists _, ss. split; [done|]. split; [|split; [by left|]].
    + apply Forall2_alter_r; [done|]. intros r r' Hr Hr' [Hdel Hsame]. split.
      * by rewrite delete_insert_eq.
      * intros z' Hz' Hpos. rewrite (Hsame z' Hz' Hpos) in Hr'.
        pose proof (Forall2_lookup_lr _ _ _ _ _ _ Hc1 Hr' Hj) as Hrz.
        cbn in Hrz. rewrite Hz' in Hrz. injection Hrz as ->. lia.
    + exists (<[j:=slot]> zs1). rewrite list_insert_alter.
      apply Forall2_alter; [done|]. intros r z' _ _ _. by apply row_slot_insert.
  - exists kept, (ss ++ [slot]). rewrite fmap_app, app_assoc.
    repeat split; [done|by right|by exists zs1].
Qed.

Lemma resolve_slots_keeps name live (m : nat) :
  forall (k : Z) kept ss,
  0 <= k -> k + Z.of_nat m <= INT_MAX + 1 ->
  Forall2 kept_drive live kept ->
  ss `sublist_of` seqZ 0 k ->
  (exists zs, carries kept zs) ->
  exists kept' ss',
    resolve_slots name (kept ++ (placeholder_row name <$> ss)) (seqZ k (Z.of_nat m))
    = Ok (kept' ++ (placeholder_row name <$> ss')) /\
    Forall2 kept_drive live kept' /\
    ss' `sublist_of` seqZ 0 (k + Z.of_nat m).
Proof.
  induction m as [|m IH]; intros k kept ss Hk Hmax Hkept Hsub Hc.
  - change (Z.of_nat 0) with 0. rewrite (seqZ_nil k 0) by lia.
    exists kept, ss. by rewrite Z.add_0_r.
  - rewrite seqZ_succ. cbn [resolve_slots].
    assert (Hint : forall s, 0 <= s <= k -> in_int s = true).
    { intros s Hsk. unfold in_int, INT_MIN, INT_MAX in *.
      apply andb_true_iff; split; apply Z.leb_le; lia. }
    assert (Hss : Forall (fun s => 0 <= s /\ in_int s = true) ss).
    { apply Forall_forall. intros s Hin.
      apply (sublist_submseteq _ _) in Hsub.
      apply (elem_of_submseteq _ _ _ Hin), elem_of_seqZ in Hsub.
      split; [lia|]. apply Hint. lia. }
    destruct (resolve_slot_keeps name live kept ss k (Hint k ltac:(lia)) Hkept Hss Hc)
      as (kept1 & ss1 & -> & Hkept1 & Hss1 & Hc1).
    cbn [mbind outcome_bind].
    destruct (IH (k + 1) kept1 ss1) as (kept' & ss' & Hres & Hkept' & Hsub');
      [lia | lia | done | | done |].
    + replace (seqZ 0 (k + 1)) with (seqZ 0 k ++ [k]).
      * destruct Hss1 as [->| ->]; [by apply sublist_inserts_r | by apply sublist_app].
      * rewrite (seqZ_app 0 k 1) by lia. by rewrite Z.add_0_l.
    + exists kept', ss'. split; [done|]. split; [done|].
      by replace (k + Z.of_nat (S m)) with (k + 1 + Z.of_nat m) by lia.
Qed.

End DriveRows.

Section ReconcilerTotal.

Context {W : Type}.
Variable hdr : md_p_h.
Variable md : MDInterface W.

Implicit Types (temp data : QueryData) (w : W) (log : glog).

Lemma md_drive_row_drive name dev array disk :
  md_drive_row name (drive_row hdr name dev array disk).
Proof.
  unfold drive_row. cbn zeta.
  destruct ((raid_disk disk <? 0) && (number disk <? raid_disks array)).
  - split; [|split].
    + rewrite !dom_insert_L, dom_empty_L. unfold drive_columns. set_solver.
    + rewrite !lookup_insert_ne by done. by rewrite lookup_insert_eq.
    + exists (number disk). rewrite lookup_insert_eq. split; [apply in_int_int | done].
  - split; [|split].
    + rewrite !dom_insert_L, dom_empty_L. unfold drive_columns. set_solver.
    + rewrite !lookup_insert_ne by done. by rewrite lookup_insert_eq.
    + exists (raid_disk disk). rewrite lookup_insert_eq. split; [apply in_int_int | done].
Qed.

Lemma scan_disks_rows name path array numbers temp w :
  Forall (md_drive_row name) temp ->
  Forall (md_drive_row name) (scan_disks hdr md name path array numbers temp w).1 /\
  (length (scan_disks hdr md name path array numbers temp w).1
   <= length temp + length numbers)%nat.
Proof.
  revert temp w. induction numbers as [|i numbers IH]; intros temp w Hrows.
  - split; [done | cbn; lia].
  - cbn [scan_disks]. unfold scan_disk.
    destruct (getDiskInfo md path (to_int (Z.of_nat i)) w) as [[disk|] w1].
    + destruct (0 <? major disk).
      * destruct (getDevName md (major disk) (minor disk) w1) as [dev w2].
        destruct (IH (temp ++ [drive_row hdr name dev array disk]) w2) as [H1 H2].
        { apply Forall_app. split; [done|]. constructor; [|constructor].
          apply md_drive_row_drive. }
        split; [done|]. rewrite length_app in H2. cbn [length] in *. lia.
      * destruct (IH temp w1 Hrows) as [H1 H2]. split; [done|]. cbn [length]. lia.
    + destruct (IH temp w1 Hrows) as [H1 H2]. split; [done|]. cbn [length]. lia.
Qed.

Lemma getDrivesForArray_appends name data w log :
  exists rows (st' : W * glog),
    getDrivesForArray hdr md name data (w, log) = Ok (data ++ rows, st') /\
    Forall (md_drive_row name) rows.
Proof.
  unfold getDrivesForArray.
  destruct (getPathByDevName md name w) as [path w1].
  destruct (String.eqb path "").
  { exists [], (w1, LOG ERROR ("Could not get file path for " +:+ name) log).
    by rewrite app_nil_r. }
  destruct (getArrayInfo md path w1) as [[array|] w2].
  2: { exists [], (w2, log). by rewrite app_nil_r. }
  destruct (scan_disks_rows name path array (seq 0 (MD_SB_DISKS hdr)) [] w2)
    as [Hrows _]; [constructor|].
  destruct (scan_disks hdr md name path array (seq 0 (MD_SB_DISKS hdr)) [] w2)
    as [temp w3]. cbn [fst] in Hrows.
  destruct (resolve_slots_rows name temp (seqZ 0 (raid_disks array))
              (slots_of_int (raid_disks array)) Hrows) as (temp' & -> & Hrows').
  by exists temp', (w3, log).
Qed.

End ReconcilerTotal.

(** X7.  Against any driver whose calls return, a call of
    [getDrivesForArray] never throws and never reads out of bounds: it hands
    back the caller's rows followed by the rows of the array, each with the
    four columns of md_drives, the name of the array and a slot that
    [std::to_string] wrote from an [int], so that every [std::stoi] of the
    fill loop succeeds. *)
Theorem getDrivesForArray_total {W : Type} (hdr : md_p_h) (md : MDInterface W)
    (name : string) (data : QueryData) (w : W) (log : glog) :
  exists (rows : QueryData) (st' : W * glog),
    getDrivesForArray hdr md name data (w, log) = Ok (data ++ rows, st') /\
    Forall (md_drive_row name) rows.
Proof.
  unfold getDrivesForArray.
  destruct (getPathByDevName md name w) as [path w1].
  destruct (String.eqb path "").
  { eexists [], _. by rewrite app_nil_r. }
  destruct (getArrayInfo md path w1) as [[array|] w2].
  2: { eexists [], _. by rewrite app_nil_r. }
  destruct (scan_disks_rows hdr md name path array (seq 0 (MD_SB_DISKS hdr)) [] w2)
    as [Hrows _]; [constructor|].
  destruct (scan_disks hdr md name path array (seq 0 (MD_SB_DISKS hdr)) [] w2)
    as [temp w3]. cbn [fst] in Hrows.
  destruct (resolve_slots_rows name temp (seqZ 0 (raid_disks array))
              (slots_of_int (raid_disks array)) Hrows) as (temp' & -> & Hrows').
  by eexists temp', _.
Qed.

(** X14.  Against any driver whose calls return, the pass over the
    arrays (the loop of lines 568-570 around [getDrivesForArray]) never
    fails: it hands back the rows it started with followed by one block of
    md_drives rows per array, in the order of the arrays. *)
Theorem drives_of_arrays_total {W : Type} (hdr : md_p_h) (md : MDInterface W)
    (names : list string) (results : QueryData) (st : W * glog) :
  exists (blocks : list QueryData) (st' : W * glog),
    drives_of_arrays hdr md names results st = Ok (results ++ concat blocks, st') /\
    Forall2 (fun name block => Forall (md_drive_row name) block) names blocks.
Proof.
  revert results st. induction names as [|name names IH]; intros results [w log].
  - exists [], (w, log). cbn. rewrite app_nil_r. split; [done | constructor].
  - cbn [drives_of_arrays]. unfold mbind, M_bind.
    destruct (getDrivesForArray_appends hdr md name results w log)
      as (rows & st1 & -> & Hrows).
    destruct (IH (results ++ rows) st1) as (blocks & st' & -> & Hblocks).
    exists (rows :: blocks), st'. cbn [concat]. rewrite app_assoc.
    split; [done | by constructor].
Qed.

(** X8.  The fill loop drops, reorders and renames no drive.  The rows
    of an array are the rows of the scan, in the order of the scan, followed
    by placeholder rows in increasing slot order: a row of the scan comes
    back with its drive name and state, and with its slot too unless that
    was negative.  The scan yields at most MD_SB_DISKS rows. *)
Theorem getDrivesForArray_keeps_drives {W : Type} (hdr : md_p_h)
    (md : MDInterface W) (name : string) (data : QueryData) (w w1 w2 : W)
    (log : glog) (path : string) (array : mdu_array_info_t) :
  getPathByDevName md name w = (path, w1) ->
  path <> "" ->
  getArrayInfo md path w1 = (Some array, w2) ->
  let live := (scan_disks hdr md name path array (seq 0 (MD_SB_DISKS hdr)) [] w2).1 in
  exists (kept : QueryData) (slots : list Z) (st' : W * glog),
    getDrivesForArray hdr md name data (w, log)
    = Ok (data ++ kept ++ (placeholder_row name <$> slots), st') /\
    Forall2 kept_drive live kept /\
    slots `sublist_of` seqZ 0 (raid_disks array) /\
    (length live <= MD_SB_DISKS hdr)%nat.
Proof.
  intros Hpath Hne Harr live.
  pose proof (getDrivesForArray_unfold hdr md name data w log path w1 array w2
                Hpath Hne Harr) as Hcall. cbn zeta in Hcall. fold live in Hcall.
  destruct (scan_disks_rows hdr md name path array (seq 0 (MD_SB_DISKS hdr)) [] w2)
    as [Hrows Hlen]; [constructor|]. fold live in Hrows, Hlen.
  rewrite length_seq in Hlen. cbn [length] in Hlen.
  set (N := int_val (raid_disks array)) in *.
  assert (HN : N <= INT_MAX).
  { pose proof (in_int_int (raid_disks array)) as Hfit.
    apply andb_true_iff in Hfit as [_ Hfit%Z.leb_le]. done. }
  destruct (resolve_slots_keeps name live (Z.to_nat N) 0 live [])
    as (kept & slots & Hres & Hkept & Hsub).
  { done. }
  { unfold INT_MAX in *. lia. }
  { apply Forall_Forall2_diag, Forall_forall. intros r _. apply kept_drive_refl. }
  { rewrite seqZ_nil by lia. constructor. }
  { by apply (md_drive_rows_carry name). }
  rewrite fmap_nil, app_nil_r in Hres.
  assert (Hseq : seqZ 0 (Z.of_nat (Z.to_nat N)) = seqZ 0 N).
  { destruct (Z.le_gt_cases 0 N); [by rewrite Z2Nat.id|].
    by rewrite !seqZ_nil by lia. }
  rewrite Z.add_0_l, Hseq in *. rewrite Hres in Hcall.
  by eexists kept, slots, _.
Qed.

(** X9.  When the rows of the scan carry every slot of the array, the
    fill loop changes nothing: the call appends the rows of the scan as they
    are, and no placeholder. *)
Theorem getDrivesForArray_all_slots_carried {W : Type} (hdr : md_p_h)
    (md : MDInterface W) (name : string) (data : QueryData) (w w1 w2 : W)
    (log : glog) (path : string) (array : mdu_array_info_t) (zs : list Z) :
  getPathByDevName md name w = (path, w1) ->
  path <> "" ->
  getArrayInfo md path w1 = (Some array, w2) ->
  let live := (scan_disks hdr md name path array (seq 0 (MD_SB_DISKS hdr)) [] w2).1 in
  carries live zs ->
  covered (raid_disks array) zs ->
  exists st' : W * glog,
    getDrivesForArray hdr md name data (w, log) = Ok (data ++ live, st').
Proof.
  intros Hpath Hne Harr live Hc Hcov.
  pose proof (getDrivesForArray_unfold hdr md name data w log path w1 array w2
                Hpath Hne Harr) as Hcall. cbn zeta in Hcall. fold live in Hcall.
  rewrite (resolve_slots_carried name live zs) in Hcall; [by eexists | done |].
  apply Forall_forall. intros s Hs%elem_of_seqZ. apply Hcov. lia.
Qed.

Lemma getDrivesForArray_keeps_drives_witness :
  let md := mock_md 6 "/dev/sda" scattered_faulty_and_removed in
  let array := {| raid_disks := to_int 6 |} in
  let live := (scan_disks linux_md_p md "md0" "/dev/md0" array
                 (seq 0 (MD_SB_DISKS linux_md_p)) [] 0).1 in
  exists (kept : QueryData) (slots : list Z) (st' : Z * glog),
    getDrivesForArray linux_md_p md "md0" [] (0, [])
    = Ok ([] ++ kept ++ (placeholder_row "md0" <$> slots), st') /\
    Forall2 kept_drive live kept /\
    slots `sublist_of` seqZ 0 (raid_disks array) /\
    (length live <= MD_SB_DISKS linux_md_p)%nat.
Proof.
  exact (getDrivesForArray_keeps_drives linux_md_p
           (mock_md 6 "/dev/sda" scattered_faulty_and_removed) "md0" [] 0 0 0 []
           "/dev/md0" {| raid_disks := to_int 6 |} eq_refl ltac:(discriminate)
           eq_refl).
Defined.

Lemma getDrivesForArray_all_slots_carried_witness :
  let md := mock_md 6 "/dev/sda" (all_drives 6) in
  let live := (scan_disks linux_md_p md "md0" "/dev/md0" {| raid_disks := to_int 6 |}
                 (seq 0 (MD_SB_DISKS linux_md_p)) [] 0).1 in
  exists st' : Z * glog,
    getDrivesForArray linux_md_p md "md0" [] (0, []) = Ok ([] ++ live, st').
Proof.
  assert (Hc : carries
            (scan_disks linux_md_p (mock_md 6 "/dev/sda" (all_drives 6))
               "md0" "/dev/md0" {| raid_disks := to_int 6 |}
               (seq 0 (MD_SB_DISKS linux_md_p)) [] 0).1 [0; 1; 2; 3; 4; 5]).
  { apply carries_fmap. by vm_compute. }
  assert (Hcov : covered 6 [0; 1; 2; 3; 4; 5]).
  { intros t Ht. rewrite !elem_of_cons. lia. }
  exact (getDrivesForArray_all_slots_carried linux_md_p
           (mock_md 6 "/dev/sda" (all_drives 6)) "md0" [] 0 0 0 []
           "/dev/md0" {| raid_disks := to_int 6 |} [0; 1; 2; 3; 4; 5]
           eq_refl ltac:(discriminate) eq_refl Hc Hcov).
Defined.

(** ** The scan and the fill loop of a call *)

Section FillLoop.

Implicit Types (r : Row) (temp rows : QueryData) (zs : list Z).

Lemma resolve_slot_fill name temp zs s :
  carries temp zs -> in_int s = true ->
  exists temp', resolve_slot name temp s = Ok temp' /\
                fill_slot name s temp temp' /\
                carries temp' (resolved zs s).
Proof.
  intros Hc Hs.
  destruct (resolve_slot_carries name temp zs s Hc Hs) as (temp' & Hres & Hc').
  exists temp'. split; [done|]. split; [|done].
  rewrite (resolve_slot_spec name temp zs s Hc) in Hres. injection Hres as <-.
  destruct (decide (s ∈ zs)) as [Hin|Hnot]; [exact (slot_kept name s temp zs Hc Hin)|].
  destruct (last_negative zs) as [j|] eqn:Hlast.
  - apply last_negative_Some in Hlast as [(z & Hj & Hz) Hafter].
    exact (slot_assigned name s temp zs j z Hc Hnot Hj Hz Hafter).
  - exact (slot_synthesized name s temp zs Hc Hnot
             (proj1 (last_negative_None zs) Hlast)).
Qed.

Lemma resolve_slots_fill name temp zs slots :
  carries temp zs -> Forall (fun s => in_int s = true) slots ->
  exists temp', resolve_slots name temp slots = Ok temp' /\
                fill_slots name slots temp temp' /\
                carries temp' (foldl resolved zs slots).
Proof.
  intros Hc Hint. revert temp zs Hc.
  induction Hint as [|s slots Hs _ IH]; intros temp zs Hc.
  - exists temp. split; [done|]. split; [constructor | done].
  - cbn [resolve_slots foldl].
    destruct (resolve_slot_fill name temp zs s Hc Hs) as (temp1 & -> & Hstep & Hc1).
    cbn [mbind outcome_bind].
    destruct (IH temp1 _ Hc1) as (temp' & -> & Hrest & Hc').
    exists temp'. split; [done|]. split; [by econstructor | done].
Qed.

(** A slot that is not negative stays where it is. *)
Lemma resolved_keeps_index zs s (j : nat) z :
  zs !! j = Some z -> 0 <= z -> resolved zs s !! j = Some z.
Proof.
  intros Hj Hz. unfold resolved. destruct (decide (s ∈ zs)); [done|].
  destruct (last_negative zs) as [k|] eqn:Hlast.
  - apply last_negative_Some in Hlast as [(z' & Hk & Hz') _].
    rewrite list_lookup_insert_ne; [done|]. intros ->. simplify_eq. lia.
  - by apply lookup_app_l_Some.
Qed.

Lemma foldl_resolved_keeps_index slots zs (j : nat) z :
  zs !! j = Some z -> 0 <= z -> foldl resolved zs slots !! j = Some z.
Proof.
  revert zs. induction slots as [|s slots IH]; intros zs Hj Hz; [done|].
  cbn [foldl]. apply IH; [|done]. by apply resolved_keeps_index.
Qed.

Lemma foldl_resolved_carried slots zs :
  Forall (fun s => s ∈ zs) slots -> foldl resolved zs slots = zs.
Proof.
  induction 1 as [|s slots Hs _ IH]; [done|]. cbn [foldl].
  unfold resolved at 2. by rewrite decide_True.
Qed.

(** The last negative slot turns into the least slot that is not carried. *)
Lemma foldl_resolved_first_missing zs (N s : Z) (j : nat) :
  last_negative zs = Some j ->
  0 <= s < N -> (forall t, 0 <= t < s -> t ∈ zs) -> s ∉ zs ->
  foldl resolved zs (seqZ 0 N) !! j = Some s.
Proof.
  intros Hlast Hs Hbelow Hnot.
  replace N with (s + (1 + (N - s - 1))) by lia.
  rewrite (seqZ_app 0 s), (seqZ_app _ 1), !foldl_app by lia.
  rewrite (foldl_resolved_carried (seqZ 0 s)).
  2: { apply Forall_forall. intros t Ht%elem_of_seqZ. apply Hbelow. lia. }
  change (seqZ (0 + s) 1) with [0 + s]. rewrite Z.add_0_l. cbn [foldl].
  apply foldl_resolved_keeps_index; [|lia].
  unfold resolved. rewrite decide_False by done. rewrite Hlast.
  apply last_negative_Some in Hlast as [(z & Hj & _) _].
  apply list_lookup_insert_eq. by eapply lookup_lt_Some.
Qed.

Lemma kept_drive_column r r' key :
  kept_drive r r' -> key <> "slot" -> r' !! key = r !! key.
Proof.
  intros [Hdel _] Hkey.
  by rewrite <- (lookup_delete_ne r' "slot" key), Hdel, lookup_delete_ne.
Qed.

End FillLoop.

Section ScanAndFill.

Context {W : Type}.
Variable hdr : md_p_h.
Variable md : MDInterface W.

Implicit Types (temp data : QueryData) (w : W) (log : glog).

Lemma provisional_slot_guess array disk :
  provisional_slot array disk = slot_guess (raid_disks array) disk.
Proof.
  unfold provisional_slot, slot_guess.
  destruct (Z.ltb_spec (raid_disk disk) 0), (Z.leb_spec 0 (raid_disk disk));
    try lia; cbn [andb]; [|done].
  by destruct (number disk <? raid_disks array).
Qed.

(** The rows of the scan are the rows of the live disks. *)
Lemma scan_disks_live name path array numbers temp w :
  (scan_disks hdr md name path array numbers temp w).1
  = temp ++ ((fun d : nat * mdu_disk_info_t * string =>
                drive_row hdr name d.2 array d.1.2)
             <$> live_disks md path numbers w).
Proof.
  revert temp w. induction numbers as [|i numbers IH]; intros temp w.
  - cbn. by rewrite app_nil_r.
  - cbn [scan_disks live_disks]. unfold scan_disk.
    destruct (getDiskInfo md path (to_int (Z.of_nat i)) w) as [[disk|] w1];
      [|apply IH].
    destruct (0 <? major disk); [|apply IH].
    destruct (getDevName md (major disk) (minor disk) w1) as [dev w2].
    rewrite IH, fmap_cons, <- app_assoc. done.
Qed.

Lemma drive_row_columns name dev array disk :
  drive_row hdr name dev array disk !! "drive_name" = Some dev /\
  drive_row hdr name dev array disk !! "state"
  = Some (getDiskStateStr hdr (state disk)).
Proof.
  unfold drive_row. cbn zeta.
  destruct ((raid_disk disk <? 0) && (number disk <? raid_disks array)); split;
    rewrite !lookup_insert_ne by done; by rewrite lookup_insert_eq.
Qed.

(** The call on an array: the scan, then the fill loop on its rows. *)
Lemma getDrivesForArray_filled name data w log path w1 array w2 zs :
  getPathByDevName md name w = (path, w1) ->
  path <> "" ->
  getArrayInfo md path w1 = (Some array, w2) ->
  let live := (scan_disks hdr md name path array (seq 0 (MD_SB_DISKS hdr)) [] w2).1 in
  carries live zs ->
  exists (rows : QueryData) (st' : W * glog),
    getDrivesForArray hdr md name data (w, log) = Ok (data ++ rows, st') /\
    fill_slots name (seqZ 0 (raid_disks array)) live rows /\
    carries rows (foldl resolved zs (seqZ 0 (raid_disks array))) /\
    forall (j : nat) (r : Row),
      live !! j = Some r ->
      exists r' : Row, rows !! j = Some r' /\ kept_drive r r'.
Proof.
  intros Hpath Hne Harr live Hc.
  pose proof (getDrivesForArray_unfold hdr md name data w log path w1 array w2
                Hpath Hne Harr) as Hcall. cbn zeta in Hcall. fold live in Hcall.
  set (N := int_val (raid_disks array)) in *.
  destruct (resolve_slots_fill name live zs (seqZ 0 N) Hc
              (slots_of_int (raid_disks array))) as (rows & Hres & Hfill & Hrows).
  rewrite Hres in Hcall. eexists rows, _. split; [exact Hcall|].
  split; [done|]. split; [done|].
  assert (HN : N <= INT_MAX).
  { pose proof (in_int_int (raid_disks array)) as Hfit.
    apply andb_true_iff in Hfit as [_ Hfit%Z.leb_le]. done. }
  destruct (resolve_slots_keeps name live (Z.to_nat N) 0 live [])
    as (kept & ss & Hres' & Hkept & _).
  { done. }
  { unfold INT_MAX in *. lia. }
  { apply Forall_Forall2_diag, Forall_forall. intros r _. apply kept_drive_refl. }
  { rewrite seqZ_nil by lia. constructor. }
  { by exists zs. }
  rewrite fmap_nil, app_nil_r in Hres'.
  assert (Hseq : seqZ 0 (Z.of_nat (Z.to_nat N)) = seqZ 0 N).
  { destruct (Z.le_gt_cases 0 N); [by rewrite Z2Nat.id|].
    by rewrite !seqZ_nil by lia. }
  rewrite Hseq, Hres in Hres'. injection Hres' as ->.
  intros j r Hj.
  destruct (Forall2_lookup_l _ _ _ _ _ Hkept Hj) as (r' & Hj' & Hkd).
  exists r'. split; [|done]. by apply lookup_app_l_Some.
Qed.

End ScanAndFill.

(** C5.  After the scan over the MD_SB_DISKS numbers, the call runs the fill
    loop on the rows of the scan, for the slots 0, ..., N-1 in this order,
    and appends what the loop leaves.  In the round of a slot that no row
    carries, the slot is written into the row scanned last among the rows
    whose slot is still negative, and no row is added; when no row has a
    negative slot any more, the placeholder row with drive_name "unknown",
    state "removed" and this slot is appended. *)
Theorem getDrivesForArray_last_seen_wins {W : Type} (hdr : md_p_h)
    (md : MDInterface W) (name : string) (data : QueryData) (w w1 w2 : W)
    (log : glog) (path : string) (array : mdu_array_info_t) :
  getPathByDevName md name w = (path, w1) ->
  path <> "" ->
  getArrayInfo md path w1 = (Some array, w2) ->
  let live := (scan_disks hdr md name path array (seq 0 (MD_SB_DISKS hdr)) [] w2).1 in
  (exists (rows : QueryData) (st' : W * glog),
     getDrivesForArray hdr md name data (w, log) = Ok (data ++ rows, st') /\
     fill_slots name (seqZ 0 (raid_disks array)) live rows) /\
  forall s : Z,
    placeholder_row name s !! "md_device_name" = Some name /\
    placeholder_row name s !! "drive_name" = Some "unknown" /\
    placeholder_row name s !! "state" = Some "removed" /\
    placeholder_row name s !! "slot" = Some (to_string s).
Proof.
  intros Hpath Hne Harr live. split; [|done].
  destruct (scan_disks_carries hdr md name path array (seq 0 (MD_SB_DISKS hdr))
              [] w2 [] ltac:(constructor)) as [zs Hlive]. fold live in Hlive.
  destruct (getDrivesForArray_filled hdr md name data w log path w1 array w2 zs
              Hpath Hne Harr Hlive) as (rows & st' & Hcall & Hfill & _).
  by exists rows, st'.
Qed.

(** C6.  The rows of the scan are the rows of the disks that answer with a
    positive major number, one each, in the order of the queries, with the
    name of [getDevName] and the state string.  The slot of the row is the
    slot the kernel reports when that is not negative; else the number of
    the disk, which is the number queried when the answer leaves it as the
    caller set it, when that is below the disk count of the array; else the
    negative slot reported.  These rows go into the fill loop, which hands
    every one of them back at its place with its name and state; a row that
    kept a negative slot is a candidate there: the last of them comes back
    with the least slot of the array that no row of the scan carries. *)
Theorem getDrivesForArray_provisional_slots {W : Type} (hdr : md_p_h)
    (md : MDInterface W) (name : string) (data : QueryData) (w w1 w2 : W)
    (log : glog) (path : string) (array : mdu_array_info_t) :
  getPathByDevName md name w = (path, w1) ->
  path <> "" ->
  getArrayInfo md path w1 = (Some array, w2) ->
  let N := int_val (raid_disks array) in
  let disks := live_disks md path (seq 0 (MD_SB_DISKS hdr)) w2 in
  let live := (scan_disks hdr md name path array (seq 0 (MD_SB_DISKS hdr)) [] w2).1 in
  let slots := (fun d : nat * mdu_disk_info_t * string => slot_guess N d.1.2) <$> disks in
  Forall2 (fun (d : nat * mdu_disk_info_t * string) (r : Row) =>
             r !! "drive_name" = Some d.2 /\
             r !! "state" = Some (getDiskStateStr hdr (state d.1.2)) /\
             row_slot r = Ok (slot_guess N d.1.2) /\
             (int_val (number d.1.2) = Z.of_nat d.1.1 ->
              raid_disk d.1.2 < 0 -> Z.of_nat d.1.1 < N ->
              row_slot r = Ok (Z.of_nat d.1.1)))
          disks live /\
  exists (rows : QueryData) (st' : W * glog),
    getDrivesForArray hdr md name data (w, log) = Ok (data ++ rows, st') /\
    fill_slots name (seqZ 0 N) live rows /\
    (forall (j : nat) (r : Row),
       live !! j = Some r ->
       exists r' : Row,
         rows !! j = Some r' /\
         r' !! "drive_name" = r !! "drive_name" /\
         r' !! "state" = r !! "state" /\
         forall z : Z, row_slot r = Ok z -> 0 <= z -> row_slot r' = Ok z) /\
    (forall (j : nat) (s : Z),
       last_negative slots = Some j ->
       0 <= s < N -> (forall t : Z, 0 <= t < s -> t ∈ slots) -> s ∉ slots ->
       exists r' : Row, rows !! j = Some r' /\ row_slot r' = Ok s).
Proof.
  intros Hpath Hne Harr N disks live slots.
  assert (Hlive : live = (fun d : nat * mdu_disk_info_t * string =>
                            drive_row hdr name d.2 array d.1.2) <$> disks).
  { subst live disks. by rewrite scan_disks_live. }
  assert (Hc : carries live slots).
  { rewrite Hlive. subst slots. apply Forall2_fmap, Forall_Forall2_diag, Forall_forall.
    intros [[i disk] dev] _. cbn [fst snd].
    by rewrite drive_row_slot, provisional_slot_guess. }
  split.
  { rewrite Hlive. apply Forall2_fmap_r, Forall_Forall2_diag, Forall_forall.
    intros [[i disk] dev] _. cbn [fst snd].
    destruct (drive_row_columns hdr name dev array disk) as [Hname Hstate].
    split; [done|]. split; [done|].
    assert (Hslot : row_slot (drive_row hdr name dev array disk)
                    = Ok (slot_guess N disk)).
    { by rewrite drive_row_slot, provisional_slot_guess. }
    split; [done|]. cbn [fst snd]. intros Hnum Hneg Hlt. rewrite Hslot.
    unfold slot_guess.
    destruct (Z.leb_spec 0 (raid_disk disk)); [lia|].
    rewrite Hnum. by destruct (Z.ltb_spec (Z.of_nat i) N); [|lia]. }
  destruct (getDrivesForArray_filled hdr md name data w log path w1 array w2 slots
              Hpath Hne Harr Hc) as (rows & st' & Hcall & Hfill & Hrows & Hkept).
  exists rows, st'. split; [done|]. split; [done|]. split.
  - intros j r Hj. destruct (Hkept j r Hj) as (r' & Hj' & Hkd).
    exists r'. split; [done|].
    split; [by apply (kept_drive_column r r')|].
    split; [by apply (kept_drive_column r r')|].
    intros z Hz Hpos. destruct Hkd as [_ Hsame]. by rewrite (Hsame z Hz Hpos).
  - intros j s Hlast Hs Hbelow Hnot.
    pose proof (foldl_resolved_first_missing slots N s j Hlast Hs Hbelow Hnot) as Hj.
    destruct (Forall2_lookup_r _ _ _ _ _ Hrows Hj) as (r' & Hj' & Hslot).
    by exists r'.
Qed.

Lemma getDrivesForArray_last_seen_wins_witness :
  let md := mock_md 6 "/dev/sda" scattered_faulty_and_removed in
  let array := {| raid_disks := to_int 6 |} in
  let live := (scan_disks linux_md_p md "md0" "/dev/md0" array
                 (seq 0 (MD_SB_DISKS linux_md_p)) [] 0).1 in
  (exists (rows : QueryData) (st' : Z * glog),
     getDrivesForArray linux_md_p md "md0" [] (0, []) = Ok ([] ++ rows, st') /\
     fill_slots "md0" (seqZ 0 (raid_disks array)) live rows) /\
  row_slot <$> live = Ok <$> [1; 3; 5; -1; -1] /\
  returned_slots (getDrivesForArray linux_md_p md "md0" [] (0, []))
  = Some (Ok <$> [1; 3; 5; 2; 0; 4]).
Proof.
  cbn zeta. split; [|split; by vm_compute].
  exact (proj1 (getDrivesForArray_last_seen_wins linux_md_p
                  (mock_md 6 "/dev/sda" scattered_faulty_and_removed) "md0" [] 0 0 0
                  [] "/dev/md0" {| raid_disks := to_int 6 |} eq_refl
                  ltac:(discriminate) eq_refl)).
Defined.

Lemma getDrivesForArray_provisional_slots_witness :
  let md := mock_md 6 "/dev/sda"
              [ mk_disk 0 (-1) 1 11 12; mk_disk 3 3 6 7 8; mk_disk 9 (-1) 1 13 14 ] in
  let array := {| raid_disks := to_int 6 |} in
  let live := (scan_disks linux_md_p md "md0" "/dev/md0" array
                 (seq 0 (MD_SB_DISKS linux_md_p)) [] 0).1 in
  row_slot <$> live = Ok <$> [0; 3; -1] /\
  exists (rows : QueryData) (st' : Z * glog),
    getDrivesForArray linux_md_p md "md0" [] (0, []) = Ok ([] ++ rows, st') /\
    exists r' : Row, rows !! 2%nat = Some r' /\ row_slot r' = Ok 1.
Proof.
  cbn zeta. split; [by vm_compute|].
  set (md := mock_md 6 "/dev/sda"
               [ mk_disk 0 (-1) 1 11 12; mk_disk 3 3 6 7 8; mk_disk 9 (-1) 1 13 14 ]).
  set (array := {| raid_disks := to_int 6 |}).
  assert (Hslots :
    (fun d : nat * mdu_disk_info_t * string => slot_guess (raid_disks array) d.1.2)
      <$> live_disks md "/dev/md0" (seq 0 (MD_SB_DISKS linux_md_p)) 0
    = [0; 3; -1]).
  { by vm_compute. }
  pose proof (proj2 (getDrivesForArray_provisional_slots linux_md_p md "md0" [] 0 0 0
                       [] "/dev/md0" array eq_refl ltac:(discriminate) eq_refl))
    as (rows & st' & Hcall & _ & _ & Hcand).
  exists rows, st'. split; [exact Hcall|].
  apply (Hcand 2%nat 1).
  - exact (eq_trans (f_equal last_negative Hslots) eq_refl).
  - vm_compute. split; [discriminate | reflexivity].
  - intros t Ht. assert (t = 0) as -> by lia.
    rewrite Hslots. apply list_elem_of_here.
  - rewrite Hslots. rewrite !elem_of_cons, elem_of_nil. lia.
Defined.

(** ** Reports without arrays *)

Section PlainLines.

Lemma first_two_prefix (a b : ascii) (line : string) :
  Str.substr line 0 (Some 2%N) = Ok (Str.take 2 line) /\
  String.eqb (Str.take 2 line) (String a (String b ""))
  = String.prefix (String a (String b "")) line.
Proof.
  split.
  { unfold Str.substr. destruct (N.leb_spec 0 (Str.size line)); [|lia]. by rewrite drop_0. }
  destruct line as [|x [|y s]].
  - done.
  - change 2%N with (N.succ 1). rewrite take_succ. cbn.
    destruct (Ascii.eqb_spec x a) as [->|Hne]; by destruct (ascii_dec _ _).
  - change 2%N with (N.succ (N.succ 0)). rewrite !take_succ, take_0. cbn.
    destruct (Ascii.eqb_spec x a) as [->|Hne]; destruct (ascii_dec a _); try done.
    destruct (Ascii.eqb_spec y b) as [->|Hne]; destruct (ascii_dec b _); try done.
    by destruct s.
Qed.

(** The round of the loop on a line that holds no array. *)
Lemma parse_line_plain (lines : list string) (n : N) (line : string)
    (result : MDStat.t) (log : glog) :
  lines !! N.to_nat n = Some line ->
  plain_line line ->
  exists (result' : MDStat.t) (added : glog),
    parse_line lines n result log = Ok (((n + 1)%N, result'), log ++ added) /\
    MDStat.devices result' = MDStat.devices result /\
    MDStat.personalities result' = MDStat.personalities result /\
    (length added <= 1)%nat /\
    Forall (fun e => e.1 = WARNING) added.
Proof.
  intros Hline [Hmd Hun]. unfold parse_line, at_. rewrite Hline.
  unfold mbind, M_bind. cbn [lift].
  destruct (first_two_prefix "m" "d" line) as [-> Emd].
  destruct (first_two_prefix "u" "n" line) as [_ Eun].
  cbn [lift]. rewrite Emd, Hmd, Eun.
  destruct (String.prefix "un" line).
  - unfold Str.substr. change (marker_len "unused devices:") with 15%N.
    destruct (N.leb_spec 15 (Str.size line)) as [_|Hlt]; [|specialize (Hun eq_refl); lia].
    cbn [lift]. exists (MDStat.set_unused (Str.drop 15 line) result), [].
    rewrite app_nil_r. repeat split; [cbn; lia | constructor].
  - exists result, [(WARNING, "Unexpected mdstat line: " +:+ line)].
    repeat split; [cbn; lia | by repeat constructor].
Qed.

Lemma parse_loop_plain (fuel : nat) (lines : list string) :
  Forall plain_line lines ->
  forall (n : N) (result : MDStat.t) (log : glog),
  (vsize lines - n <= N.of_nat fuel)%N ->
  exists (result' : MDStat.t) (added : glog),
    parse_loop fuel lines n result log = Some (Ok (result', log ++ added)) /\
    MDStat.devices result' = MDStat.devices result /\
    MDStat.personalities result' = MDStat.personalities result /\
    (N.of_nat (length added) <= vsize lines - n)%N /\
    Forall (fun e => e.1 = WARNING) added.
Proof.
  intros Hlines. induction fuel as [|fuel IH]; intros n result log Hfuel;
    cbn [parse_loop]; destruct (N.ltb_spec n (vsize lines)) as [Hn|Hn].
  - lia.
  - exists result, []. rewrite app_nil_r. repeat split; [cbn; lia | constructor].
  - destruct (lookup_lt_is_Some_2 lines (N.to_nat n)) as [line Hline].
    { unfold vsize in Hn. lia. }
    destruct (parse_line_plain lines n line result log Hline)
      as (r1 & added1 & -> & Hd1 & Hp1 & Hl1 & Hw1).
    { by eapply Forall_lookup_1 in Hlines. }
    destruct (IH (n + 1)%N r1 (log ++ added1)) as (r2 & added2 & -> & Hd2 & Hp2 & Hl2 & Hw2);
      [lia|].
    exists r2, (added1 ++ added2). rewrite app_assoc.
    repeat split; [congruence | congruence | rewrite length_app; lia |].
    by apply Forall_app.
  - exists result, []. rewrite app_nil_r. repeat split; [cbn; lia | constructor].
Qed.

End PlainLines.

(** Such a report is parsed to the end, and no device is added. *)
Lemma parseMDStat_plain (fuel : nat) (lines : list string)
    (result : MDStat.t) (log : glog) :
  Forall plain_line lines ->
  (length lines <= fuel)%nat ->
  exists (result' : MDStat.t) (log' : glog),
    parseMDStat fuel lines result log = Some (Ok (result', log')) /\
    MDStat.devices result' = MDStat.devices result.
Proof.
  intros Hlines Hfuel. unfold parseMDStat.
  destruct lines as [|line0 rest] eqn:E; [by exists result, log|].
  rewrite <- E in *.
  assert (Hloop : forall n r l, (n <= 1)%N ->
            exists r' l', parse_loop fuel lines n r l = Some (Ok (r', l')) /\
                          MDStat.devices r' = MDStat.devices r).
  { intros n r l Hn.
    destruct (parse_loop_plain fuel lines Hlines n r l) as (r' & added & -> & Hd & _).
    - unfold vsize. lia.
    - by eexists _, _. }
  destruct (Str.find line0 "Personalities :") as [pos|] eqn:Hfind; [|by apply Hloop].
  apply find_in_range in Hfind. unfold Str.substr.
  change (marker_len "Personalities :") with 15%N.
  change (Str.size "Personalities :") with 15%N in Hfind.
  destruct (N.leb_spec 15 (Str.size line0)) as [_|Hlt]; [|lia].
  destruct (Hloop 1%N (MDStat.set_personalities (Str.drop 15 line0) result) log)
    as (r' & l' & -> & Hd); [lia|].
  by exists r', l'.
Qed.

(** X10.  A report without arrays (no line starts with "md", and a line
    that starts with "un" has at least the 15 characters of the marker) is
    parsed to the end without an exception: no device is added to the
    report, and the log grows by warnings only: at most one per line, and
    the one of line 370 when the first line has no "Personalities :". *)
Theorem parseMDStat_without_arrays (fuel : nat) (lines : list string)
    (result : MDStat.t) (log : glog) :
  Forall plain_line lines ->
  (length lines <= fuel)%nat ->
  exists (result' : MDStat.t) (added : glog),
    parseMDStat fuel lines result log = Some (Ok (result', log ++ added)) /\
    MDStat.devices result' = MDStat.devices result /\
    (length added <= S (length lines))%nat /\
    Forall (fun e => e.1 = WARNING) added.
Proof.
  intros Hlines Hfuel. unfold parseMDStat.
  destruct lines as [|line0 rest] eqn:E.
  { exists result, []. rewrite app_nil_r. repeat split; [cbn; lia | constructor]. }
  rewrite <- E in *.
  destruct (Str.find line0 "Personalities :") as [pos|] eqn:Hfind.
  - apply find_in_range in Hfind. unfold Str.substr.
    change (marker_len "Personalities :") with 15%N.
    change (Str.size "Personalities :") with 15%N in Hfind.
    destruct (N.leb_spec 15 (Str.size line0)) as [_|Hlt]; [|lia].
    destruct (parse_loop_plain fuel lines Hlines 1
                (MDStat.set_personalities (Str.drop 15 line0) result) log)
      as (r & added & -> & Hd & _ & Hl & Hw).
    { unfold vsize. lia. }
    exists r, added. repeat split; [done | unfold vsize in Hl; lia | done].
  - destruct (parse_loop_plain fuel lines Hlines 0 result
                (LOG WARNING ("mdstat Personalites not found at line 0: " +:+ line0) log))
      as (r & added & -> & Hd & _ & Hl & Hw).
    { unfold vsize. lia. }
    unfold LOG. rewrite <- app_assoc. eexists r, _. split; [done|].
    split; [done|]. split.
    + rewrite length_app. cbn [length]. unfold vsize in Hl. lia.
    + apply Forall_app. split; [by repeat constructor | done].
Qed.

Lemma parseMDStat_without_arrays_witness :
  exists (result' : MDStat.t) (added : glog),
    parseMDStat 3 ["Personalities : "; "unused devices: <none>"; "bogus"]
      MDStat.empty []
    = Some (Ok (result', [] ++ added)) /\
    MDStat.devices result' = [] /\
    (length added <= 4)%nat /\
    Forall (fun e => e.1 = WARNING) added.
Proof.
  apply (parseMDStat_without_arrays 3
           ["Personalities : "; "unused devices: <none>"; "bogus"] MDStat.empty []).
  - repeat constructor; by vm_compute.
  - cbn. lia.
Defined.

(** ** The rows of md_devices *)

Section DeviceRows.

Implicit Types (r : Row) (log : glog) (line prefix key : string).

Lemma strip_label_stripped piece chars :
  strip_label piece chars = Ok (stripped chars piece).
Proof.
  unfold strip_label, stripped.
  assert (H : match find_first_not_of_any piece chars with
              | Some start => Str.substr piece start None = Ok (lstrip chars piece)
                              /\ lstrip chars piece <> ""
              | None => lstrip chars piece = ""
              end).
  { induction piece as [|a s IH]; [done|].
    cbn [find_first_not_of_any lstrip]. destruct (is_any_of chars a).
    - destruct (find_first_not_of_any s chars) as [i|]; cbn [fmap option_fmap option_map];
        [|done].
      destruct IH as [IH Hne]. split; [|done]. unfold Str.substr in *.
      rewrite size_String. destruct (N.leb_spec i (Str.size s)) as [Hi|Hi]; [|done].
      destruct (N.leb_spec (N.succ i) (N.succ (Str.size s))); [|lia].
      rewrite drop_succ. done.
    - split; [|done]. unfold Str.substr.
      destruct (N.leb_spec 0 (Str.size (String a s))); [|lia]. by rewrite drop_0. }
  destruct (find_first_not_of_any piece chars) as [start|].
  - destruct H as [-> Hne]. by destruct (lstrip chars piece).
  - by rewrite H.
Qed.

Lemma at_0 {A} (x : A) l : at_ (x :: l) 0 = Ok x.
Proof. reflexivity. Qed.

Lemma at_1 {A} (x y : A) l : at_ (x :: y :: l) 1 = Ok y.
Proof. reflexivity. Qed.

Lemma at_2 {A} (x y z : A) l : at_ (x :: y :: z :: l) 2 = Ok z.
Proof. reflexivity. Qed.

Lemma at_3 {A} (x y z u : A) l : at_ (x :: y :: z :: u :: l) 3 = Ok u.
Proof. reflexivity. Qed.

(** [handleR] never fails; it leaves every column alone that is not one of
    its three. *)
Lemma handleR_keeps line prefix r log :
  exists (r' : Row) (added : glog),
    handleR line prefix r log = Ok (r', log ++ added) /\
    Forall (fun e => e.1 = WARNING) added /\
    forall key, key <> prefix +:+ "_progress" -> key <> prefix +:+ "_finish" ->
                key <> prefix +:+ "_speed" -> r' !! key = r !! key.
Proof.
  unfold handleR. destruct (N.eqb_spec (vsize (split line " ")) 4) as [Hlen|_];
    cbn [negb].
  - destruct (split line " ") as [|p0 [|p1 [|p2 [|p3 [|p4 rest]]]]];
      try (unfold vsize in Hlen; cbn [length] in Hlen; lia).
    unfold mbind, M_bind, mret, M_ret. cbn [trimStrs fmap list_fmap].
    rewrite at_0, at_1, at_2, at_3. cbn [lift].
    rewrite !strip_label_stripped. cbn [lift].
    eexists _, []. rewrite app_nil_r. split; [done|]. split; [constructor|].
    intros key H1 H2 H3. by rewrite !lookup_insert_ne.
  - eexists r, [_]. split; [done|]. split; [by repeat constructor | done].
Qed.

(** The bitmap columns never fail either, and leave the other columns
    alone. *)
Lemma bitmap_columns_keeps line r log :
  exists (r' : Row) (added : glog),
    bitmap_columns line r log = Ok (r', log ++ added) /\
    Forall (fun e => e.1 = WARNING) added /\
    forall key, key <> "bitmap_on_mem" -> key <> "bitmap_chunk_size" ->
                key <> "bitmap_external_file" -> r' !! key = r !! key.
Proof.
  unfold bitmap_columns.
  destruct (N.ltb_spec (vsize (split line ",")) 2) as [_|Hlen].
  { eexists r, [_]. split; [done|]. split; [by repeat constructor | done]. }
  unfold trimStrs, vsize in *. rewrite length_fmap.
  destruct (split line ",") as [|b0 [|b1 infos]];
    try (cbn [length] in Hlen; lia).
  unfold mbind, M_bind, mret, M_ret. cbn [fmap list_fmap].
  rewrite at_0, at_1. cbn [lift].
  destruct (N.ltb_spec 2 (N.of_nat (length (b0 :: b1 :: infos)))) as [Hmore|_].
  - destruct infos as [|b2 infos]; [cbn [length] in Hmore; lia|].
    cbn [fmap list_fmap]. rewrite at_2. cbn [lift].
    destruct (Str.find (trimStr b2 space) "file:") as [pos|] eqn:Hfind.
    + rewrite (substr_after_find _ _ _ Hfind). cbn [lift].
      eexists _, []. rewrite app_nil_r. split; [done|]. split; [constructor|].
      intros key H1 H2 H3. by rewrite !lookup_insert_ne.
    + eexists _, []. rewrite app_nil_r. split; [done|]. split; [constructor|].
      intros key H1 H2 H3. by rewrite !lookup_insert_ne.
  - eexists _, []. rewrite app_nil_r. split; [done|]. split; [constructor|].
    intros key H1 H2 H3. by rewrite !lookup_insert_ne.
Qed.

Lemma unless_empty_handleR field prefix r log :
  (forall key, fixed_column key ->
     key <> prefix +:+ "_progress" /\ key <> prefix +:+ "_finish" /\
     key <> prefix +:+ "_speed") ->
  exists (r' : Row) (added : glog),
    unless_empty field (fun line => handleR line prefix) r log = Ok (r', log ++ added) /\
    Forall (fun e => e.1 = WARNING) added /\
    forall key, fixed_column key -> r' !! key = r !! key.
Proof.
  intros Hkeys. unfold unless_empty. destruct (String.eqb field "").
  - exists r, []. rewrite app_nil_r. split; [done|]. split; [constructor | done].
  - destruct (handleR_keeps field prefix r log) as (r' & added & -> & Hw & Hkeep).
    exists r', added. split; [done|]. split; [done|].
    intros key Hkey. destruct (Hkeys key Hkey) as (? & ? & ?). by apply Hkeep.
Qed.

Lemma fixed_column_cases key :
  fixed_column key ->
  key = "device_name" \/ key = "status" \/ key = "raid_level" \/
  key = "healthy_drives" \/ key = "usable_size".
Proof. unfold fixed_column. rewrite !elem_of_cons, elem_of_nil. tauto. Qed.

Lemma device_row_columns unused device log :
  exists (r : Row) (added : glog),
    device_row unused device log = Ok (r, log ++ added) /\
    Forall (fun e => e.1 = WARNING) added /\
    Forall (fun kv => r !! kv.1 = Some kv.2) (base_columns unused device).
Proof.
  unfold device_row. cbn zeta. unfold mbind, M_bind.
  set (r0 := <["usable_size" := _]> _).
  destruct (unless_empty_handleR (MDDevice.recovery device) "discovery" r0 log)
    as (r1 & a1 & -> & Hw1 & Hk1).
  { intros key Hkey%fixed_column_cases.
    destruct Hkey as [->|[->|[->|[->| ->]]]]; by repeat split. }
  destruct (unless_empty_handleR (MDDevice.resync device) "resync" r1 (log ++ a1))
    as (r2 & a2 & -> & Hw2 & Hk2).
  { intros key Hkey%fixed_column_cases.
    destruct Hkey as [->|[->|[->|[->| ->]]]]; by repeat split. }
  destruct (unless_empty_handleR (MDDevice.reshape device) "reshape" r2
              ((log ++ a1) ++ a2)) as (r3 & a3 & -> & Hw3 & Hk3).
  { intros key Hkey%fixed_column_cases.
    destruct Hkey as [->|[->|[->|[->| ->]]]]; by repeat split. }
  destruct (unless_empty_handleR (MDDevice.checkArray device) "check_array" r3
              (((log ++ a1) ++ a2) ++ a3)) as (r4 & a4 & -> & Hw4 & Hk4).
  { intros key Hkey%fixed_column_cases.
    destruct Hkey as [->|[->|[->|[->| ->]]]]; by repeat split. }
  assert (exists (r5 : Row) (a5 : glog),
    unless_empty (MDDevice.bitmap device) bitmap_columns r4
      ((((log ++ a1) ++ a2) ++ a3) ++ a4)
    = Ok (r5, ((((log ++ a1) ++ a2) ++ a3) ++ a4) ++ a5) /\
    Forall (fun e => e.1 = WARNING) a5 /\
    forall key, fixed_column key -> r5 !! key = r4 !! key)
    as (r5 & a5 & -> & Hw5 & Hk5).
  { unfold unless_empty. destruct (String.eqb (MDDevice.bitmap device) "").
    - exists r4, []. rewrite app_nil_r. split; [done|]. split; [constructor | done].
    - destruct (bitmap_columns_keeps (MDDevice.bitmap device) r4
                  ((((log ++ a1) ++ a2) ++ a3) ++ a4))
        as (r5 & a5 & -> & Hw & Hkeep).
      exists r5, a5. split; [done|]. split; [done|].
      intros key Hkey%fixed_column_cases.
      destruct Hkey as [->|[->|[->|[->| ->]]]]; by apply Hkeep. }
  exists (<["unused_devices" := unused]> r5), (a1 ++ a2 ++ a3 ++ a4 ++ a5).
  split; [unfold mret, M_ret; by rewrite !app_assoc|].
  split; [by rewrite !Forall_app|].
  assert (Hfix : forall key, fixed_column key ->
            (<["unused_devices" := unused]> r5) !! key = r0 !! key).
  { intros key Hkey. rewrite lookup_insert_ne.
    - by rewrite Hk5, Hk4, Hk3, Hk2, Hk1.
    - apply fixed_column_cases in Hkey.
      by destruct Hkey as [->|[->|[->|[->| ->]]]]. }
  unfold base_columns. repeat apply Forall_cons_2; try apply Forall_nil_2; cbn [fst snd].
  - rewrite Hfix by (unfold fixed_column; set_solver). subst r0.
    rewrite !lookup_insert_ne by done. by rewrite lookup_insert_eq.
  - rewrite Hfix by (unfold fixed_column; set_solver). subst r0.
    rewrite !lookup_insert_ne by done. by rewrite lookup_insert_eq.
  - rewrite Hfix by (unfold fixed_column; set_solver). subst r0.
    rewrite !lookup_insert_ne by done. by rewrite lookup_insert_eq.
  - rewrite Hfix by (unfold fixed_column; set_solver). subst r0.
    rewrite !lookup_insert_ne by done. by rewrite lookup_insert_eq.
  - rewrite Hfix by (unfold fixed_column; set_solver). subst r0.
    by rewrite lookup_insert_eq.
  - by rewrite lookup_insert_eq.
Qed.

Lemma device_rows_columns unused devices log :
  exists (rows : QueryData) (added : glog),
    mapM_M (device_row unused) devices log = Ok (rows, log ++ added) /\
    Forall (fun e => e.1 = WARNING) added /\
    Forall2 (fun device (r : Row) =>
               Forall (fun kv => r !! kv.1 = Some kv.2) (base_columns unused device))
            devices rows.
Proof.
  revert log. induction devices as [|device devices IH]; intros log.
  - exists [], []. rewrite app_nil_r. by repeat constructor.
  - cbn [mapM_M]. unfold mbind, M_bind.
    destruct (device_row_columns unused device log) as (r & a1 & -> & Hw1 & Hr).
    destruct (IH (log ++ a1)) as (rows & a2 & -> & Hw2 & Hrows).
    exists (r :: rows), (a1 ++ a2). unfold mret, M_ret. rewrite app_assoc.
    split; [done|]. split; [by apply Forall_app | by constructor].
Qed.

End DeviceRows.

(** X11.  Once the report is parsed, md_devices cannot fail: it has one
    row per array of the report, in the order of the report, and whatever the
    recovery, resync, reshape, check and bitmap lines hold, each row has the
    name, status, RAID level, healthy drives and usable size of its array
    and the unused devices of the report.  Only warnings are logged. *)
Theorem genMDDevices_rows (fuel : nat) (file : option (list string))
    (log log1 : glog) (mds : MDStat.t) :
  parseMDStat fuel (getLines file []) MDStat.empty log = Some (Ok (mds, log1)) ->
  exists (rows : QueryData) (added : glog),
    genMDDevices fuel file log = Some (Ok (rows, log1 ++ added)) /\
    Forall2 (fun device (r : Row) =>
               Forall (fun kv => r !! kv.1 = Some kv.2)
                      (base_columns (MDStat.unused mds) device))
            (MDStat.devices mds) rows /\
    Forall (fun e => e.1 = WARNING) added.
Proof.
  intros Hparse. unfold genMDDevices, device_rows. rewrite Hparse.
  destruct (device_rows_columns (MDStat.unused mds) (MDStat.devices mds) log1)
    as (rows & added & -> & Hw & Hrows).
  by exists rows, added.
Qed.

(** X12.  A recovery, resync, reshape or check line of four pieces
    gives three columns: the progress is the first two pieces with a space
    between them; the finish and the speed are the third and the fourth
    piece without their leading characters of "finish=" and of "speed=",
    taken as sets of characters, and the whole piece when nothing else is
    left.  A line with another number of pieces gives a warning and no
    column. *)
Theorem handleR_columns (line prefix : string) (r : Row) (log : glog) :
  (forall p0 p1 p2 p3 : string,
     split line " " = [p0; p1; p2; p3] ->
     handleR line prefix r log
     = Ok (<[prefix +:+ "_speed" := stripped "speed=" (trimStr p3 space)]>
             (<[prefix +:+ "_finish" := stripped "finish=" (trimStr p2 space)]>
                (<[prefix +:+ "_progress" :=
                     trimStr p0 space +:+ " " +:+ trimStr p1 space]> r)),
           log)) /\
  (length (split line " ") <> 4%nat ->
   handleR line prefix r log
   = Ok (r, LOG WARNING ("Unexpected recovery/resync line format: " +:+ line) log)).
Proof.
  unfold handleR. split.
  - intros p0 p1 p2 p3 ->. change (vsize [p0; p1; p2; p3] =? 4)%N with true.
    cbn [negb]. unfold mbind, M_bind, mret, M_ret. cbn [trimStrs fmap list_fmap].
    rewrite at_0, at_1, at_2, at_3. cbn [lift].
    rewrite !strip_label_stripped. by cbn [lift].
  - intros Hlen. destruct (N.eqb_spec (vsize (split line " ")) 4) as [H4|_]; [|done].
    unfold vsize in H4. lia.
Qed.

Lemma handleR_columns_witness :
  handleR "12.3% (100/800) finish=1.2min speed=900K/sec" "discovery" ∅ []
  = Ok (<["discovery_speed" := "900K/sec"]>
          (<["discovery_finish" := "1.2min"]>
             (<["discovery_progress" := "12.3% (100/800)"]> ∅)), []) /\
  handleR "DELAYED" "resync" ∅ []
  = Ok (∅, [(WARNING, "Unexpected recovery/resync line format: DELAYED")]).
Proof.
  split.
  - exact (proj1 (handleR_columns "12.3% (100/800) finish=1.2min speed=900K/sec"
                    "discovery" ∅ [])
             "12.3%" "(100/800)" "finish=1.2min" "speed=900K/sec" eq_refl).
  - refine (proj2 (handleR_columns "DELAYED" "resync" ∅ []) _). by vm_compute.
Defined.

Lemma genMDDevices_rows_witness :
  exists (rows : QueryData) (added : glog),
    genMDDevices 5 (Some (fixture ++ ["unused devices: <none>"])) []
    = Some (Ok (rows, [] ++ added)) /\
    Forall2 (fun device (r : Row) =>
               Forall (fun kv => r !! kv.1 = Some kv.2)
                      (base_columns " <none>" device))
            [fixture_device] rows /\
    Forall (fun e => e.1 = WARNING) added.
Proof.
  apply (genMDDevices_rows 5 (Some (fixture ++ ["unused devices: <none>"])) [] []
           (MDStat.mk " [raid1] [raid6] [raid5] [raid4]" [fixture_device] " <none>")).
  by vm_compute.
Defined.

(** ** The tables md_personalities and md_drives *)

Section Personalities.

Implicit Types (s setting : string).

Lemma size_take n s : (Str.size (Str.take n s) <= Str.size s)%N.
Proof.
  revert n. induction s as [|a s IH]; intros n; [done|].
  cbn [Str.take]. destruct (n =? 0)%N.
  { rewrite size_String. change (Str.size "") with 0%N. lia. }
  rewrite !size_String. specialize (IH (N.pred n)). lia.
Qed.

Lemma size_drop n s : (Str.size (Str.drop n s) <= Str.size s)%N.
Proof.
  revert n. induction s as [|a s IH]; intros n; [done|].
  cbn [Str.drop]. destruct (n =? 0)%N; [lia|].
  rewrite size_String. specialize (IH (N.pred n)). lia.
Qed.

Lemma size_trimStr s c : (Str.size (trimStr s c) <= Str.size s)%N.
Proof.
  destruct (Str.find_first_not_of s c) as [first|] eqn:Hf.
  - destruct (find_first_last _ _ _ Hf) as (last & Hl & _).
    rewrite (trimStr_unfold s c first last) by done.
    pose proof (size_drop first (Str.take (last + 1) s)).
    pose proof (size_take (last + 1) s). lia.
  - unfold trimStr. by rewrite Hf.
Qed.

Lemma trimStr_empty s c : trimStr s c = "" -> s = "".
Proof.
  destruct (Str.find_first_not_of s c) as [first|] eqn:Hf.
  - intros Ht. apply trimStr_trimmed in Hf as [Hf _]. by rewrite Ht in Hf.
  - unfold trimStr. by rewrite Hf.
Qed.

Lemma take_chop s :
  s <> "" -> Str.take (Str.size s - 1) s = chop s.
Proof.
  induction s as [|a s IH]; [done|]. intros _.
  destruct s as [|b s]; [done|].
  rewrite size_String.
  replace (N.succ (Str.size (String b s)) - 1)%N
    with (N.succ (Str.size (String b s) - 1)) by (rewrite size_String; lia).
  rewrite take_succ, IH by done. done.
Qed.

Lemma personality_row_inner setting :
  Z.of_N (Str.size setting) < 2 ^ 64 ->
  personality_row setting
  = if String.eqb setting "" then Throw out_of_range
    else Ok {[ "name" := inner (trimStr setting space) ]}.
Proof.
  intros Hsize. unfold personality_row. cbn zeta.
  pose proof (size_trimStr setting space) as Hle.
  destruct (String.eqb_spec setting "") as [->|Hne]; [done|].
  destruct (trimStr setting space) as [|a t] eqn:Ht.
  { by apply trimStr_empty in Ht. }
  unfold Str.substr. rewrite size_String in *.
  destruct (N.leb_spec 1 (N.succ (Str.size t))); [|lia].
  change 1%N with (N.succ 0). rewrite drop_succ, drop_0.
  cbn [mbind outcome_bind mret outcome_ret inner]. do 3 f_equal.
  unfold size_t_sub. destruct t as [|b t]; [done|].
  rewrite <- take_chop by done. f_equal.
  rewrite size_String in *. rewrite Z.mod_small by lia. lia.
Qed.

Lemma personality_rows_inner settings :
  Forall (fun s => Z.of_N (Str.size s) < 2 ^ 64) settings ->
  personality_rows settings
  = if decide ("" ∈ settings) then Throw out_of_range
    else Ok ((fun s => ({[ "name" := inner (trimStr s space) ]} : Row)) <$> settings).
Proof.
  induction 1 as [|s settings Hs _ IH]; [done|].
  cbn [personality_rows]. rewrite personality_row_inner by done.
  destruct (String.eqb_spec s "") as [->|Hne].
  - by rewrite decide_True by left.
  - rewrite IH. cbn [mbind outcome_bind].
    destruct (decide ("" ∈ settings)) as [Hin|Hnot].
    + by rewrite decide_True by (by right).
    + rewrite decide_False; [done|]. rewrite elem_of_cons. by intros [?|?].
Qed.

End Personalities.

(** X13.  Once the report is parsed, md_personalities has one row
    per piece of the personalities, in their order: the name is the piece,
    trimmed of spaces, without its first and its last character, whatever
    these are.  An empty piece makes [substr] throw. *)
Theorem genMDPersonalities_names (fuel : nat) (file : option (list string))
    (log log1 : glog) (mds : MDStat.t) :
  parseMDStat fuel (getLines file []) MDStat.empty log = Some (Ok (mds, log1)) ->
  Forall (fun s => Z.of_N (Str.size s) < 2 ^ 64)
         (split (MDStat.personalities mds) " ") ->
  genMDPersonalities fuel file log
  = Some (if decide ("" ∈ split (MDStat.personalities mds) " ")
          then Throw out_of_range
          else Ok ((fun s => ({[ "name" := inner (trimStr s space) ]} : Row))
                     <$> split (MDStat.personalities mds) " ", log1)).
Proof.
  intros Hparse Hsizes. unfold genMDPersonalities. rewrite Hparse.
  rewrite personality_rows_inner by done.
  by destruct (decide ("" ∈ split (MDStat.personalities mds) " ")).
Qed.

Lemma genMDPersonalities_names_witness :
  genMDPersonalities 5 (Some (fixture ++ ["unused devices: <none>"])) []
  = Some (Ok ((fun s => ({[ "name" := inner (trimStr s space) ]} : Row))
                <$> ["[raid1]"; "[raid6]"; "[raid5]"; "[raid4]"], [])) /\
  inner (trimStr "[raid1]" space) = "raid1".
Proof.
  assert (Hparse : parseMDStat 5 (getLines (Some (fixture ++ ["unused devices: <none>"])) [])
                     MDStat.empty []
                   = Some (Ok (MDStat.mk " [raid1] [raid6] [raid5] [raid4]"
                                 [fixture_device] " <none>", []))).
  { by vm_compute. }
  assert (Hsplit : split " [raid1] [raid6] [raid5] [raid4]" " "
                   = ["[raid1]"; "[raid6]"; "[raid5]"; "[raid4]"]).
  { by vm_compute. }
  pose proof (genMDPersonalities_names 5
                (Some (fixture ++ ["unused devices: <none>"])) [] [] _ Hparse) as H.
  cbn [MDStat.personalities] in H. rewrite Hsplit in H.
  rewrite decide_False in H.
  - split; [|reflexivity]. apply H. repeat constructor.
  - rewrite !elem_of_cons, elem_of_nil. by intros [?|[?|[?|[?|?]]]].
Defined.

(** X15.  When the file holds no array (no line that is handed on starts
    with "md", and a line that starts with "un" has the 15 characters of the
    marker), md_drives is empty and the driver is not called: its state is
    what it was, whatever the driver is. *)
Theorem genMDDrives_without_arrays {W : Type} (hdr : md_p_h) (md : MDInterface W)
    (fuel : nat) (file : option (list string)) (w : W) (log : glog) :
  Forall plain_line (getLines file []) ->
  (length (getLines file []) <= fuel)%nat ->
  exists log' : glog,
    genMDDrives hdr md fuel file (w, log) = Some (Ok ([], (w, log'))).
Proof.
  intros Hlines Hfuel. unfold genMDDrives.
  destruct (parseMDStat_plain fuel (getLines file []) MDStat.empty log Hlines Hfuel)
    as (mds & log' & -> & Hdev).
  rewrite Hdev. by eexists.
Qed.

Lemma genMDDrives_without_arrays_witness :
  exists log' : glog,
    genMDDrives linux_md_p (mock_md 3 "/dev/sd" []) 2
      (Some ["Personalities : "; "unused devices: <none>"]) (0, [])
    = Some (Ok ([], (0, log'))).
Proof.
  apply (genMDDrives_without_arrays linux_md_p (mock_md 3 "/dev/sd" []) 2
           (Some ["Personalities : "; "unused devices: <none>"]) 0 []).
  - repeat constructor; by vm_compute.
  - by vm_compute.
Defined.

(** ** The udev lookups *)

Section UdevLookups.

Implicit Types (name : string) (nodes : list (string * Z * Z)) (log : glog).

Lemma dev_path_slash devName : exists t, dev_path devName = String "/" t.
Proof.
  unfold dev_path. case_bool_decide as H; [|by eexists].
  destruct devName as [|a t]; cbn [Str.find String.prefix] in H; [discriminate H|].
  destruct (ascii_dec "/" a) as [<-|Hne]; [by eexists|].
  destruct (Str.find t "/") as [i|]; cbn [fmap option_fmap option_map] in H;
    [injection H as H; lia | discriminate H].
Qed.

Lemma path_by_name_nodes name nodes log :
  c_str name = name ->
  Forall (fun node => (Str.size name <= Str.size node.1.1)%N) nodes ->
  path_by_name name (block_entry <$> nodes) log
  = Ok (default "" (dev_path <$> head (filter (has_suffix name) (fst ∘ fst <$> nodes))),
        log).
Proof.
  intros Hname. induction 1 as [|[[devName ma] mi] nodes Hlen _ IH]; [done|].
  cbn [fmap list_fmap block_entry path_by_name DEVNAME fst snd compose].
  unfold mbind, M_bind, ends_with. cbn [fst snd] in Hlen.
  destruct (N.leb_spec (Str.size name) (Str.size devName)); [|lia].
  cbn [lift]. rewrite Hname, filter_cons.
  destruct (String.eqb_spec name
              (Str.drop (Str.size devName - Str.size name) devName)) as [Heq|Hne].
  - by rewrite decide_True.
  - by rewrite decide_False.
Qed.

Lemma name_by_number_nodes major minor nodes log :
  Forall (fun node => in_int node.1.2 = true /\ in_int node.2 = true) nodes ->
  name_by_number major minor (block_entry <$> nodes) log
  = Ok (default "unknown"
          (fst ∘ fst <$> head (filter (fun node => node.1.2 = major /\ node.2 = minor)
                                 nodes)),
        log).
Proof.
  induction 1 as [|[[devName ma] mi] nodes [Hma Hmi] _ IH]; [done|].
  cbn [fmap list_fmap block_entry name_by_number DEVNAME MAJOR MINOR fst snd].
  cbn [fst snd] in Hma, Hmi.
  unfold mbind, M_bind. cbn [of_c_str lift].
  rewrite stoi_to_string by done. cbn [lift]. rewrite filter_cons. cbn [fst snd].
  destruct (Z.eqb_spec ma major) as [->|Hne].
  - cbn [lift]. rewrite stoi_to_string by done. cbn [lift].
    destruct (Z.eqb_spec mi minor) as [->|Hne].
    + by rewrite decide_True.
    + rewrite decide_False by (by intros [_ ?]). apply IH.
  - rewrite decide_False by (by intros [? _]). apply IH.
Qed.

End UdevLookups.

(** X19.  When every block device has a DEVNAME at least as long as the
    name asked for, [MD::getPathByDevName] returns, without a log entry, the
    path of the first device in the order of udev whose DEVNAME ends with
    the name: the DEVNAME itself when it starts with "/", else "/dev/"
    before it.  It returns "" exactly when no DEVNAME ends with the name;
    any other result starts with "/". *)
Theorem MD_getPathByDevName_first_match (nodes : list (string * Z * Z))
    (name : string) (log : glog) :
  c_str name = name ->
  Forall (fun node => (Str.size name <= Str.size node.1.1)%N) nodes ->
  let hits := filter (has_suffix name) (fst ∘ fst <$> nodes) in
  MD_getPathByDevName (udev_entries (block_entry <$> nodes)) name log
  = Ok (default "" (dev_path <$> head hits), log) /\
  (default "" (dev_path <$> head hits) = "" <-> hits = []).
Proof.
  intros Hname Hlen hits. split; [by apply path_by_name_nodes|].
  destruct hits as [|devName hits']; [done|]. cbn.
  destruct (dev_path_slash devName) as [t ->]. done.
Qed.

Lemma MD_getPathByDevName_first_match_witness :
  MD_getPathByDevName
    (udev_entries (block_entry <$> [("/dev/sda", 8, 0); ("/dev/md0", 9, 0);
                                    ("/dev/md/md0", 9, 0)])) "md0" []
  = Ok ("/dev/md0", []).
Proof.
  refine (proj1 (MD_getPathByDevName_first_match
                   [("/dev/sda", 8, 0); ("/dev/md0", 9, 0); ("/dev/md/md0", 9, 0)]
                   "md0" [] eq_refl _)).
  repeat constructor; by vm_compute.
Defined.

(** X20.  A block device whose DEVNAME is missing or shorter than the
    name asked for, listed before any device whose DEVNAME ends with the
    name, makes [MD::getPathByDevName] read outside the DEVNAME: line 175
    subtracts the lengths on [size_t] without comparing them. *)
Theorem MD_getPathByDevName_short_devname (before : list (string * Z * Z))
    (device : block_device) (after : list (option block_device))
    (name : string) (log : glog) :
  c_str name = name ->
  Forall (fun node => (Str.size name <= Str.size node.1.1)%N /\
                      ~ has_suffix name node.1.1) before ->
  match DEVNAME device with
  | Some devName => (Str.size devName < Str.size name)%N
  | None => True
  end ->
  MD_getPathByDevName
    (udev_entries ((block_entry <$> before) ++ Some device :: after)) name log
  = Undefined.
Proof.
  intros Hname Hbefore Hshort. cbn [MD_getPathByDevName useUdevListEntries].
  induction Hbefore as [|[[devName ma] mi] before [Hlen Hno] _ IH].
  - cbn [fmap list_fmap app path_by_name]. destruct (DEVNAME device) as [devName|]; [|done].
    unfold mbind, M_bind, ends_with.
    by destruct (N.leb_spec (Str.size name) (Str.size devName)); [lia|].
  - cbn [fmap list_fmap app block_entry path_by_name DEVNAME fst snd].
    cbn [fst snd] in Hlen, Hno. unfold mbind, M_bind, ends_with.
    destruct (N.leb_spec (Str.size name) (Str.size devName)); [|lia].
    cbn [lift]. rewrite Hname.
    destruct (String.eqb_spec name
                (Str.drop (Str.size devName - Str.size name) devName)); [done|].
    apply IH.
Qed.

Lemma MD_getPathByDevName_short_devname_witness :
  MD_getPathByDevName
    (udev_entries ((block_entry <$> [("/dev/nvme0n1", 259, 0)])
                   ++ Some {| DEVNAME := Some "/dev/sda"; MAJOR := Some "8";
                              MINOR := Some "0" |}
                   :: [block_entry ("/dev/md_backup", 9, 0)])) "md_backup" []
  = Undefined.
Proof.
  apply (MD_getPathByDevName_short_devname [("/dev/nvme0n1", 259, 0)]
           {| DEVNAME := Some "/dev/sda"; MAJOR := Some "8"; MINOR := Some "0" |}
           [block_entry ("/dev/md_backup", 9, 0)] "md_backup" [] eq_refl).
  - repeat constructor; by vm_compute.
  - by vm_compute.
Defined.

(** X21.  When the MAJOR and MINOR of every block device are the
    decimals of ints, [MD::getDevName] returns, without a log entry, the
    DEVNAME of the first device in the order of udev with the numbers asked
    for, and "unknown" when there is none. *)
Theorem MD_getDevName_first_match (nodes : list (string * Z * Z))
    (major minor : Z) (log : glog) :
  Forall (fun node => in_int node.1.2 = true /\ in_int node.2 = true) nodes ->
  MD_getDevName (udev_entries (block_entry <$> nodes)) major minor log
  = Ok (default "unknown"
          (fst ∘ fst <$> head (filter (fun node => node.1.2 = major /\ node.2 = minor)
                                 nodes)),
        log).
Proof. intros Hnodes. by apply name_by_number_nodes. Qed.

Lemma MD_getDevName_first_match_witness :
  MD_getDevName
    (udev_entries (block_entry <$> [("/dev/sda", 8, 0); ("/dev/sdb", 8, 16)])) 8 16 []
  = Ok ("/dev/sdb", []) /\
  MD_getDevName
    (udev_entries (block_entry <$> [("/dev/sda", 8, 0); ("/dev/sdb", 8, 16)])) 9 0 []
  = Ok ("unknown", []).
Proof.
  assert (H : Forall (fun node : string * Z * Z =>
                        in_int node.1.2 = true /\ in_int node.2 = true)
                [("/dev/sda", 8, 0); ("/dev/sdb", 8, 16)]).
  { by repeat constructor. }
  split.
  - exact (MD_getDevName_first_match _ 8 16 [] H).
  - exact (MD_getDevName_first_match _ 9 0 [] H).
Defined.

(** ** The SMART walk *)

Section StringOrder.

Implicit Types (a b c x : string) (v : list string).

Lemma str_lt_trans a b c : str_lt a b -> str_lt b c -> str_lt a c.
Proof.
  unfold str_lt, String.ltb. intros Hab Hbc.
  destruct (String.compare a b) eqn:Eab; try done.
  destruct (String.compare b c) eqn:Ebc; try done.
  apply (OrderedTypeEx.String_as_OT.cmp_lt a b) in Eab.
  apply (OrderedTypeEx.String_as_OT.cmp_lt b c) in Ebc.
  pose proof (OrderedTypeEx.String_as_OT.lt_trans _ _ _ Eab Ebc) as Hac.
  apply OrderedTypeEx.String_as_OT.cmp_lt in Hac.
  unfold OrderedTypeEx.String_as_OT.cmp in Hac. by rewrite Hac.
Qed.

Lemma str_lt_irrefl a : ~ str_lt a a.
Proof.
  unfold str_lt, String.ltb. intros H.
  pose proof (String.compare_antisym a a) as Ha.
  destruct (String.compare a a); done.
Qed.

Lemma str_lt_total a b : str_lt a b \/ a = b \/ str_lt b a.
Proof.
  unfold str_lt, String.ltb. rewrite (String.compare_antisym b a).
  destruct (String.compare a b) eqn:E; cbn; [|by left|by right; right].
  right; left. by apply String.compare_eq_iff.
Qed.

(** [lower_bound] splits the vector at the first element that is not less
    than the value. *)
Lemma lower_bound_spec v x :
  (lower_bound v x <= length v)%nat /\
  Forall (fun a => str_lt a x) (take (lower_bound v x) v) /\
  (forall b, v !! lower_bound v x = Some b -> ~ str_lt b x).
Proof.
  induction v as [|a v (IH1 & IH2 & IH3)]; cbn [lower_bound].
  - split; [done|]. split; [constructor | done].
  - destruct (String.ltb a x) eqn:E.
    + split; [cbn; lia|]. split; [by constructor | done].
    + split; [cbn; lia|]. split; [constructor|].
      intros b [= <-]. unfold str_lt. by rewrite E.
Qed.

Lemma sorted_insert_at v x :
  StronglySorted str_lt v ->
  (forall b, v !! lower_bound v x = Some b -> str_lt x b) ->
  StronglySorted str_lt (insert_at v (lower_bound v x) x).
Proof.
  intros Hs Hlt. destruct (lower_bound_spec v x) as (Hle & Hbefore & _).
  unfold insert_at. set (i := lower_bound v x) in *.
  rewrite <- (list.take_drop i v) in Hs.
  apply StronglySorted_app in Hs as (Hcross & Hs1 & Hs2).
  apply StronglySorted_app_2; [| done |].
  - intros a b Ha Hb. apply elem_of_cons in Hb as [->|Hb].
    + by eapply Forall_forall in Hbefore.
    + eapply str_lt_trans; [by eapply Forall_forall in Hbefore|].
      destruct (drop i v) as [|y rest] eqn:Ed; [by apply elem_of_nil in Hb|].
      assert (Hy : v !! i = Some y).
      { rewrite <- (list.take_drop i v), Ed, lookup_app_r by (rewrite length_take; lia).
        rewrite length_take. by replace (i - i `min` length v)%nat with 0%nat by lia. }
      apply elem_of_cons in Hb as [->|Hb]; [by apply Hlt|].
      eapply str_lt_trans; [by apply Hlt|].
      apply StronglySorted_inv in Hs2 as [_ Hs2]. by eapply Forall_forall in Hs2.
  - constructor; [done|]. apply Forall_forall. intros b Hb.
    destruct (drop i v) as [|y rest] eqn:Ed; [by apply elem_of_nil in Hb|].
    assert (Hy : v !! i = Some y).
    { rewrite <- (list.take_drop i v), Ed, lookup_app_r by (rewrite length_take; lia).
      rewrite length_take. by replace (i - i `min` length v)%nat with 0%nat by lia. }
    apply elem_of_cons in Hb as [->|Hb]; [by apply Hlt|].
    eapply str_lt_trans; [by apply Hlt|].
    apply StronglySorted_inv in Hs2 as [_ Hs2]. by eapply Forall_forall in Hs2.
Qed.

Lemma elem_of_insert_at v i x d :
  d ∈ insert_at v i x <-> d = x \/ d ∈ v.
Proof.
  unfold insert_at. rewrite elem_of_app, elem_of_cons.
  assert (d ∈ v <-> d ∈ take i v \/ d ∈ drop i v) as ->.
  { by rewrite <- elem_of_app, list.take_drop. }
  tauto.
Qed.

(** One entry keeps the vector sorted and adds the driver of a mass storage
    controller, unless it is there. *)
Lemma addStorageDriver_sorted v entry :
  StronglySorted str_lt v ->
  StronglySorted str_lt (addStorageDriver v entry) /\
  forall d, d ∈ addStorageDriver v entry <->
            d ∈ v \/ exists device, entry = Some device /\
                       ID_PCI_CLASS_FROM_DATABASE device = "Mass storage controller" /\
                       DRIVER device = d.
Proof.
  intros Hs. unfold addStorageDriver. destruct entry as [device|].
  2: { split; [done|]. intros d. split; [by left | by intros [?|(? & ? & _)]]. }
  destruct (String.eqb_spec (ID_PCI_CLASS_FROM_DATABASE device)
              "Mass storage controller") as [Hclass|Hclass].
  2: { split; [done|]. intros d. split; [by left|].
       intros [?|(? & [= <-] & ? & _)]; done. }
  cbn zeta. destruct (lower_bound_spec v (DRIVER device)) as (_ & _ & Hat).
  destruct (v !! lower_bound v (DRIVER device)) as [x|] eqn:Ex.
  - destruct (String.ltb (DRIVER device) x) eqn:Elt.
    + split.
      * apply sorted_insert_at; [done|]. intros b. rewrite Ex. by intros [= <-].
      * intros d. rewrite elem_of_insert_at. split.
        -- intros [->|?]; [right; by exists device | by left].
        -- intros [?|(? & [= <-] & _ & <-)]; [by right | by left].
    + split; [done|]. intros d. split; [by left|].
      intros [?|(? & [= <-] & _ & <-)]; [done|].
      destruct (str_lt_total (DRIVER device) x) as [H|[->|H]].
      * unfold str_lt in H. congruence.
      * by eapply list_elem_of_lookup_2.
      * by destruct (Hat x).
  - split.
    + apply sorted_insert_at; [done|]. intros b. by rewrite Ex.
    + intros d. rewrite elem_of_insert_at. split.
      * intros [->|?]; [right; by exists device | by left].
      * intros [?|(? & [= <-] & _ & <-)]; [by right | by left].
Qed.

Lemma foldl_addStorageDriver_sorted entries v :
  StronglySorted str_lt v ->
  StronglySorted str_lt (foldl addStorageDriver v entries) /\
  forall d, d ∈ foldl addStorageDriver v entries <-> d ∈ v \/ storage_driver entries d.
Proof.
  revert v. induction entries as [|entry entries IH]; intros v Hs.
  - split; [done|]. intros d. split; [by left|].
    intros [?|(device & Hin & _)]; [done | by apply elem_of_nil in Hin].
  - cbn [foldl]. destruct (addStorageDriver_sorted v entry Hs) as [Hs1 Hin1].
    destruct (IH _ Hs1) as [Hs2 Hin2]. split; [done|].
    intros d. rewrite Hin2, Hin1. unfold storage_driver. split.
    + intros [[?|(device & -> & ? & ?)]|(device & Hin & ? & ?)].
      * by left.
      * right. exists device. split; [left | done].
      * right. exists device. split; [by right | done].
    + intros [?|(device & Hin & ? & ?)]; [by left; left|].
      apply elem_of_cons in Hin as [<-|Hin].
      * left; right. by exists device.
      * right. by exists device.
Qed.

Lemma sorted_NoDup v : StronglySorted str_lt v -> NoDup v.
Proof.
  induction 1 as [|a v _ IH Ha]; constructor; [|done].
  intros Hin. eapply Forall_forall in Ha; [|done]. by apply str_lt_irrefl in Ha.
Qed.

End StringOrder.

Section SmartTypes.

Implicit Types (l drivers : list string) (types : list explicitDevice).

Lemma getStorageCtlerClassDrivers_fold udev log :
  getStorageCtlerClassDrivers udev log
  = Ok (foldl addStorageDriver [] (default [] udev),
        match udev with
        | None => LOG ERROR "Could not get libudev handle" log
        | Some _ => log
        end).
Proof.
  unfold getStorageCtlerClassDrivers, walkUdevSubSystem.
  destruct udev as [entries|]; [|done]. cbn [default from_option].
  assert (H : forall v, walk_entries (fun results entry =>
                          Ok (addStorageDriver results entry)) v entries
                        = Ok (foldl addStorageDriver v entries)).
  { induction entries as [|e entries IH]; intros v; [done|]. cbn. apply IH. }
  by rewrite H.
Qed.

Lemma table_lookup name :
  kExplicitDriverToDevice !! name
  = if String.eqb name "megaraid_sas" then Some megaraid
    else if String.eqb name "hpsa" then Some cciss else None.
Proof.
  unfold kExplicitDriverToDevice.
  destruct (String.eqb_spec name "megaraid_sas") as [->|H1].
  { by rewrite lookup_insert_eq. }
  rewrite lookup_insert_ne by done.
  destruct (String.eqb_spec name "hpsa") as [->|H2].
  { by rewrite lookup_insert_eq. }
  by rewrite lookup_insert_ne.
Qed.

Lemma getSmartCtlDeviceType_omap drivers types :
  getSmartCtlDeviceType drivers types
  = Ok (types ++ omap (fun name => kExplicitDriverToDevice !! name) drivers).
Proof.
  revert types. induction drivers as [|name drivers IH]; intros types.
  - cbn. by rewrite app_nil_r.
  - cbn [getSmartCtlDeviceType omap list_omap]. unfold map_at.
    destruct (kExplicitDriverToDevice !! name) as [dev|].
    + rewrite IH. by rewrite <- app_assoc.
    + apply IH.
Qed.

Lemma hpsa_lt_megaraid : str_lt "hpsa" "megaraid_sas".
Proof. reflexivity. Qed.

Lemma types_above_megaraid l :
  Forall (str_lt "megaraid_sas") l ->
  omap (fun name => kExplicitDriverToDevice !! name) l = [].
Proof.
  induction 1 as [|a l Ha _ IH]; [done|]. cbn [omap list_omap].
  rewrite table_lookup, IH.
  destruct (String.eqb_spec a "megaraid_sas") as [->|_].
  { by apply str_lt_irrefl in Ha. }
  destruct (String.eqb_spec a "hpsa") as [->|_]; [|done].
  destruct (str_lt_irrefl "hpsa"). by eapply str_lt_trans; [apply hpsa_lt_megaraid|].
Qed.

Lemma types_above_hpsa l :
  StronglySorted str_lt l -> Forall (str_lt "hpsa") l ->
  omap (fun name => kExplicitDriverToDevice !! name) l `sublist_of` [megaraid].
Proof.
  induction 1 as [|a l _ IH Hal]; intros Hl; [apply sublist_nil_l|].
  apply Forall_cons in Hl as [Ha Hl]. cbn [omap list_omap]. rewrite table_lookup.
  destruct (String.eqb_spec a "megaraid_sas") as [->|_].
  { rewrite types_above_megaraid by done. apply sublist_skip, sublist_nil. }
  destruct (String.eqb_spec a "hpsa") as [->|_]; [by apply str_lt_irrefl in Ha|].
  by apply IH.
Qed.

Lemma types_of_sorted l :
  StronglySorted str_lt l ->
  omap (fun name => kExplicitDriverToDevice !! name) l
  `sublist_of` [cciss; megaraid].
Proof.
  induction 1 as [|a l Hs IH Hal]; [apply sublist_nil_l|].
  cbn [omap list_omap]. rewrite table_lookup.
  destruct (String.eqb_spec a "megaraid_sas") as [->|_].
  { rewrite types_above_megaraid by done. apply sublist_cons, sublist_skip, sublist_nil. }
  destruct (String.eqb_spec a "hpsa") as [->|_]; [|done].
  apply sublist_skip. by apply types_above_hpsa.
Qed.

Lemma types_elem_of l dev :
  dev ∈ omap (fun name => kExplicitDriverToDevice !! name) l <->
  (dev = megaraid /\ "megaraid_sas" ∈ l) \/ (dev = cciss /\ "hpsa" ∈ l).
Proof.
  rewrite list_elem_of_omap. split.
  - intros (name & Hin & Hlook). rewrite table_lookup in Hlook.
    destruct (String.eqb_spec name "megaraid_sas") as [->|_].
    { injection Hlook as <-. by left. }
    destruct (String.eqb_spec name "hpsa") as [->|_]; [|done].
    injection Hlook as <-. by right.
  - intros [[-> Hin]|[-> Hin]]; eexists; (split; [exact Hin|]); by rewrite table_lookup.
Qed.

End SmartTypes.

(** X16.  Whatever udev enumerates, the drivers that
    [getStorageCtlerClassDrivers] hands back are in strictly increasing
    order, so that each call of [std::lower_bound] is made on a sorted
    vector and no driver is listed twice; they are the drivers of the
    devices whose class is "Mass storage controller", and no others.
    Without a udev handle there is none, and one error is logged. *)
Theorem getStorageCtlerClassDrivers_sorted
    (udev : option (list (option pci_device))) (log : glog) :
  exists drivers : list string,
    getStorageCtlerClassDrivers udev log
    = Ok (drivers, match udev with
                   | None => LOG ERROR "Could not get libudev handle" log
                   | Some _ => log
                   end) /\
    StronglySorted str_lt drivers /\
    NoDup drivers /\
    forall d : string, d ∈ drivers <-> storage_driver (default [] udev) d.
Proof.
  eexists. split; [apply getStorageCtlerClassDrivers_fold|].
  destruct (foldl_addStorageDriver_sorted (default [] udev) []) as [Hs Hin];
    [constructor|].
  split; [done|]. split; [by apply sorted_NoDup|].
  intros d. rewrite (Hin d). split; [|by right].
  intros [Hnil|?]; [by apply elem_of_nil in Hnil | done].
Qed.

(** X17.  The device types that the walk tries are taken from the table
    by the drivers of the storage controllers: "cciss," when a controller
    has the driver hpsa, "megaraid," when one has megaraid_sas, each once
    however many controllers there are, and "cciss," first; the lookup of
    any other driver throws, and the exception is caught. *)
Theorem getSmartCtlDeviceType_of_drivers
    (udev : option (list (option pci_device))) (log : glog) :
  exists (drivers : list string) (log' : glog) (types : list explicitDevice),
    getStorageCtlerClassDrivers udev log = Ok (drivers, log') /\
    getSmartCtlDeviceType drivers [] = Ok types /\
    types `sublist_of` [cciss; megaraid] /\
    (cciss ∈ types <-> storage_driver (default [] udev) "hpsa") /\
    (megaraid ∈ types <-> storage_driver (default [] udev) "megaraid_sas").
Proof.
  eexists _, _, _. split; [apply getStorageCtlerClassDrivers_fold|].
  split; [apply getSmartCtlDeviceType_omap|]. rewrite app_nil_l.
  destruct (foldl_addStorageDriver_sorted (default [] udev) []) as [Hs Hin];
    [constructor|].
  split; [by apply types_of_sorted|].
  assert (Hmem : forall d, d ∈ foldl addStorageDriver [] (default [] udev)
                           <-> storage_driver (default [] udev) d).
  { intros d. rewrite (Hin d). split; [|by right].
    intros [Hnil|?]; [by apply elem_of_nil in Hnil | done]. }
  split; rewrite types_elem_of, <- Hmem.
  - split; [intros [[? _]|[_ ?]]; done | by right].
  - split; [intros [[_ ?]|[? _]]; done | by left].
Qed.

Section WalkCalls.

Context {W : Type}.
Variable c : SmartClient W.
Variable h : string -> string -> Z -> W * glog -> W * glog.

Implicit Types (w : W) (tr : list walk_event) (log : glog).

Lemma walkUdevSubSystem_log {E R : Type} (udev : option (list E))
    (f : R -> E -> outcome R) (r : R) log :
  walkUdevSubSystem udev f r log
  = match walk_entries f r (default [] udev) with
    | Ok v => Ok (v, match udev with
                     | None => LOG ERROR "Could not get libudev handle" log
                     | Some _ => log
                     end)
    | Throw e => Throw e
    | Undefined => Undefined
    end.
Proof. by destruct udev. Qed.

(** The loop over the ids, observed: the run is the run without the
    events, and the events are those of the ids with the answers given. *)
Lemma try_ids_events dev prefix ids found w tr log :
  exists resps : list CantIdDevResp,
    length resps = length ids /\
    try_ids (observed c) (recording h) dev prefix ids found ((w, tr), log)
    = ((try_ids c h dev prefix ids found (w, log)).1,
       (((try_ids c h dev prefix ids found (w, log)).2.1,
         tr ++ concat (zip_with (id_events dev prefix) ids resps)),
        (try_ids c h dev prefix ids found (w, log)).2.2)) /\
    (try_ids c h dev prefix ids found (w, log)).1
    = found || existsb identifies resps.
Proof.
  revert found w tr log. induction ids as [|i ids IH]; intros found w tr log.
  - exists []. split; [done|]. cbn. rewrite app_nil_r.
    split; [done|]. by rewrite orb_false_r.
  - cbn [try_ids observed cantIdDev fst snd].
    destruct (cantIdDev c dev (prefix +:+ to_string i) w) as [resp w1].
    set (ask := probed dev (prefix +:+ to_string i) resp).
    set (call := handled dev (prefix +:+ to_string i) i).
    assert (Hevents : forall resps,
              concat (zip_with (id_events dev prefix) (i :: ids) (resp :: resps))
              = (ask :: (if identifies resp then [call] else []))
                ++ concat (zip_with (id_events dev prefix) ids resps)) by done.
    destruct (cant_err resp) eqn:Herr.
    + destruct (cant_content resp) eqn:Hcontent; cbn [negb].
      * assert (Hid : identifies resp = false)
          by (unfold identifies; by rewrite Herr, Hcontent).
        destruct (IH found w1 (tr ++ [ask]) log) as (resps & Hlen & Hrun & Hres).
        exists (resp :: resps). split; [cbn; lia|].
        rewrite Hrun, Hres, Hevents, Hid. cbn [existsb app].
        rewrite Hid, <- app_assoc. cbn [app orb]. done.
      * assert (Hid : identifies resp = true)
          by (unfold identifies; by rewrite Herr, Hcontent).
        assert (Hrec : recording h dev (prefix +:+ to_string i) i (w1, tr ++ [ask], log)
                       = (((h dev (prefix +:+ to_string i) i (w1, log)).1,
                           (tr ++ [ask]) ++ [call]),
                          (h dev (prefix +:+ to_string i) i (w1, log)).2)).
        { unfold recording. cbn [fst snd].
          by destruct (h dev (prefix +:+ to_string i) i (w1, log)). }
        rewrite Hrec.
        destruct (h dev (prefix +:+ to_string i) i (w1, log)) as [w2 log2].
        cbn [fst snd].
        destruct (IH true w2 ((tr ++ [ask]) ++ [call]) log2)
          as (resps & Hlen & Hrun & Hres).
        exists (resp :: resps). split; [cbn; lia|].
        rewrite Hrun, Hres, Hevents, Hid. cbn [existsb app].
        rewrite Hid, <- !app_assoc. cbn [app orb]. by rewrite orb_true_r.
    + assert (Hid : identifies resp = false)
        by (unfold identifies; by rewrite Herr).
      destruct (IH found w1 (tr ++ [ask])
                  (LOG WARNING "Error while trying to identify device" log))
        as (resps & Hlen & Hrun & Hres).
      exists (resp :: resps). split; [cbn; lia|].
      rewrite Hrun, Hres, Hevents, Hid. cbn [existsb app].
      rewrite Hid, <- app_assoc. cbn [app orb]. done.
Qed.

Lemma try_types_events dev types w tr log :
  exists events : list walk_event,
    try_types (observed c) (recording h) dev types false ((w, tr), log)
    = ((try_types c h dev types false (w, log)).1,
       (((try_types c h dev types false (w, log)).2.1, tr ++ events),
        (try_types c h dev types false (w, log)).2.2)) /\
    device_events dev types
      (events ++ if (try_types c h dev types false (w, log)).1 then []
                 else [handled dev "" (-1)]).
Proof.
  revert w tr log. induction types as [|type types IH]; intros w tr log.
  - exists []. cbn. rewrite app_nil_r. split; [done | constructor].
  - cbn [try_types].
    destruct (try_ids_events dev (driver type) (seqZ 0 (maxID type + 1)) false w tr log)
      as (resps & Hlen & -> & Hfound).
    rewrite length_seqZ in Hlen.
    destruct (try_ids c h dev (driver type) (seqZ 0 (maxID type + 1)) false (w, log))
      as [found [w1 log1]]. cbn [fst snd] in *. cbn [orb] in Hfound.
    fold (type_events dev type resps). destruct found.
    + exists (type_events dev type resps). split; [done|]. cbn [fst].
      rewrite app_nil_r. by apply events_hit.
    + destruct (IH w1 (tr ++ type_events dev type resps) log1)
        as (events & -> & Hevents).
      exists (type_events dev type resps ++ events). rewrite !app_assoc.
      split; [done|]. rewrite <- app_assoc. by apply events_miss.
Qed.

Lemma walk_device_events types dev w tr log :
  exists events : list walk_event,
    walk_device (observed c) (recording h) types ((w, tr), log) dev
    = (((walk_device c h types (w, log) dev).1, tr ++ events),
       (walk_device c h types (w, log) dev).2) /\
    device_events dev types events.
Proof.
  unfold walk_device.
  destruct (try_types_events dev types w tr log) as (events & -> & Hevents).
  destruct (try_types c h dev types false (w, log)) as [found [w1 log1]].
  cbn [fst snd] in *. destruct found; cbn [negb].
  - rewrite app_nil_r in Hevents. by exists events.
  - unfold recording. cbn [fst snd].
    destruct (h dev "" (-1) (w1, log1)) as [w2 log2].
    exists (events ++ [handled dev "" (-1)]). rewrite app_assoc. by split.
Qed.

Lemma walk_devices_events types devs w tr log :
  exists blocks : list (list walk_event),
    foldl (walk_device (observed c) (recording h) types) ((w, tr), log) devs
    = (((foldl (walk_device c h types) (w, log) devs).1, tr ++ concat blocks),
       (foldl (walk_device c h types) (w, log) devs).2) /\
    Forall2 (fun dev events => device_events dev types events) devs blocks.
Proof.
  revert w tr log. induction devs as [|dev devs IH]; intros w tr log.
  - exists []. cbn. rewrite app_nil_r. split; [done | constructor].
  - cbn [foldl].
    destruct (walk_device_events types dev w tr log) as (events & -> & Hevents).
    destruct (walk_device c h types (w, log) dev) as [w1 log1]. cbn [fst snd].
    destruct (IH w1 (tr ++ events) log1) as (blocks & -> & Hblocks).
    exists (events :: blocks). cbn [concat]. rewrite app_assoc.
    split; [done | by constructor].
Qed.

End WalkCalls.


